(** * A verified model of the calculator's expression evaluator

    This development embeds [src/calculator/app.py] in Rocq:

    - [_evaluate_ast] and [safe_eval], the whitelist walk over a Python
      syntax tree and its entry point;
    - the two dispatch tables [_ALLOWED_OPERATORS] and
      [_ALLOWED_UNARY_OPERATORS], kept as finite maps in an explicit store
      of module globals which the evaluator reads;
    - the [CalculatorState] record with [append], [clear] and [backspace];
    - [CalculatorApp]: the four methods behind the buttons, the table of
      buttons, and a session of clicks from [main].

    The functions of the Python runtime that the module calls are modelled
    next to it: the arithmetic of [operator.add] ... [operator.mod] on
    [int], [bool], [float] and [complex] operands (integers are unbounded,
    floats are IEEE-754 binary64 with round-to-nearest-even), and
    [ast.parse(text, mode="eval")] on a fragment of the expression syntax,
    and the built-in [str] on numbers.
    What the C library decides ([pow] on doubles, complex arithmetic) is a
    parameter of the model.  Recursion depth, memory and time limits of the
    interpreter are not modelled. *)

From Stdlib Require Import ZArith QArith Lia Bool List String Ascii SpecFloat.
From stdpp Require Import base decidable countable gmap.

Import ListNotations.
Local Open Scope Z_scope.
Set Warnings "-register-all".

(** ** Binary64 floating point *)

Module Float.

Abbreviation float := spec_float.

Definition prec : Z := 53.
Definition emax : Z := 1024.

Definition zero : float := S754_zero false.
Definition nan : float := S754_nan.

Definition add : float -> float -> float := SFadd prec emax.
Definition sub : float -> float -> float := SFsub prec emax.
Definition mul : float -> float -> float := SFmul prec emax.
Definition div : float -> float -> float := SFdiv prec emax.
Definition neg : float -> float := SFopp.
Definition fabs : float -> float := SFabs.
Definition eqb : float -> float -> bool := SFeqb.
Definition ltb : float -> float -> bool := SFltb.

(** The integer [z] rounded to the nearest double (ties to even); an
    infinity when [z] is out of range. *)
Definition of_Z (z : Z) : float := binary_normalize prec emax z 0 false.

Definition one : float := of_Z 1.
Definition two : float := of_Z 2.

(** The quotient [a / b] of two integers, [b <> 0], rounded once to the
    nearest double.  A zero numerator takes the sign of the quotient. *)
Definition div_Z (a b : Z) : float :=
  match a, b with
  | Z0, _ => S754_zero (b <? 0)
  | _, Z0 => S754_nan
  | _, _ =>
      SFdiv prec emax
        (S754_finite (a <? 0) (Z.to_pos (Z.abs a)) 0)
        (S754_finite (b <? 0) (Z.to_pos (Z.abs b)) 0)
  end.

(** The decimal [m * 10 ^ e], [0 <= m], rounded once to the nearest
    double: the value of a floating-point literal. *)
Definition of_decimal (m e : Z) : float :=
  if 0 <=? e then of_Z (m * 10 ^ e) else div_Z m (10 ^ (- e)).

Definition half : float := div_Z 1 2.

Definition is_nan (x : float) : bool :=
  match x with S754_nan => true | _ => false end.

Definition is_inf (x : float) : bool :=
  match x with S754_infinity _ => true | _ => false end.

Definition is_zero (x : float) : bool :=
  match x with S754_zero _ => true | _ => false end.

Definition signbit (x : float) : bool :=
  match x with
  | S754_zero s | S754_infinity s | S754_finite s _ _ => s
  | S754_nan => false
  end.

(** C's [copysign(0.0, x)]. *)
Definition zero_like (x : float) : float := S754_zero (signbit x).

(** C's [fmod]: the exact remainder [x - n * y], [n] the quotient
    truncated towards zero; the result has the sign of [x]. *)
Definition fmod (x y : float) : float :=
  match x, y with
  | S754_nan, _ | _, S754_nan => S754_nan
  | S754_infinity _, _ => S754_nan
  | _, S754_zero _ => S754_nan
  | _, S754_infinity _ => x
  | S754_zero _, _ => x
  | S754_finite sx mx ex, S754_finite _ my ey =>
      let e := Z.min ex ey in
      let X := Zpos mx * 2 ^ (ex - e) in
      let Y := Zpos my * 2 ^ (ey - e) in
      binary_normalize prec emax (cond_Zopp sx (X mod Y)) e sx
  end.

(** C's [floor]. *)
Definition floor (x : float) : float :=
  match x with
  | S754_finite s m e =>
      if 0 <=? e then x
      else binary_normalize prec emax
             (Z.shiftr (cond_Zopp s (Zpos m)) (- e)) 0 s
  | _ => x
  end.

(** The rational number a finite double stands for. *)
Definition exact (x : float) : option Q :=
  match x with
  | S754_zero _ => Some 0%Q
  | S754_finite s m e => Some (inject_Z (cond_Zopp s (Zpos m)) * Qpower 2 e)%Q
  | S754_infinity _ | S754_nan => None
  end.

(** [DOUBLE_IS_ODD_INTEGER] of CPython's [floatobject.c]. *)
Definition is_odd_integer (x : float) : bool :=
  eqb (fmod (fabs x) two) one.

End Float.

Import Float.

(** ** The syntax tree of Python's [ast] module *)

(** Literal values a [Constant] node can hold. *)
Inductive constant :=
| CInt (z : Z)
| CFloat (f : float)
| CImag (f : float)
| CStr (s : string)
| CBytes (s : string)
| CBool (b : bool)
| CNone
| CEllipsis.

Inductive operator :=
| Add | Sub | Mult | MatMult | Div | Mod | Pow
| LShift | RShift | BitOr | BitXor | BitAnd | FloorDiv.

Inductive unaryop := Invert | Not | UAdd | USub.

Inductive boolop := And | Or.

Inductive cmpop := Eq_ | NotEq | Lt_ | LtE | Gt_ | GtE | Is | IsNot | In_ | NotIn.

(** [ast.AST]: the [Expression] wrapper returned by [ast.parse] in eval
    mode and the expression nodes.  [Lambda] keeps only the parameter names
    and [Call] keeps keyword arguments as (name, value) pairs, [None] for a
    double-starred argument. *)
Inductive AST :=
| Expression (body : AST)
| Constant (value : constant)
| UnaryOp (op : unaryop) (operand : AST)
| BinOp (left : AST) (op : operator) (right : AST)
| BoolOp (op : boolop) (values : list AST)
| Compare (left : AST) (ops : list cmpop) (comparators : list AST)
| Call (func : AST) (args : list AST) (keywords : list (option string * AST))
| Name (id : string)
| Attribute (value : AST) (attr : string)
| Subscript (value : AST) (slice : AST)
| Starred (value : AST)
| IfExp (test : AST) (body : AST) (orelse : AST)
| Lambda (params : list string) (body : AST)
| NamedExpr (target : AST) (value : AST)
| Tuple (elts : list AST)
| List_ (elts : list AST)
| Set_ (elts : list AST)
| Dict (keys : list AST) (values : list AST).

Global Instance operator_eq_dec : EqDecision operator.
Proof. solve_decision. Defined.

Global Instance unaryop_eq_dec : EqDecision unaryop.
Proof. solve_decision. Defined.

Definition operator_index (o : operator) : nat :=
  match o with
  | Add => 0 | Sub => 1 | Mult => 2 | MatMult => 3 | Div => 4 | Mod => 5
  | Pow => 6 | LShift => 7 | RShift => 8 | BitOr => 9 | BitXor => 10
  | BitAnd => 11 | FloorDiv => 12
  end%nat.

Definition operator_of_index (n : nat) : operator :=
  match n with
  | 0 => Add | 1 => Sub | 2 => Mult | 3 => MatMult | 4 => Div | 5 => Mod
  | 6 => Pow | 7 => LShift | 8 => RShift | 9 => BitOr | 10 => BitXor
  | 11 => BitAnd | _ => FloorDiv
  end%nat.

Global Instance operator_countable : Countable operator.
Proof.
  refine (inj_countable' operator_index operator_of_index _).
  intros o. destruct o; reflexivity.
Defined.

Definition unaryop_index (o : unaryop) : nat :=
  match o with Invert => 0 | Not => 1 | UAdd => 2 | USub => 3 end%nat.

Definition unaryop_of_index (n : nat) : unaryop :=
  match n with 0 => Invert | 1 => Not | 2 => UAdd | _ => USub end%nat.

Global Instance unaryop_countable : Countable unaryop.
Proof.
  refine (inj_countable' unaryop_index unaryop_of_index _).
  intros o. destruct o; reflexivity.
Defined.

(** ** Exceptions and results *)

(** The exception classes that can reach the module.  [SyntaxError] stands
    for the class and its subclasses ([IndentationError], [TabError]).
    [EvaluationError] is the module's own class; [cause] is the exception
    it was raised [from].  [NotModelled] is no Python exception: the model
    of [ast.parse] answers with it on a text outside the syntax it covers. *)
Inductive exception :=
| SyntaxError
| ZeroDivisionError
| OverflowError
| TypeError
| ValueError
| KeyError
| NotModelled
| EvaluationError (message : string) (cause : option exception).

Inductive outcome (A : Type) :=
| Return (a : A)
| Raise (e : exception).

Arguments Return {A} a.
Arguments Raise {A} e.

Definition is_EvaluationError (e : exception) : bool :=
  match e with EvaluationError _ _ => true | _ => false end.

(** ** Numbers *)

Record complex := Complex { real : float; imag : float }.

(** The values the evaluator computes with.  The source's alias [Number]
    is [Union[int, float]]; [bool] is a subclass of [int], and a [complex]
    can come out of [operator.pow]. *)
Inductive Number :=
| PyInt (z : Z)
| PyBool (b : bool)
| PyFloat (f : float)
| PyComplex (c : complex).

Definition is_int (n : Number) : bool :=
  match n with PyInt _ | PyBool _ => true | _ => false end.

Definition is_float (n : Number) : bool :=
  match n with PyFloat _ => true | _ => false end.

Definition is_complex (n : Number) : bool :=
  match n with PyComplex _ => true | _ => false end.

(** The integer value of an [int] or [bool] object. *)
Definition as_int (n : Number) : option Z :=
  match n with
  | PyInt z => Some z
  | PyBool b => Some (if b then 1 else 0)
  | _ => None
  end.

(** ** The platform *)

Inductive errno := ENONE | ERANGE | EDOM.

(** What the C library decides: [pow] on two doubles with the [errno] it
    leaves, and CPython's arithmetic on two [complex] operands
    ([complex_add], [complex_sub], [complex_mul], [complex_pow], and
    [complex_div] for a non-zero divisor). *)
Class Platform := {
  libm_pow : float -> float -> float * errno;
  complex_arith : operator -> complex -> complex -> outcome complex
}.

(** ** The functions of Python's [operator] module *)

Module Operator.
Section WithPlatform.

Context {platform : Platform}.

(** [PyLong_AsDouble] / [CONVERT_TO_DOUBLE]: an [int] too large for a
    double raises [OverflowError]. *)
Definition to_double (n : Number) : outcome float :=
  match n with
  | PyFloat f => Return f
  | PyComplex _ => Raise TypeError
  | PyInt z =>
      if is_inf (of_Z z) then Raise OverflowError else Return (of_Z z)
  | PyBool b => Return (of_Z (if b then 1 else 0))
  end.

(** [TO_COMPLEX] of [complexobject.c]. *)
Definition to_complex (n : Number) : outcome complex :=
  match n with
  | PyComplex c => Return c
  | _ =>
      match to_double n with
      | Return f => Return (Complex f zero)
      | Raise e => Raise e
      end
  end.

(** The shape of every binary operation on numbers: both operands
    integers, or one of them complex, or else both taken as doubles
    (the left operand is converted first). *)
Definition dispatch
    (on_int : Z -> Z -> outcome Number)
    (on_float : float -> float -> outcome Number)
    (on_complex : Number -> Number -> outcome Number)
    (a b : Number) : outcome Number :=
  match as_int a, as_int b with
  | Some x, Some y => on_int x y
  | _, _ =>
      if is_complex a || is_complex b then on_complex a b
      else
        match to_double a with
        | Raise e => Raise e
        | Return x =>
            match to_double b with
            | Raise e => Raise e
            | Return y => on_float x y
            end
        end
  end.

(** An operation of [complexobject.c]: both operands are converted, then
    [extra] (the zero test of [complex_div]) may raise, then the platform
    computes. *)
Definition complex_op (o : operator) (extra : complex -> option exception)
    (a b : Number) : outcome Number :=
  match to_complex a with
  | Raise e => Raise e
  | Return x =>
      match to_complex b with
      | Raise e => Raise e
      | Return y =>
          match extra y with
          | Some e => Raise e
          | None =>
              match complex_arith o x y with
              | Return c => Return (PyComplex c)
              | Raise e => Raise e
              end
          end
      end
  end.

Definition no_check (y : complex) : option exception := None.

Definition zero_divisor (y : complex) : option exception :=
  if Float.eqb (real y) zero && Float.eqb (imag y) zero
  then Some ZeroDivisionError else None.

Definition add : Number -> Number -> outcome Number :=
  dispatch (fun x y => Return (PyInt (x + y)))
           (fun x y => Return (PyFloat (Float.add x y)))
           (complex_op Add no_check).

Definition sub : Number -> Number -> outcome Number :=
  dispatch (fun x y => Return (PyInt (x - y)))
           (fun x y => Return (PyFloat (Float.sub x y)))
           (complex_op Sub no_check).

Definition mul : Number -> Number -> outcome Number :=
  dispatch (fun x y => Return (PyInt (x * y)))
           (fun x y => Return (PyFloat (Float.mul x y)))
           (complex_op Mult no_check).

(** [long_true_divide], [float_div], [complex_div]. *)
Definition truediv : Number -> Number -> outcome Number :=
  dispatch
    (fun x y =>
       if y =? 0 then Raise ZeroDivisionError
       else if is_inf (div_Z x y) then Raise OverflowError
       else Return (PyFloat (div_Z x y)))
    (fun x y =>
       if Float.eqb y zero then Raise ZeroDivisionError
       else Return (PyFloat (Float.div x y)))
    (complex_op Div zero_divisor).

(** [l_divmod] of [longobject.c]: the quotient and remainder truncated
    towards zero, then moved to the floor when the remainder and the
    divisor differ in sign. *)
Definition l_divmod (v w : Z) : Z * Z :=
  let div := Z.quot v w in
  let mod_ := Z.rem v w in
  if ((mod_ <? 0) && (0 <? w)) || ((0 <? mod_) && (w <? 0))
  then (div - 1, mod_ + w)
  else (div, mod_).

(** [_float_div_mod] of [floatobject.c], for [wx <> 0]. *)
Definition float_div_mod (vx wx : float) : float * float :=
  let mod_ := fmod vx wx in
  let div := Float.div (Float.sub vx mod_) wx in
  let '(div, mod_) :=
    if negb (Float.eqb mod_ zero) then
      if negb (Bool.eqb (Float.ltb wx zero) (Float.ltb mod_ zero))
      then (Float.sub div one, Float.add mod_ wx)
      else (div, mod_)
    else (div, zero_like wx) in
  let floordiv :=
    if negb (Float.eqb div zero) then
      let fl := floor div in
      if Float.ltb half (Float.sub div fl) then Float.add fl one else fl
    else zero_like (Float.div vx wx) in
  (floordiv, mod_).

(** [float_rem] of [floatobject.c], for [wx <> 0]. *)
Definition float_rem (vx wx : float) : float :=
  let mod_ := fmod vx wx in
  if negb (Float.eqb mod_ zero) then
    if negb (Bool.eqb (Float.ltb wx zero) (Float.ltb mod_ zero))
    then Float.add mod_ wx
    else mod_
  else zero_like wx.

Definition floordiv : Number -> Number -> outcome Number :=
  dispatch
    (fun x y =>
       if y =? 0 then Raise ZeroDivisionError
       else Return (PyInt (fst (l_divmod x y))))
    (fun x y =>
       if Float.eqb y zero then Raise ZeroDivisionError
       else Return (PyFloat (fst (float_div_mod x y))))
    (fun _ _ => Raise TypeError).

Definition mod_ : Number -> Number -> outcome Number :=
  dispatch
    (fun x y =>
       if y =? 0 then Raise ZeroDivisionError
       else Return (PyInt (snd (l_divmod x y))))
    (fun x y =>
       if Float.eqb y zero then Raise ZeroDivisionError
       else Return (PyFloat (float_rem x y)))
    (fun _ _ => Raise TypeError).

(** [float_pow] of [floatobject.c]. *)
Definition float_pow (iv iw : float) : outcome Number :=
  if Float.eqb iw zero then Return (PyFloat one)
  else if is_nan iv then Return (PyFloat iv)
  else if is_nan iw then
    Return (PyFloat (if Float.eqb iv one then one else iw))
  else if is_inf iw then
    let av := fabs iv in
    if Float.eqb av one then Return (PyFloat one)
    else if Bool.eqb (Float.ltb zero iw) (Float.ltb one av)
    then Return (PyFloat (fabs iw))
    else Return (PyFloat zero)
  else if is_inf iv then
    let odd := is_odd_integer iw in
    if Float.ltb zero iw
    then Return (PyFloat (if odd then iv else fabs iv))
    else Return (PyFloat (if odd then zero_like iv else zero))
  else if Float.eqb iv zero then
    if Float.ltb iw zero then Raise ZeroDivisionError
    else Return (PyFloat (if is_odd_integer iw then iv else zero))
  else if Float.ltb iv zero && negb (Float.eqb iw (floor iw)) then
    complex_op Pow no_check (PyFloat iv) (PyFloat iw)
  else
    let negate_result := Float.ltb iv zero && is_odd_integer iw in
    let iv := if Float.ltb iv zero then Float.neg iv else iv in
    if Float.eqb iv one
    then Return (PyFloat (if negate_result then Float.neg one else one))
    else
      let '(ix, err) := libm_pow iv iw in
      let err :=
        match err with
        | ENONE => if is_inf ix then ERANGE else ENONE
        | ERANGE => if Float.eqb ix zero then ENONE else ERANGE
        | EDOM => EDOM
        end in
      match err with
      | ENONE => Return (PyFloat (if negate_result then Float.neg ix else ix))
      | ERANGE => Raise OverflowError
      | EDOM => Raise ValueError
      end.

(** [long_pow] (a negative exponent goes to [float_pow]), [float_pow],
    [complex_pow]. *)
Definition pow (a b : Number) : outcome Number :=
  dispatch
    (fun x y =>
       if y <? 0 then
         match to_double a with
         | Raise e => Raise e
         | Return iv =>
             match to_double b with
             | Raise e => Raise e
             | Return iw => float_pow iv iw
             end
         end
       else Return (PyInt (x ^ y)))
    float_pow
    (complex_op Pow no_check)
    a b.

Definition neg (a : Number) : outcome Number :=
  match a with
  | PyInt z => Return (PyInt (- z))
  | PyBool b => Return (PyInt (- (if b then 1 else 0)))
  | PyFloat f => Return (PyFloat (Float.neg f))
  | PyComplex c => Return (PyComplex (Complex (Float.neg (real c)) (Float.neg (imag c))))
  end.

End WithPlatform.
End Operator.

(** ** Computations: a store and exceptions *)

(** A Python computation over a store [S]: it returns or raises, and
    leaves a store. *)
Definition M (S A : Type) : Type := S -> outcome A * S.

Definition ret {S A} (a : A) : M S A := fun s => (Return a, s).

Definition raise {S A} (e : exception) : M S A := fun s => (Raise e, s).

Definition bind {S A B} (m : M S A) (k : A -> M S B) : M S B :=
  fun s =>
    match m s with
    | (Return a, s') => k a s'
    | (Raise e, s') => (Raise e, s')
    end.

(** Reading a component of the store. *)
Definition read {S A} (f : S -> A) : M S A := fun s => (Return (f s), s).

(** Overwriting the store. *)
Definition write {S} (s' : S) : M S unit := fun _ => (Return tt, s').

(** A call of a function of the runtime, which touches no store. *)
Definition call {S A} (r : outcome A) : M S A := fun s => (r, s).

(** [try: m except ...: handler]: [handler e] is [None] when no [except]
    clause matches [e]. *)
Definition try_except {S A} (m : M S A)
    (handler : exception -> option (M S A)) : M S A :=
  fun s =>
    match m s with
    | (Return a, s') => (Return a, s')
    | (Raise e, s') =>
        match handler e with
        | Some h => h s'
        | None => (Raise e, s')
        end
    end.

Notation "x <- m ;; k" := (bind m (fun x => k))
  (at level 100, m at next level, right associativity).

(** ** The evaluator of [app.py] *)

Section Evaluator.

Context {platform : Platform}.

(** The module-level names the evaluator reads. *)
Record Globals := {
  _ALLOWED_OPERATORS : gmap operator (Number -> Number -> outcome Number);
  _ALLOWED_UNARY_OPERATORS : gmap unaryop (Number -> outcome Number)
}.

(** The globals as the module body leaves them. *)
Definition module_globals : Globals := {|
  _ALLOWED_OPERATORS :=
    <[Add := Operator.add]> (
    <[Sub := Operator.sub]> (
    <[Mult := Operator.mul]> (
    <[Div := Operator.truediv]> (
    <[Pow := Operator.pow]> (
    <[FloorDiv := Operator.floordiv]> (
    <[Mod := Operator.mod_]> ∅))))));
  _ALLOWED_UNARY_OPERATORS :=
    <[UAdd := fun a => Return a]> (
    <[USub := Operator.neg]> ∅)
|}.

(** [isinstance(value, (int, float))], with the number when it holds. *)
Definition int_or_float (value : constant) : option Number :=
  match value with
  | CInt z => Some (PyInt z)
  | CBool b => Some (PyBool b)
  | CFloat f => Some (PyFloat f)
  | CImag _ | CStr _ | CBytes _ | CNone | CEllipsis => None
  end.

Fixpoint _evaluate_ast (node : AST) : M Globals Number :=
  match node with
  | Expression body => _evaluate_ast body
  | Constant value =>
      match int_or_float value with
      | Some n => ret n
      | None => raise (EvaluationError "Unsupported constant" None)
      end
  | UnaryOp op node_operand =>
      allowed <- read _ALLOWED_UNARY_OPERATORS ;;
      if decide (is_Some (allowed !! op)) then
        operand <- _evaluate_ast node_operand ;;
        table <- read _ALLOWED_UNARY_OPERATORS ;;
        match table !! op with
        | Some f => call (f operand)
        | None => raise KeyError
        end
      else raise (EvaluationError "Unsupported expression" None)
  | BinOp node_left op node_right =>
      allowed <- read _ALLOWED_OPERATORS ;;
      if decide (is_Some (allowed !! op)) then
        lhs <- _evaluate_ast node_left ;;
        rhs <- _evaluate_ast node_right ;;
        try_except
          (table <- read _ALLOWED_OPERATORS ;;
           match table !! op with
           | Some f => call (f lhs rhs)
           | None => raise KeyError
           end)
          (fun exc =>
             match exc with
             | ZeroDivisionError =>
                 Some (raise (EvaluationError "Division by zero" (Some exc)))
             | _ => None
             end)
      else raise (EvaluationError "Unsupported expression" None)
  | _ => raise (EvaluationError "Unsupported expression" None)
  end.

End Evaluator.

(** ** [ast.parse(text, mode="eval")] on a fragment of the syntax

    The model reads texts of at most [max_text_length] characters over the
    alphabet of [in_alphabet] and follows the lexical rules and the
    expression grammar of the language reference for the tokens of
    [token].  The bound on the length keeps the limits of the interpreter
    (nested parentheses, digits of a literal, recursion depth) out of
    reach.  On such a text it answers with the tree, or with
    [SyntaxError] when the text is rejected; on every other text
    (other characters, a longer text, keywords outside the fragment, string
    prefixes, underscores or radix prefixes in numbers, augmented
    assignment) it answers [NotModelled]. *)

Module Parser.

Local Open Scope char_scope.
Local Open Scope N_scope.

Definition code (c : ascii) : N := N_of_ascii c.

Definition is_digit (c : ascii) : bool :=
  (48 <=? code c) && (code c <=? 57).

Definition is_letter (c : ascii) : bool :=
  ((65 <=? code c) && (code c <=? 90)) || ((97 <=? code c) && (code c <=? 122)).

Definition is_name_start (c : ascii) : bool := is_letter c || Ascii.eqb c "_".

Definition is_name_char (c : ascii) : bool := is_name_start c || is_digit c.

Definition double_quote : ascii := ascii_of_N 34.

Definition is_quote (c : ascii) : bool := Ascii.eqb c "'" || Ascii.eqb c double_quote.

Definition is_operator_char (c : ascii) : bool :=
  existsb (Ascii.eqb c)
    ["+"; "-"; "*"; "/"; "%"; "("; ")"; "<"; ">"; "="; "!"; "&"; "|"; "^"; "~"; "."].

Definition in_alphabet (c : ascii) : bool :=
  Ascii.eqb c " " || is_name_char c || is_quote c || is_operator_char c.

Definition max_text_length : nat := 100.

Inductive token :=
| NUMBER (value : constant)
| NAME (id : string)
| STRING (s : string)
| KW_True | KW_False | KW_None | KW_and | KW_or | KW_not
| PLUS | MINUS | STAR | DOUBLESTAR | SLASH | DOUBLESLASH | PERCENT
| LPAR | RPAR
| LESS | GREATER | EQEQUAL | NOTEQUAL | LESSEQUAL | GREATEREQUAL
| VBAR | CIRCUMFLEX | AMPER | LEFTSHIFT | RIGHTSHIFT | TILDE
| DOT | ELLIPSIS.

(** The longest prefix of characters satisfying [p], and the rest. *)
Fixpoint span (p : ascii -> bool) (cs : list ascii) : list ascii * list ascii :=
  match cs with
  | c :: cs' =>
      if p c then let '(xs, rest) := span p cs' in (c :: xs, rest)
      else ([], cs)
  | [] => ([], [])
  end.

Definition digits_value (ds : list ascii) : Z :=
  fold_left (fun acc d => (10 * acc + Z.of_N (code d - 48))%Z) ds 0%Z.

Definition starts_with (p : ascii -> bool) (cs : list ascii) : bool :=
  match cs with c :: _ => p c | [] => false end.

(** The exponent of a float literal: [e] or [E], an optional sign, and at
    least one digit. *)
Definition lex_exponent (cs : list ascii) : option (Z * list ascii) :=
  match cs with
  | c :: cs1 =>
      if Ascii.eqb c "e" || Ascii.eqb c "E" then
        let '(negative, cs2) :=
          match cs1 with
          | s :: cs2 =>
              if Ascii.eqb s "-" then (true, cs2)
              else if Ascii.eqb s "+" then (false, cs2)
              else (false, cs1)
          | [] => (false, cs1)
          end in
        match span is_digit cs2 with
        | ([], _) => None
        | (ds, rest) =>
            Some (if negative then (- digits_value ds)%Z else digits_value ds, rest)
        end
      else None
  | [] => None
  end.

(** A number: [cs] starts with a digit, or with a point and a digit. *)
Definition lex_number (cs : list ascii) : outcome (token * list ascii) :=
  let '(int_part, cs1) := span is_digit cs in
  let '(point, frac_part, cs2) :=
    match cs1 with
    | c :: cs' =>
        if Ascii.eqb c "." then
          let '(ds, rest) := span is_digit cs' in (true, ds, rest)
        else (false, [], cs1)
    | [] => (false, [], cs1)
    end in
  let '(exponent, cs3) :=
    match lex_exponent cs2 with
    | Some (e, rest) => (Some e, rest)
    | None => (None, cs2)
    end in
  let '(imaginary, cs4) :=
    match cs3 with
    | c :: cs' =>
        if Ascii.eqb c "j" || Ascii.eqb c "J" then (true, cs') else (false, cs3)
    | [] => (false, cs3)
    end in
  if starts_with is_name_char cs4 then Raise NotModelled
  else
    let mantissa := digits_value (int_part ++ frac_part) in
    let scale := (match exponent with Some e => e | None => 0 end
                  - Z.of_nat (length frac_part))%Z in
    if imaginary then
      Return (NUMBER (CImag (of_decimal mantissa scale)), cs4)
    else if point || bool_decide (is_Some exponent) then
      Return (NUMBER (CFloat (of_decimal mantissa scale)), cs4)
    else if starts_with (Ascii.eqb "0") int_part && negb (mantissa =? 0)%Z
    then Raise SyntaxError
    else Return (NUMBER (CInt mantissa), cs4).

Definition keywords : list string :=
  ["as"; "assert"; "async"; "await"; "break"; "class"; "continue"; "def";
   "del"; "elif"; "else"; "except"; "finally"; "for"; "from"; "global";
   "if"; "import"; "in"; "is"; "lambda"; "nonlocal"; "pass"; "raise";
   "return"; "try"; "while"; "with"; "yield"]%string.

(** A name or keyword: [cs] starts with a letter or an underscore. *)
Definition lex_name (cs : list ascii) : outcome (token * list ascii) :=
  let '(word, rest) := span is_name_char cs in
  let id := string_of_list_ascii word in
  if starts_with is_quote rest then Raise NotModelled
  else if String.eqb id "True" then Return (KW_True, rest)
  else if String.eqb id "False" then Return (KW_False, rest)
  else if String.eqb id "None" then Return (KW_None, rest)
  else if String.eqb id "and" then Return (KW_and, rest)
  else if String.eqb id "or" then Return (KW_or, rest)
  else if String.eqb id "not" then Return (KW_not, rest)
  else if existsb (String.eqb id) keywords then Raise NotModelled
  else Return (NAME id, rest).

(** A string literal: [cs] starts with the quote [q]. *)
Definition lex_string (q : ascii) (cs : list ascii) : outcome (token * list ascii) :=
  match cs with
  | _ :: c1 :: c2 :: _ =>
      if Ascii.eqb c1 q && Ascii.eqb c2 q then Raise NotModelled
      else
        match span (fun c => negb (Ascii.eqb c q)) (tl cs) with
        | (body, _ :: rest) => Return (STRING (string_of_list_ascii body), rest)
        | (_, []) => Raise SyntaxError
        end
  | _ =>
      match span (fun c => negb (Ascii.eqb c q)) (tl cs) with
      | (body, _ :: rest) => Return (STRING (string_of_list_ascii body), rest)
      | (_, []) => Raise SyntaxError
      end
  end.

(** An operator or delimiter, the longest that matches.  The augmented
    assignment operators, [->], [<>], and a lone [=] or [!] are left out. *)
Definition lex_operator (cs : list ascii) : outcome (token * list ascii) :=
  let augmented (t : token) (rest : list ascii) :=
    if starts_with (Ascii.eqb "=") rest then Raise NotModelled
    else Return (t, rest) in
  match cs with
  | "+" :: rest => augmented PLUS rest
  | "-" :: ">" :: _ => Raise NotModelled
  | "-" :: rest => augmented MINUS rest
  | "*" :: "*" :: rest => augmented DOUBLESTAR rest
  | "*" :: rest => augmented STAR rest
  | "/" :: "/" :: rest => augmented DOUBLESLASH rest
  | "/" :: rest => augmented SLASH rest
  | "%" :: rest => augmented PERCENT rest
  | "&" :: rest => augmented AMPER rest
  | "|" :: rest => augmented VBAR rest
  | "^" :: rest => augmented CIRCUMFLEX rest
  | "~" :: rest => Return (TILDE, rest)
  | "(" :: rest => Return (LPAR, rest)
  | ")" :: rest => Return (RPAR, rest)
  | "<" :: "<" :: rest => augmented LEFTSHIFT rest
  | "<" :: "=" :: rest => Return (LESSEQUAL, rest)
  | "<" :: ">" :: _ => Raise NotModelled
  | "<" :: rest => Return (LESS, rest)
  | ">" :: ">" :: rest => augmented RIGHTSHIFT rest
  | ">" :: "=" :: rest => Return (GREATEREQUAL, rest)
  | ">" :: rest => Return (GREATER, rest)
  | "=" :: "=" :: rest => Return (EQEQUAL, rest)
  | "!" :: "=" :: rest => Return (NOTEQUAL, rest)
  | "." :: "." :: "." :: rest => Return (ELLIPSIS, rest)
  | "." :: rest => Return (DOT, rest)
  | _ => Raise NotModelled
  end.

Definition lex_token (cs : list ascii) : outcome (token * list ascii) :=
  match cs with
  | c :: rest =>
      if is_digit c || (Ascii.eqb c "." && starts_with is_digit rest)
      then lex_number cs
      else if is_name_start c then lex_name cs
      else if is_quote c then lex_string c cs
      else lex_operator cs
  | [] => Raise SyntaxError
  end.

Fixpoint tokenize (fuel : nat) (cs : list ascii) : outcome (list token) :=
  match fuel with
  | O => Raise NotModelled
  | S fuel =>
      match cs with
      | [] => Return []
      | c :: rest =>
          if Ascii.eqb c " " then tokenize fuel rest
          else
            match lex_token cs with
            | Raise e => Raise e
            | Return (t, rest) =>
                match tokenize fuel rest with
                | Raise e => Raise e
                | Return ts => Return (t :: ts)
                end
            end
      end
  end.

(** *** The grammar

    One function per rule of the expression grammar; [fuel] bounds the
    depth of the descent. *)

Definition parsed : Type := outcome (AST * list token).

(** The binary operators of one precedence level, loosest first:
    [|], [^], [&], shifts, sums, terms. *)
Definition binary_operator (level : nat) (t : token) : option operator :=
  match level, t with
  | 0%nat, VBAR => Some BitOr
  | 1%nat, CIRCUMFLEX => Some BitXor
  | 2%nat, AMPER => Some BitAnd
  | 3%nat, LEFTSHIFT => Some LShift
  | 3%nat, RIGHTSHIFT => Some RShift
  | 4%nat, PLUS => Some Add
  | 4%nat, MINUS => Some Sub
  | 5%nat, STAR => Some Mult
  | 5%nat, SLASH => Some Div
  | 5%nat, DOUBLESLASH => Some FloorDiv
  | 5%nat, PERCENT => Some Mod
  | _, _ => None
  end.

Definition comparison_operator (t : token) : option cmpop :=
  match t with
  | LESS => Some Lt_
  | GREATER => Some Gt_
  | EQEQUAL => Some Eq_
  | NOTEQUAL => Some NotEq
  | LESSEQUAL => Some LtE
  | GREATEREQUAL => Some GtE
  | _ => None
  end.

(** [operand (op operand)*], left associative. *)
Fixpoint binary_tail (operand : list token -> parsed) (level : nat)
    (n : nat) (lhs : AST) (ts : list token) : parsed :=
  match n, ts with
  | S n, t :: ts' =>
      match binary_operator level t with
      | Some o =>
          match operand ts' with
          | Return (rhs, rest) => binary_tail operand level n (BinOp lhs o rhs) rest
          | Raise e => Raise e
          end
      | None => Return (lhs, ts)
      end
  | _, _ => Return (lhs, ts)
  end.

(** [(sep operand)*]: the operands after the first of an [and]/[or]. *)
Fixpoint boolean_tail (operand : list token -> parsed) (sep : token -> bool)
    (n : nat) (ts : list token) : outcome (list AST * list token) :=
  match n, ts with
  | S n, t :: ts' =>
      if sep t then
        match operand ts' with
        | Return (v, rest) =>
            match boolean_tail operand sep n rest with
            | Return (vs, rest') => Return (v :: vs, rest')
            | Raise e => Raise e
            end
        | Raise e => Raise e
        end
      else Return ([], ts)
  | _, _ => Return ([], ts)
  end.

(** [(cmpop operand)*]. *)
Fixpoint comparison_tail (operand : list token -> parsed)
    (n : nat) (ts : list token) : outcome (list cmpop * list AST * list token) :=
  match n, ts with
  | S n, t :: ts' =>
      match comparison_operator t with
      | Some o =>
          match operand ts' with
          | Return (v, rest) =>
              match comparison_tail operand n rest with
              | Return (os, vs, rest') => Return (o :: os, v :: vs, rest')
              | Raise e => Raise e
              end
          | Raise e => Raise e
          end
      | None => Return ([], [], ts)
      end
  | _, _ => Return ([], [], ts)
  end.

(** The trailers of a primary: calls with at most one argument and
    attribute references. *)
Fixpoint trailers (expression : list token -> parsed)
    (n : nat) (f : AST) (ts : list token) : parsed :=
  match n, ts with
  | S n, LPAR :: RPAR :: rest => trailers expression n (Call f [] []) rest
  | S n, LPAR :: STAR :: ts' =>
      match expression ts' with
      | Return (a, RPAR :: rest) => trailers expression n (Call f [Starred a] []) rest
      | Return _ => Raise SyntaxError
      | Raise e => Raise e
      end
  | S n, LPAR :: DOUBLESTAR :: ts' =>
      match expression ts' with
      | Return (a, RPAR :: rest) => trailers expression n (Call f [] [(None, a)]) rest
      | Return _ => Raise SyntaxError
      | Raise e => Raise e
      end
  | S n, LPAR :: ts' =>
      match expression ts' with
      | Return (a, RPAR :: rest) => trailers expression n (Call f [a] []) rest
      | Return _ => Raise SyntaxError
      | Raise e => Raise e
      end
  | S n, DOT :: NAME id :: rest => trailers expression n (Attribute f id) rest
  | S n, DOT :: _ => Raise SyntaxError
  | _, _ => Return (f, ts)
  end.

(** Adjacent string literals are one constant. *)
Fixpoint strings (acc : string) (ts : list token) : string * list token :=
  match ts with
  | STRING s :: rest => strings (acc ++ s) rest
  | _ => (acc, ts)
  end.

Inductive rule :=
| disjunction | conjunction | inversion | comparison
| binary (level : nat) | factor | power | primary | atom.

Fixpoint parse (fuel : nat) (r : rule) (ts : list token) : parsed :=
  match fuel with
  | O => Raise NotModelled
  | S fuel =>
      match r with
      | disjunction =>
          match parse fuel conjunction ts with
          | Return (v, rest) =>
              match boolean_tail (parse fuel conjunction)
                      (fun t => match t with KW_or => true | _ => false end)
                      (length rest) rest with
              | Return ([], rest') => Return (v, rest')
              | Return (vs, rest') => Return (BoolOp Or (v :: vs), rest')
              | Raise e => Raise e
              end
          | Raise e => Raise e
          end
      | conjunction =>
          match parse fuel inversion ts with
          | Return (v, rest) =>
              match boolean_tail (parse fuel inversion)
                      (fun t => match t with KW_and => true | _ => false end)
                      (length rest) rest with
              | Return ([], rest') => Return (v, rest')
              | Return (vs, rest') => Return (BoolOp And (v :: vs), rest')
              | Raise e => Raise e
              end
          | Raise e => Raise e
          end
      | inversion =>
          match ts with
          | KW_not :: ts' =>
              match parse fuel inversion ts' with
              | Return (v, rest) => Return (UnaryOp Not v, rest)
              | Raise e => Raise e
              end
          | _ => parse fuel comparison ts
          end
      | comparison =>
          match parse fuel (binary 0) ts with
          | Return (v, rest) =>
              match comparison_tail (parse fuel (binary 0)) (length rest) rest with
              | Return ([], _, rest') => Return (v, rest')
              | Return (os, vs, rest') => Return (Compare v os vs, rest')
              | Raise e => Raise e
              end
          | Raise e => Raise e
          end
      | binary level =>
          let operand :=
            if (level <? 5)%nat then parse fuel (binary (S level))
            else parse fuel factor in
          match operand ts with
          | Return (v, rest) => binary_tail operand level (length rest) v rest
          | Raise e => Raise e
          end
      | factor =>
          let unary (o : unaryop) (ts' : list token) :=
            match parse fuel factor ts' with
            | Return (v, rest) => Return (UnaryOp o v, rest)
            | Raise e => Raise e
            end in
          match ts with
          | PLUS :: ts' => unary UAdd ts'
          | MINUS :: ts' => unary USub ts'
          | TILDE :: ts' => unary Invert ts'
          | _ => parse fuel power ts
          end
      | power =>
          match parse fuel primary ts with
          | Return (base, DOUBLESTAR :: ts') =>
              match parse fuel factor ts' with
              | Return (exponent, rest) => Return (BinOp base Pow exponent, rest)
              | Raise e => Raise e
              end
          | other => other
          end
      | primary =>
          match parse fuel atom ts with
          | Return (a, rest) => trailers (parse fuel disjunction) (length rest) a rest
          | Raise e => Raise e
          end
      | atom =>
          match ts with
          | NAME id :: rest => Return (Name id, rest)
          | KW_True :: rest => Return (Constant (CBool true), rest)
          | KW_False :: rest => Return (Constant (CBool false), rest)
          | KW_None :: rest => Return (Constant CNone, rest)
          | NUMBER value :: rest => Return (Constant value, rest)
          | STRING s :: rest =>
              let '(whole, rest') := strings s rest in
              Return (Constant (CStr whole), rest')
          | ELLIPSIS :: rest => Return (Constant CEllipsis, rest)
          | LPAR :: RPAR :: rest => Return (Tuple [], rest)
          | LPAR :: ts' =>
              match parse fuel disjunction ts' with
              | Return (v, RPAR :: rest) => Return (v, rest)
              | Return _ => Raise SyntaxError
              | Raise e => Raise e
              end
          | _ => Raise SyntaxError
          end
      end
  end.

(** The whole text: within bounds and alphabet, not indented, tokens,
    and one expression using all of them. *)
Definition parse_eval (source : string) : outcome AST :=
  let cs := list_ascii_of_string source in
  if (max_text_length <? length cs)%nat || negb (forallb in_alphabet cs)
  then Raise NotModelled
  else if starts_with (Ascii.eqb " ") cs then Raise SyntaxError
  else
    match tokenize (S (length cs)) cs with
    | Raise e => Raise e
    | Return ts =>
        match parse (20 * S (length ts)) disjunction ts with
        | Return (body, []) => Return (Expression body)
        | Return (_, _ :: _) => Raise SyntaxError
        | Raise e => Raise e
        end
    end.

End Parser.

(** [ast.parse(source, mode="eval")]. *)
Definition ast_parse (source : string) : outcome AST := Parser.parse_eval source.

(** ** [safe_eval] and [CalculatorState] *)

Section SafeEval.

Context {platform : Platform}.

Definition safe_eval (expression : string) : M Globals Number :=
  try_except
    (parsed <- call (ast_parse expression) ;;
     _evaluate_ast parsed)
    (fun exc =>
       match exc with
       | SyntaxError | EvaluationError _ _ =>
           Some (raise (EvaluationError "Invalid expression" (Some exc)))
       | _ => None
       end).

(** What a computation returns or raises when it starts in the globals
    of the freshly loaded module. *)
Definition run {A} (m : M Globals A) : outcome A := fst (m module_globals).

End SafeEval.

Record CalculatorState := {
  expression : string;
  result : string;
  error : string
}.

(** [CalculatorState()]: the defaults of the dataclass fields. *)
Definition CalculatorState_new : CalculatorState :=
  {| expression := ""; result := "0"; error := "" |}.

(** The methods mutate [self]: they are computations over the object as
    store.  An assignment to one attribute leaves the other two. *)
Definition set_expression (v : string) : M CalculatorState unit :=
  fun self => (Return tt, {| expression := v; result := result self; error := error self |}).

Definition set_result (v : string) : M CalculatorState unit :=
  fun self => (Return tt, {| expression := expression self; result := v; error := error self |}).

Definition set_error (v : string) : M CalculatorState unit :=
  fun self => (Return tt, {| expression := expression self; result := result self; error := v |}).

(** [text[:-1]]: the text without its last character. *)
Fixpoint drop_last (text : string) : string :=
  match text with
  | EmptyString => EmptyString
  | String c EmptyString => EmptyString
  | String c rest => String c (drop_last rest)
  end.

Definition append (value : string) : M CalculatorState unit :=
  text <- read expression ;;
  set_expression (text ++ value).

Definition clear : M CalculatorState unit :=
  _ <- set_expression "" ;;
  _ <- set_result "0" ;;
  set_error "".

Definition backspace : M CalculatorState unit :=
  text <- read expression ;;
  if negb (String.eqb text "") then set_expression (drop_last text)
  else ret tt.

(** * Vocabulary of the statements *)

(** A platform for closed examples: its C library reports a domain error
    on every [pow] and an overflow on every complex operation.  The
    theorems below hold on every platform; the examples that name this one
    never reach its functions. *)
Definition bare_platform : Platform := {|
  libm_pow := fun _ _ => (nan, EDOM);
  complex_arith := fun _ _ _ => Raise OverflowError
|}.

(** ** The tables and the whitelist *)

Section Tables.

Context {platform : Platform}.

(** The contents of [_ALLOWED_OPERATORS] as the module body leaves it. *)
Definition allowed_operator (op : operator)
    : option (Number -> Number -> outcome Number) :=
  match op with
  | Add => Some Operator.add
  | Sub => Some Operator.sub
  | Mult => Some Operator.mul
  | Div => Some Operator.truediv
  | Pow => Some Operator.pow
  | FloorDiv => Some Operator.floordiv
  | Mod => Some Operator.mod_
  | MatMult | LShift | RShift | BitOr | BitXor | BitAnd => None
  end.

Definition allowed_unary_operator (op : unaryop)
    : option (Number -> outcome Number) :=
  match op with
  | UAdd => Some (fun a => Return a)
  | USub => Some Operator.neg
  | Invert | Not => None
  end.

(** The trees made of [Expression], numeric constants and the operators of
    the two tables only. *)
Fixpoint whitelisted (node : AST) : bool :=
  match node with
  | Expression body => whitelisted body
  | Constant value => bool_decide (is_Some (int_or_float value))
  | UnaryOp op operand =>
      bool_decide (is_Some (allowed_unary_operator op)) && whitelisted operand
  | BinOp l op r =>
      bool_decide (is_Some (allowed_operator op)) && whitelisted l && whitelisted r
  | _ => false
  end.

End Tables.

(** The [except ZeroDivisionError] clause around the operator call. *)
Definition guarded (r : outcome Number) : outcome Number :=
  match r with
  | Raise ZeroDivisionError =>
      Raise (EvaluationError "Division by zero" (Some ZeroDivisionError))
  | _ => r
  end.

(** [safe_eval] after the parse. *)
Definition wrapped (r : outcome Number) : outcome Number :=
  match r with
  | Raise (SyntaxError as exc) | Raise (EvaluationError _ _ as exc) =>
      Raise (EvaluationError "Invalid expression" (Some exc))
  | _ => r
  end.

(** The functions of the tables raise no [EvaluationError], as long as
    the platform's complex arithmetic raises none. *)
Definition builtin (e : exception) : Prop := is_EvaluationError e = false.

(** [child c t]: [c] is an immediate subtree of [t]. *)
Inductive child (c : AST) : AST -> Prop :=
| child_Expression : child c (Expression c)
| child_UnaryOp op : child c (UnaryOp op c)
| child_BinOp_left op r : child c (BinOp c op r)
| child_BinOp_right l op : child c (BinOp l op c)
| child_BoolOp op vs : In c vs -> child c (BoolOp op vs)
| child_Compare_left ops vs : child c (Compare c ops vs)
| child_Compare_comparator l ops vs : In c vs -> child c (Compare l ops vs)
| child_Call_func args kws : child c (Call c args kws)
| child_Call_arg f args kws : In c args -> child c (Call f args kws)
| child_Call_keyword f args kws k : In (k, c) kws -> child c (Call f args kws)
| child_Attribute attr : child c (Attribute c attr)
| child_Subscript_value i : child c (Subscript c i)
| child_Subscript_slice v : child c (Subscript v c)
| child_Starred : child c (Starred c)
| child_IfExp_test b o : child c (IfExp c b o)
| child_IfExp_body t o : child c (IfExp t c o)
| child_IfExp_orelse t b : child c (IfExp t b c)
| child_Lambda ps : child c (Lambda ps c)
| child_NamedExpr_target v : child c (NamedExpr c v)
| child_NamedExpr_value t : child c (NamedExpr t c)
| child_Tuple es : In c es -> child c (Tuple es)
| child_List es : In c es -> child c (List_ es)
| child_Set es : In c es -> child c (Set_ es)
| child_Dict_key ks vs : In c ks -> child c (Dict ks vs)
| child_Dict_value ks vs : In c vs -> child c (Dict ks vs).

(** [occurs s t]: the node [s] occurs somewhere in the tree [t]. *)
Inductive occurs (s : AST) : AST -> Prop :=
| occurs_here : occurs s s
| occurs_below c t : child c t -> occurs s c -> occurs s t.

(** The node kinds of an identifier reference, a call, a string literal,
    a comparison, a boolean operator and a bitwise operator. *)
Definition named_disallowed (node : AST) : bool :=
  match node with
  | Name _ | Call _ _ _ | Compare _ _ _ | BoolOp _ _ => true
  | Constant (CStr _) => true
  | UnaryOp (Not | Invert) _ => true
  | BinOp _ (LShift | RShift | BitOr | BitXor | BitAnd) _ => true
  | _ => false
  end.

(** The zero divisors that are no complex numbers: [0], [False], [0.0]
    and [-0.0]. *)
Definition is_real_zero (b : Number) : bool :=
  match b with
  | PyInt z => z =? 0
  | PyBool b => negb b
  | PyFloat f => Float.eqb f zero
  | PyComplex _ => false
  end.

Definition division (op : operator) : bool :=
  match op with Div | FloorDiv | Mod => true | _ => false end.

(** What [safe_eval] raises for a rejected construct, and for a division
    by zero. *)
Definition unsupported_expression : exception :=
  EvaluationError "Invalid expression"
    (Some (EvaluationError "Unsupported expression" None)).

Definition unsupported_constant : exception :=
  EvaluationError "Invalid expression"
    (Some (EvaluationError "Unsupported constant" None)).

Definition division_by_zero : exception :=
  EvaluationError "Invalid expression"
    (Some (EvaluationError "Division by zero" (Some ZeroDivisionError))).

(** The mathematical value of an expression over integer literals, [+],
    [-], [*], [//], [%], [**] and unary [+] and [-], as the specification
    words it: [//] is the floor of the quotient, [%] the remainder left by
    that floor, [**] exponentiation.  No value when a divisor is zero or an
    exponent negative, and none for other nodes. *)
Fixpoint integer_value (node : AST) : option Z :=
  match node with
  | Expression body => integer_value body
  | Constant (CInt z) => Some z
  | UnaryOp UAdd operand => integer_value operand
  | UnaryOp USub operand =>
      match integer_value operand with
      | Some a => Some (- a)
      | None => None
      end
  | BinOp l op r =>
      match integer_value l, integer_value r with
      | Some a, Some b =>
          match op with
          | Add => Some (a + b)
          | Sub => Some (a - b)
          | Mult => Some (a * b)
          | FloorDiv => if b =? 0 then None else Some (a / b)
          | Mod => if b =? 0 then None else Some (a - b * (a / b))
          | Pow => if b <? 0 then None else Some (a ^ b)
          | _ => None
          end
      | _, _ => None
      end
  | _ => None
  end.

(** ** Arithmetic expressions written out

    The rules of the grammar by rank, the tokens of an arithmetic
    expression with parentheses where the rule that reads an operand
    needs them, and the text of those tokens. *)

Module Unparse.

Import Parser.

Local Open Scope nat_scope.

(** The rules of the grammar, from the tightest to the loosest. *)
Definition rule_at (k : nat) : rule :=
  match k with
  | 0 => atom | 1 => primary | 2 => power | 3 => factor
  | 4 => binary 5 | 5 => binary 4 | 6 => binary 3 | 7 => binary 2
  | 8 => binary 1 | 9 => binary 0
  | 10 => comparison | 11 => inversion | 12 => conjunction
  | _ => disjunction
  end.

(** The rule at which a token continues an expression already read. *)
Definition continuation (t : token) : option nat :=
  match t with
  | LPAR | DOT => Some 1
  | DOUBLESTAR => Some 2
  | STAR | SLASH | DOUBLESLASH | PERCENT => Some 4
  | PLUS | MINUS => Some 5
  | LEFTSHIFT | RIGHTSHIFT => Some 6
  | AMPER => Some 7
  | CIRCUMFLEX => Some 8
  | VBAR => Some 9
  | LESS | GREATER | EQEQUAL | NOTEQUAL | LESSEQUAL | GREATEREQUAL => Some 10
  | KW_and => Some 12
  | KW_or => Some 13
  | _ => None
  end.

(** [follows k rest]: no rule up to [k] goes on reading at [rest]. *)
Definition follows (k : nat) (rest : list token) : Prop :=
  match rest with
  | [] => True
  | t :: _ => match continuation t with Some r => k < r | None => True end
  end.

(** A first token that opens no prefix operator of [factor] or [inversion]. *)
Definition plain (ts : list token) : Prop :=
  match ts with
  | (NUMBER _ | LPAR) :: _ => True
  | _ => False
  end.

Definition opening (ts : list token) : Prop :=
  match ts with
  | (NUMBER _ | LPAR | PLUS | MINUS) :: _ => True
  | _ => False
  end.

Definition arithmetic_operator (op : operator) : bool :=
  match op with
  | Add | Sub | Mult | Div | FloorDiv | Mod | Pow => true
  | _ => false
  end.

Definition sign (op : unaryop) : bool :=
  match op with UAdd | USub => true | _ => false end.

(** Trees of integer literals, the seven binary operators and the two
    signs. *)
Fixpoint arithmetic (e : AST) : bool :=
  match e with
  | Constant (CInt z) => (0 <=? z)%Z
  | UnaryOp op x => sign op && arithmetic x
  | BinOp l op r => arithmetic_operator op && arithmetic l && arithmetic r
  | _ => false
  end.

(** The rule that reads an expression of this shape without parentheses. *)
Definition operator_rank (op : operator) : nat :=
  match op with Pow => 2 | Add | Sub => 5 | _ => 4 end.

Definition rank_of (e : AST) : nat :=
  match e with
  | UnaryOp _ _ => 3
  | BinOp _ op _ => operator_rank op
  | _ => 0
  end.

(** The rules of the two operands: [**] takes a primary on its left and a
    factor on its right, the others group to the left. *)
Definition left_rank (op : operator) : nat :=
  match op with Pow => 1 | _ => operator_rank op end.

Definition right_rank (op : operator) : nat :=
  match op with Pow => 3 | _ => operator_rank op - 1 end.

Definition operator_token (op : operator) : token :=
  match op with
  | Add => PLUS | Sub => MINUS | Mult => STAR | Div => SLASH
  | FloorDiv => DOUBLESLASH | Mod => PERCENT | _ => DOUBLESTAR
  end.

Definition unary_token (op : unaryop) : token :=
  match op with USub => MINUS | _ => PLUS end.

(** Parentheses around [body], the tokens of [e], where the rule [k]
    cannot read [e] bare. *)
Definition wrap (k : nat) (e : AST) (body : list token) : list token :=
  if k <? rank_of e then LPAR :: body ++ [RPAR] else body.

Fixpoint tokens_of (e : AST) : list token :=
  match e with
  | Constant c => [NUMBER c]
  | UnaryOp op x => unary_token op :: wrap 3 x (tokens_of x)
  | BinOp l op r =>
      wrap (left_rank op) l (tokens_of l)
        ++ operator_token op :: wrap (right_rank op) r (tokens_of r)
  | _ => []
  end.

Fixpoint depth (e : AST) : nat :=
  match e with
  | UnaryOp _ x => S (depth x)
  | BinOp l _ r => S (Nat.max (depth l) (depth r))
  | _ => 0
  end.

(** Fuel that is enough for rule [k] on [e]. *)
Definition need (k : nat) (e : AST) : nat :=
  k + 1 + 20 * depth e + (if k <? rank_of e then 14 else 0).

(** [reads e]: every rule reads the tokens of [e], in parentheses where
    the rule needs them, gives [e] and stops behind them. *)
Definition reads (e : AST) : Prop :=
  forall k f rest, k <= 13 -> follows k rest -> need k e <= f ->
  parse f (rule_at k) (wrap k e (tokens_of e) ++ rest) = Return (e, rest).

(** [loops e]: the rules of sums and terms, having read [e], are in their
    loop with [e] as the left operand. *)
Definition loops (e : AST) : Prop :=
  forall k f rest, k = 4 \/ k = 5 -> follows (k - 1) rest -> need k e <= S f ->
  exists n, length rest <= n /\
    parse (S f) (rule_at k) (wrap k e (tokens_of e) ++ rest)
    = binary_tail (parse f (rule_at (k - 1))) (9 - k) n e rest.

Local Open Scope char_scope.
Local Open Scope Z_scope.

Definition digit_char (d : Z) : ascii :=
  match d with
  | 0 => "0" | 1 => "1" | 2 => "2" | 3 => "3" | 4 => "4"
  | 5 => "5" | 6 => "6" | 7 => "7" | 8 => "8" | _ => "9"
  end.

(** The decimal digits of [n] in front of [acc]. *)
Fixpoint decimal_digits (fuel : nat) (n : Z) (acc : list ascii) : list ascii :=
  match fuel with
  | O => acc
  | S fuel =>
      if n <? 10 then digit_char n :: acc
      else decimal_digits fuel (n / 10) (digit_char (n mod 10) :: acc)
  end.

Definition decimal (n : Z) : list ascii :=
  decimal_digits (S (Z.to_nat (Z.log2 n))) n [].

Definition token_text (t : token) : list ascii :=
  match t with
  | NUMBER (CInt z) => decimal z
  | PLUS => ["+"]
  | MINUS => ["-"]
  | STAR => ["*"]
  | DOUBLESTAR => ["*"; "*"]
  | SLASH => ["/"]
  | DOUBLESLASH => ["/"; "/"]
  | PERCENT => ["%"]
  | LPAR => ["("]
  | RPAR => [")"]
  | _ => []
  end.

(** The tokens with one space between neighbours. *)
Fixpoint text_of (ts : list token) : list ascii :=
  match ts with
  | [] => []
  | [t] => token_text t
  | t :: ts' => token_text t ++ " " :: text_of ts'
  end.

(** An arithmetic expression written out, with parentheses where the
    grammar needs them and nowhere else. *)
Definition unparse (e : AST) : string :=
  string_of_list_ascii (text_of (tokens_of e)).

(** The tokens that [tokens_of] produces. *)
Definition lexable (t : token) : Prop :=
  match t with
  | NUMBER (CInt z) => 0 <= z
  | PLUS | MINUS | STAR | DOUBLESTAR | SLASH | DOUBLESLASH | PERCENT
  | LPAR | RPAR => True
  | _ => False
  end.

Definition step (acc : Z) (d : ascii) : Z := 10 * acc + Z.of_N (code d - 48).

(** What may come behind a token: the end, or a space. *)
Definition spaced (rest : list ascii) : Prop :=
  match rest with [] => True | c :: _ => c = " " end.

End Unparse.

(** * The application

    What the rest of [app.py] does with the evaluator: [CalculatorApp]
    keeps a [CalculatorState] and two [tk.StringVar]s, and its buttons
    call [append], [clear], [backspace] and [calculate].  [calculate]
    writes the value with the built-in [str], which is modelled first;
    integers are written with [Unparse.decimal]. *)

(** ** The built-in [str] on numbers *)

Module Str.

Local Open Scope char_scope.
Local Open Scope Z_scope.

(** [sys.int_info.default_max_str_digits] of CPython 3.11: [str] of an
    [int] with more decimal digits raises [ValueError], as long as the
    limit has not been changed with [sys.set_int_max_str_digits]. *)
Definition int_max_str_digits : Z := 4300.

(** [int.__repr__]. *)
Definition of_int (z : Z) : outcome (list ascii) :=
  if 10 ^ int_max_str_digits <=? Z.abs z then Raise ValueError
  else Return (if z <? 0 then "-" :: Unparse.decimal (- z) else Unparse.decimal z).

(** [bool.__repr__]. *)
Definition of_bool (b : bool) : list ascii :=
  list_ascii_of_string (if b then "True" else "False").

(** The number of decimal digits of a positive integer. *)
Definition width (n : Z) : Z := Z.of_nat (length (Unparse.decimal n)).

(** The decimal exponent [p] of the positive fraction [num / den]:
    [10 ^ p <= num / den < 10 ^ (p + 1)]. *)
Definition decimal_exponent (num den : Z) : Z :=
  if den <=? num then width (num / den) - 1
  else - width ((den - 1) / num).

(** The decimals [d * 10 ^ k] of [n] significant digits on either side of
    the positive double [x = num / den], when one of them reads back as
    [x]: the nearer one to [x] of those that do, the even one on a tie. *)
Definition shortest_at (x : float) (num den p n : Z) : option (Z * Z) :=
  let k := p + 1 - n in
  let a := if 0 <=? k then num else num * 10 ^ (- k) in
  let b := if 0 <=? k then den * 10 ^ k else den in
  let lo := a / b in
  let hi := if a mod b =? 0 then lo else lo + 1 in
  let reads d := Float.eqb (of_decimal d k) x in
  let takes_lo := (2 * (a mod b) <? b) || ((2 * (a mod b) =? b) && Z.even lo) in
  match reads lo, reads hi with
  | true, true => Some (if takes_lo then lo else hi, k)
  | true, false => Some (lo, k)
  | false, true => Some (hi, k)
  | false, false => None
  end.

(** The first of [n], [n + 1], ..., [n + more] digits at which a decimal
    reads back. *)
Fixpoint shortest_from (x : float) (num den p : Z) (n : Z) (more : nat)
    : option (Z * Z) :=
  match shortest_at x num den p n, more with
  | Some r, _ => Some r
  | None, S more => shortest_from x num den p (n + 1) more
  | None, O => None
  end.

(** Trailing zeros go into the exponent. *)
Fixpoint strip_zeros (reversed : list ascii) (k : Z) : list ascii * Z :=
  match reversed with
  | "0" :: rest => strip_zeros rest (k + 1)
  | _ => (rev reversed, k)
  end.

(** [_Py_dg_dtoa(x, 0, ...)] on a finite double: the digits of the
    shortest decimal that reads back as [|x|], without trailing zeros,
    and the position of the decimal point relative to their start.
    Seventeen digits are enough for every double; a zero gives ["0"]. *)
Definition dtoa (x : float) : list ascii * Z :=
  match x with
  | S754_finite _ m e =>
      let num := if 0 <=? e then Zpos m * 2 ^ e else Zpos m in
      let den := if 0 <=? e then 1 else 2 ^ (- e) in
      let p := decimal_exponent num den in
      match shortest_from (fabs x) num den p 1 16 with
      | Some (d, k) =>
          let '(digits, k') := strip_zeros (rev (Unparse.decimal d)) k in
          (digits, Z.of_nat (length digits) + k')
      | None => (["0"], 1)
      end
  | _ => (["0"], 1)
  end.

Definition zeros (n : Z) : list ascii := repeat "0" (Z.to_nat n).

Definition drop_trailing_point (cs : list ascii) : list ascii :=
  match rev cs with
  | "." :: reversed => rev reversed
  | _ => cs
  end.

(** [format_float_short] of [pystrtod.c] with format code ['r']. *)
Definition format_float_short (x : float)
    (always_add_sign add_dot_0_if_integer : bool) : list ascii :=
  let sign :=
    if signbit x && negb (is_nan x) then ["-"]
    else if always_add_sign then ["+"] else [] in
  if is_nan x then sign ++ list_ascii_of_string "nan"
  else if is_inf x then sign ++ list_ascii_of_string "inf"
  else
    let '(digits, decpt) := dtoa x in
    let digits_len := Z.of_nat (length digits) in
    let use_exp := (decpt <=? -4) || (16 <? decpt) in
    let exp := decpt - 1 in
    let decpt := if use_exp then 1 else decpt in
    let vdigits_start := if decpt <=? 0 then decpt - 1 else 0 in
    let vdigits_end :=
      if negb use_exp && add_dot_0_if_integer
      then (if decpt <? digits_len then digits_len else decpt + 1)
      else (if decpt <? digits_len then digits_len else decpt) in
    let left :=
      if decpt <=? 0
      then zeros (decpt - vdigits_start) ++ "." :: zeros (0 - decpt)
      else zeros (0 - vdigits_start) in
    let middle :=
      if (0 <? decpt) && (decpt <=? digits_len)
      then firstn (Z.to_nat decpt) digits ++ "." :: skipn (Z.to_nat decpt) digits
      else digits in
    let right :=
      if digits_len <? decpt
      then zeros (decpt - digits_len) ++ "." :: zeros (vdigits_end - decpt)
      else zeros (vdigits_end - digits_len) in
    let body := drop_trailing_point (left ++ middle ++ right) in
    let exponent :=
      if use_exp then
        "e" :: (if exp <? 0 then "-" else "+")
            :: (if Z.abs exp <? 10 then ["0"] else []) ++ Unparse.decimal (Z.abs exp)
      else [] in
    sign ++ body ++ exponent.

(** [float.__repr__]. *)
Definition of_float (x : float) : list ascii := format_float_short x false true.

(** [complex.__repr__]. *)
Definition of_complex (c : complex) : list ascii :=
  if Float.eqb (real c) zero && negb (signbit (real c)) then
    format_float_short (imag c) false false ++ ["j"]
  else
    "(" :: format_float_short (real c) false false
        ++ format_float_short (imag c) true false ++ ["j"; ")"].

End Str.

(** [str(value)] on what the evaluator computes. *)
Definition str (value : Number) : outcome string :=
  match value with
  | PyInt z =>
      match Str.of_int z with
      | Return cs => Return (string_of_list_ascii cs)
      | Raise e => Raise e
      end
  | PyBool b => Return (string_of_list_ascii (Str.of_bool b))
  | PyFloat f => Return (string_of_list_ascii (Str.of_float f))
  | PyComplex c => Return (string_of_list_ascii (Str.of_complex c))
  end.

(** ** [CalculatorApp]

    The Tk widgets are kept as far as the methods use them: the text of
    each of the two variables, the table of buttons with the command and
    the grid cell of each, and the key binding.  Colours, fonts and
    padding are left out. *)

(** [try: m except ...: handler else: orelse]: what [orelse] raises is
    not handled. *)
Definition try_except_else {S A B} (m : M S A)
    (handler : exception -> option (M S B)) (orelse : A -> M S B) : M S B :=
  fun s =>
    match m s with
    | (Return a, s') => orelse a s'
    | (Raise e, s') =>
        match handler e with
        | Some h => h s'
        | None => (Raise e, s')
        end
    end.

Module CalculatorApp.

(** The application object: its [CalculatorState] and the texts the two
    [tk.StringVar]s hold. *)
Record object := {
  state : CalculatorState;
  display_var : string;
  history_var : string
}.

(** The store the methods run in: the module globals and the object. *)
Record Process := {
  globals : Globals;
  ui : object
}.

(** A command of a button or of a key binding. *)
Definition Command : Type := M Process unit.

(** A [tk.Button] as [_create_button] places it. *)
Record Button := {
  text : string;
  command : Command;
  row : Z;
  column : Z;
  columnspan : Z
}.

(** What [_build_layout] leaves in the window: the buttons, the key
    bindings, and the columns and rows of the grid it gives a weight. *)
Record Window := {
  widgets : list Button;
  bindings : list (string * Command);
  weighted_columns : list Z;
  weighted_rows : list Z
}.

Inductive event :=
| Click (label : string)
| Key (sequence : string).

Section WithPlatform.

Context {platform : Platform}.

(** A call of a function of the module. *)
Definition in_module {A} (m : M Globals A) : M Process A :=
  fun p =>
    let '(r, g) := m (globals p) in
    (r, {| globals := g; ui := ui p |}).

(** A call of a method of [self.state]. *)
Definition in_state {A} (m : M CalculatorState A) : M Process A :=
  fun p =>
    let '(r, s) := m (state (ui p)) in
    (r, {| globals := globals p;
           ui := {| state := s;
                    display_var := display_var (ui p);
                    history_var := history_var (ui p) |} |}).

(** [self.display_var.set(value)] and [self.history_var.set(value)]. *)
Definition display_var_set (value : string) : M Process unit :=
  fun p =>
    (Return tt, {| globals := globals p;
                   ui := {| state := state (ui p);
                            display_var := value;
                            history_var := history_var (ui p) |} |}).

Definition history_var_set (value : string) : M Process unit :=
  fun p =>
    (Return tt, {| globals := globals p;
                   ui := {| state := state (ui p);
                            display_var := display_var (ui p);
                            history_var := value |} |}).

(** [CalculatorApp(root)]: the attributes [__init__] assigns. *)
Definition __init__ : object :=
  let state := CalculatorState_new in
  {| state := state;
     display_var := result state;
     history_var := expression state |}.

(** [self.state.append(value)], then the history shows the expression. *)
Definition append (value : string) : Command :=
  _ <- in_state (append value) ;;
  text <- read (fun p => expression (state (ui p))) ;;
  history_var_set text.

Definition clear : Command :=
  _ <- in_state clear ;;
  shown <- read (fun p => result (state (ui p))) ;;
  _ <- display_var_set shown ;;
  history_var_set "".

Definition backspace : Command :=
  _ <- in_state backspace ;;
  text <- read (fun p => expression (state (ui p))) ;;
  history_var_set text.

Definition calculate : Command :=
  typed <- read (fun p => expression (state (ui p))) ;;
  shown <- read (fun p => result (state (ui p))) ;;
  let text := if String.eqb typed "" then shown else typed in
  _ <- try_except_else
         (in_module (safe_eval text))
         (fun exc =>
            match exc with
            | EvaluationError _ _ => Some (in_state (set_result "Ошибка"))
            | _ => None
            end)
         (fun value =>
            written <- call (str value) ;;
            in_state (set_result written)) ;;
  shown <- read (fun p => result (state (ui p))) ;;
  _ <- display_var_set shown ;;
  history_var_set text.

(** The table [buttons] of [_build_layout]: label, command, row, column,
    and the column span of the entries that have one. *)
Definition buttons : list (string * Command * Z * Z * option Z) :=
  [ ("C", clear, 2, 0, None);
    ("⌫", backspace, 2, 1, None);
    ("%", append "%", 2, 2, None);
    ("/", append "/", 2, 3, None);
    ("7", append "7", 3, 0, None);
    ("8", append "8", 3, 1, None);
    ("9", append "9", 3, 2, None);
    ("*", append "*", 3, 3, None);
    ("4", append "4", 4, 0, None);
    ("5", append "5", 4, 1, None);
    ("6", append "6", 4, 2, None);
    ("-", append "-", 4, 3, None);
    ("1", append "1", 5, 0, None);
    ("2", append "2", 5, 1, None);
    ("3", append "3", 5, 2, None);
    ("+", append "+", 5, 3, None);
    ("0", append "0", 6, 0, None);
    (".", append ".", 6, 1, None);
    ("=", calculate, 6, 2, Some 2) ]%string.

Definition _create_button (text : string) (command : Command)
    (row column colspan : Z) : Button :=
  {| text := text; command := command;
     row := row; column := column; columnspan := colspan |}.

(** Every entry of the table becomes a button, with a span of one column
    where the entry gives none; the Return key is bound to [calculate]. *)
Definition _build_layout : Window :=
  {| widgets :=
       map (fun '(label, command, row, col, colspan) =>
              _create_button label command row col
                (match colspan with Some n => n | None => 1 end))
           buttons;
     bindings := [("<Return>"%string, calculate)];
     weighted_columns := [0; 1; 2; 3];
     weighted_rows := [2; 3; 4; 5; 6] |}.

(** The command Tk calls for an event: the one of the button clicked, or
    the one bound to the key; none when there is no such button or
    binding. *)
Definition callback (e : event) : option Command :=
  match e with
  | Click label =>
      option_map command
        (find (fun b => String.eqb (text b) label) (widgets _build_layout))
  | Key sequence =>
      option_map snd
        (find (fun b => String.eqb (fst b) sequence) (bindings _build_layout))
  end.

(** One turn of [root.mainloop()]: Tk calls the command and reports an
    exception it raises; the loop goes on with the store as the command
    left it. *)
Definition dispatch (p : Process) (e : event) : Process :=
  match callback e with
  | Some command => snd (command p)
  | None => p
  end.

(** [main()] over the events of a session: the process when they have
    been handled. *)
Definition main (events : list event) : Process :=
  fold_left dispatch events {| globals := module_globals; ui := __init__ |}.

End WithPlatform.

End CalculatorApp.

(** * Vocabulary of the further properties *)

Import CalculatorApp (object, Process, Command, Button, Window, event, Click, Key,
  state, display_var, history_var, globals, ui).

(** ** Exceptions *)

(** What the model of [ast.parse] can raise. *)
Definition lexical (e : exception) : Prop := e = SyntaxError \/ e = NotModelled.

(** A rule of the grammar that raises nothing else. *)
Definition raises_lexical (operand : list Parser.token -> Parser.parsed) : Prop :=
  forall ts e, operand ts = Raise e -> lexical e.

(** The exceptions of Python's arithmetic that [safe_eval] does not
    convert. *)
Definition escapes (e : exception) : Prop :=
  e = OverflowError \/ e = TypeError \/ e = ValueError.

Definition arithmetic_error (e : exception) : Prop :=
  e = ZeroDivisionError \/ escapes e.

(** A platform whose complex arithmetic raises what CPython's does:
    [ZeroDivisionError] and [OverflowError], at most the exceptions of
    arithmetic. *)
Definition arithmetic_platform (platform : Platform) : Prop :=
  forall o x y e, complex_arith o x y = Raise e -> arithmetic_error e.

(** The three messages of the walk. *)
Definition walk_error (e : exception) : Prop :=
  e = EvaluationError "Unsupported constant" None \/
  e = EvaluationError "Unsupported expression" None \/
  e = EvaluationError "Division by zero" (Some ZeroDivisionError).

(** ** Texts of numbers *)

(** The characters of the text of an integer. *)
Definition numeral_char (c : ascii) : bool :=
  Parser.is_digit c || Ascii.eqb c "-".

(** ** Sessions of the application *)

(** The characters the buttons append. *)
Definition keys : list ascii :=
  ["%"; "/"; "7"; "8"; "9"; "*"; "4"; "5"; "6"; "-"; "1"; "2"; "3"; "+"; "0"; "."]%char.

(** The texts made of those characters. *)
Definition typed (text : string) : bool :=
  forallb (fun c => existsb (Ascii.eqb c) keys) (list_ascii_of_string text).

(** A click on the button of one character. *)
Definition press (c : ascii) : event := Click (String c "").

(** The clicks that type a text. *)
Definition typing (text : string) : list event :=
  map press (list_ascii_of_string text).

(** [self.state.expression or self.state.result]. *)
Definition evaluated_text (p : Process) : string :=
  if String.eqb (expression (state (ui p))) "" then result (state (ui p))
  else expression (state (ui p)).

(** The process when [calculate] has written a result: the result field
    and the display hold [written], the history holds [history]. *)
Definition shown (p : Process) (written history : string) : Process :=
  {| globals := globals p;
     ui := {| state := {| expression := expression (state (ui p));
                          result := written;
                          error := error (state (ui p)) |};
              display_var := written;
              history_var := history |} |}.

(** The trees that a text of the buttons' characters can stand for:
    integer and float literals, the ellipsis, the two signs and the seven
    arithmetic operators. *)
Fixpoint keyed (e : AST) : bool :=
  match e with
  | Expression body => keyed body
  | Constant (CInt _ | CFloat _ | CEllipsis) => true
  | UnaryOp (UAdd | USub) x => keyed x
  | BinOp l op r => Unparse.arithmetic_operator op && keyed l && keyed r
  | _ => false
  end.

Module Keyed.

Import Parser.

Local Open Scope char_scope.

(** A character of a button. *)
Definition key (c : ascii) : bool := existsb (Ascii.eqb c) keys.

(** The tokens made of such characters. *)
Definition keyed_token (t : token) : bool :=
  match t with
  | NUMBER (CInt _ | CFloat _)
  | PLUS | MINUS | STAR | DOUBLESTAR | SLASH | DOUBLESLASH | PERCENT
  | DOT | ELLIPSIS => true
  | _ => false
  end.

Definition keyed_tokens (ts : list token) : Prop := forallb keyed_token ts = true.

(** A rule that turns keyed tokens into a keyed tree and leaves keyed
    tokens. *)
Definition keeps (operand : list token -> parsed) : Prop :=
  forall ts v rest, keyed_tokens ts -> operand ts = Return (v, rest) ->
  keyed v = true /\ keyed_tokens rest.

End Keyed.

(** * Properties *)

(** ** The evaluator leaves the store alone *)

Section Frame.

Context {platform : Platform}.

Lemma bind_frame {S A B} (m : M S A) (k : A -> M S B) (s : S) :
  snd (m s) = s -> (forall a, snd (k a s) = s) -> snd (bind m k s) = s.
Proof.
  unfold bind. intros Hm Hk.
  destruct (m s) as [[a | e] s'] eqn:E; simpl in Hm; subst s'.
  - apply Hk.
  - reflexivity.
Qed.

Lemma try_except_frame {S A} (m : M S A) h (s : S) :
  snd (m s) = s ->
  (forall e k, h e = Some k -> snd (k s) = s) ->
  snd (try_except m h s) = s.
Proof.
  unfold try_except. intros Hm Hh.
  destruct (m s) as [[a | e] s'] eqn:E; simpl in Hm; subst s'.
  - reflexivity.
  - destruct (h e) as [k |] eqn:Eh; [ eapply Hh; eassumption | reflexivity ].
Qed.

Lemma _evaluate_ast_frame (node : AST) (g : Globals) :
  snd (_evaluate_ast node g) = g.
Proof.
  induction node; simpl; try reflexivity; try assumption;
    repeat first
      [ reflexivity
      | assumption
      | apply bind_frame; [ | intros ? ]
      | apply try_except_frame; [ | intros e k He; destruct e; inversion He ]
      | match goal with
        | |- context [decide ?P] => destruct (decide P)
        | |- context [int_or_float ?v] => destruct (int_or_float v)
        | |- context [?t !! ?o] => destruct (t !! o)
        end ].
Qed.

Lemma safe_eval_frame (text : string) (g : Globals) :
  snd (safe_eval text g) = g.
Proof.
  unfold safe_eval. apply try_except_frame.
  - apply bind_frame; [ reflexivity | intros t; apply _evaluate_ast_frame ].
  - intros e k He. destruct e; inversion He; reflexivity.
Qed.

End Frame.

(** ** Evaluation in the module's own globals, one node at a time *)

Section Equations.

Context {platform : Platform}.

Lemma lookup_operator (op : operator) :
  _ALLOWED_OPERATORS module_globals !! op = allowed_operator op.
Proof. destruct op; reflexivity. Qed.

Lemma lookup_unary_operator (op : unaryop) :
  _ALLOWED_UNARY_OPERATORS module_globals !! op = allowed_unary_operator op.
Proof. destruct op; reflexivity. Qed.

Lemma run_split {A} (m : M Globals A) :
  snd (m module_globals) = module_globals ->
  m module_globals = (run m, module_globals).
Proof.
  unfold run. intros H. rewrite <- H at 3. apply surjective_pairing.
Qed.

Lemma run_evaluate (node : AST) :
  _evaluate_ast node module_globals = (run (_evaluate_ast node), module_globals).
Proof. apply run_split, _evaluate_ast_frame. Qed.

Lemma run_Expression (body : AST) :
  run (_evaluate_ast (Expression body)) = run (_evaluate_ast body).
Proof. reflexivity. Qed.

Lemma run_Constant (value : constant) :
  run (_evaluate_ast (Constant value)) =
  match int_or_float value with
  | Some n => Return n
  | None => Raise (EvaluationError "Unsupported constant" None)
  end.
Proof. unfold run. simpl. destruct (int_or_float value); reflexivity. Qed.

Lemma run_UnaryOp (op : unaryop) (operand : AST) :
  run (_evaluate_ast (UnaryOp op operand)) =
  match allowed_unary_operator op with
  | None => Raise (EvaluationError "Unsupported expression" None)
  | Some f =>
      match run (_evaluate_ast operand) with
      | Return v => f v
      | Raise e => Raise e
      end
  end.
Proof.
  unfold run at 1. simpl. unfold bind, read. simpl.
  rewrite lookup_unary_operator.
  destruct (allowed_unary_operator op) as [f |] eqn:E.
  - destruct (decide (is_Some (Some f))) as [_ | n]; [ | destruct n; eauto ].
    rewrite run_evaluate.
    destruct (run (_evaluate_ast operand)); [ | reflexivity ].
    rewrite lookup_unary_operator, E. reflexivity.
  - destruct (decide (is_Some None)) as [[x Hx] | _]; [ discriminate | reflexivity ].
Qed.

Lemma run_BinOp (l : AST) (op : operator) (r : AST) :
  run (_evaluate_ast (BinOp l op r)) =
  match allowed_operator op with
  | None => Raise (EvaluationError "Unsupported expression" None)
  | Some f =>
      match run (_evaluate_ast l) with
      | Raise e => Raise e
      | Return a =>
          match run (_evaluate_ast r) with
          | Raise e => Raise e
          | Return b => guarded (f a b)
          end
      end
  end.
Proof.
  unfold run at 1. simpl. unfold bind, read. simpl.
  rewrite lookup_operator.
  destruct (allowed_operator op) as [f |] eqn:E.
  - destruct (decide (is_Some (Some f))) as [_ | n]; [ | destruct n; eauto ].
    rewrite run_evaluate.
    destruct (run (_evaluate_ast l)); [ | reflexivity ].
    rewrite run_evaluate.
    destruct (run (_evaluate_ast r)); [ | reflexivity ].
    unfold try_except, call. simpl. rewrite lookup_operator, E.
    destruct (f a a0) as [v | e]; [ reflexivity | ].
    destruct e; reflexivity.
  - destruct (decide (is_Some None)) as [[x Hx] | _]; [ discriminate | reflexivity ].
Qed.

Lemma run_safe_eval (text : string) :
  run (safe_eval text) =
  wrapped match ast_parse text with
          | Return parsed => run (_evaluate_ast parsed)
          | Raise e => Raise e
          end.
Proof.
  unfold run at 1, safe_eval, try_except, bind, call.
  destruct (ast_parse text) as [parsed | e].
  - rewrite run_evaluate.
    destruct (run (_evaluate_ast parsed)) as [v | e]; [ reflexivity | ].
    destruct e; reflexivity.
  - destruct e; reflexivity.
Qed.

End Equations.

(** ** [CalculatorState] *)

Lemma append_spec (value : string) (self : CalculatorState) :
  append value self =
  (Return tt, {| expression := expression self ++ value;
                 result := result self;
                 error := error self |}).
Proof. reflexivity. Qed.

Lemma clear_spec (self : CalculatorState) :
  clear self = (Return tt, CalculatorState_new).
Proof. reflexivity. Qed.

Lemma backspace_spec (self : CalculatorState) :
  backspace self =
  (Return tt, {| expression := drop_last (expression self);
                 result := result self;
                 error := error self |}).
Proof.
  unfold backspace, bind, read.
  destruct self as [text res err]; simpl.
  destruct text; reflexivity.
Qed.

(** [drop_last] removes exactly the last character. *)
Lemma drop_last_app (text : string) (c : ascii) :
  drop_last (text ++ String c "") = text.
Proof.
  induction text as [| d text IH]; simpl; [ reflexivity | ].
  rewrite IH. destruct text; reflexivity.
Qed.

(** C9.  From a fresh state, [append("1")], [append("+")], [append("2")]
    leave the expression text [1+2]; a following [backspace()] leaves
    [1+]; a following [clear()] leaves expression [""], result ["0"] and
    error [""].  Every call returns. *)
Theorem C9_state_flow :
  let typed := _ <- append "1" ;; _ <- append "+" ;; append "2" in
  let s3 := snd (typed CalculatorState_new) in
  let s4 := snd (backspace s3) in
  let s5 := snd (clear s4) in
  fst (typed CalculatorState_new) = Return tt /\
  expression s3 = "1+2"%string /\
  fst (backspace s3) = Return tt /\
  expression s4 = "1+"%string /\
  fst (clear s4) = Return tt /\
  s5 = {| expression := ""; result := "0"; error := "" |}.
Proof. repeat split. Qed.

(** C10.  On a state whose expression text is empty, [backspace()]
    changes none of the three fields and raises nothing; on every state,
    [append] and [backspace] return and leave the result and error fields
    as they were. *)
Theorem C10_backspace_append_frame (self : CalculatorState) :
  (expression self = ""%string -> backspace self = (Return tt, self)) /\
  (forall value,
     fst (append value self) = Return tt /\
     result (snd (append value self)) = result self /\
     error (snd (append value self)) = error self) /\
  (fst (backspace self) = Return tt /\
   result (snd (backspace self)) = result self /\
   error (snd (backspace self)) = error self).
Proof.
  split; [ | split ].
  - intros H. rewrite backspace_spec. destruct self as [text res err].
    simpl in *. subst text. reflexivity.
  - intros value. rewrite append_spec. repeat split.
  - rewrite backspace_spec. repeat split.
Qed.

Lemma C10_backspace_append_frame_witness :
  backspace CalculatorState_new = (Return tt, CalculatorState_new).
Proof.
  apply (proj1 (C10_backspace_append_frame CalculatorState_new)).
  reflexivity.
Defined.

(** ** Purity *)

(** C8.  [safe_eval] writes nothing: whatever the module globals hold, a
    call leaves them as they were, so a second call on the same text runs
    in the same store and gives the same value or the same exception. *)
Theorem C8_safe_eval_pure {platform : Platform} (text : string) (g : Globals) :
  snd (safe_eval text g) = g /\
  safe_eval text (snd (safe_eval text g)) = safe_eval text g.
Proof.
  pose proof (safe_eval_frame text g) as H.
  split; [ exact H | rewrite H; reflexivity ].
Qed.

(** ** Integer division and remainder *)

(** [l_divmod] computes the floor quotient and its remainder. *)
Lemma l_divmod_floor (a b : Z) :
  b <> 0 -> Operator.l_divmod a b = (a / b, a mod b).
Proof.
  intros Hb. unfold Operator.l_divmod.
  pose proof (Z.quot_rem' a b) as Hqr.
  pose proof (Z.rem_bound_abs a b Hb) as Habs.
  pose proof (Z.div_mod a b Hb) as Hdm.
  assert (Hsign : 0 <= a mod b < b \/ b < a mod b <= 0).
  { destruct (Z_lt_le_dec 0 b).
    - left. apply Z.mod_pos_bound. lia.
    - right. apply Z.mod_neg_bound. lia. }
  destruct (((Z.rem a b <? 0) && (0 <? b)) || ((0 <? Z.rem a b) && (b <? 0))) eqn:E.
  - assert (Hr : 0 <= Z.rem a b + b < b \/ b < Z.rem a b + b <= 0) by lia.
    destruct (Z.div_mod_unique b (a ÷ b - 1) (a / b) (Z.rem a b + b) (a mod b) Hr Hsign)
      as [-> ->]; [ lia | reflexivity ].
  - assert (Hr : 0 <= Z.rem a b < b \/ b < Z.rem a b <= 0) by lia.
    destruct (Z.div_mod_unique b (a ÷ b) (a / b) (Z.rem a b) (a mod b) Hr Hsign)
      as [-> ->]; [ lia | reflexivity ].
Qed.

Lemma mod_int (a b : Z) {platform : Platform} :
  b <> 0 -> Operator.mod_ (PyInt a) (PyInt b) = Return (PyInt (a mod b)).
Proof.
  intros Hb. unfold Operator.mod_, Operator.dispatch. simpl.
  destruct (Z.eqb_spec b 0); [ contradiction | ].
  rewrite l_divmod_floor by assumption. reflexivity.
Qed.

Lemma floordiv_int (a b : Z) {platform : Platform} :
  b <> 0 -> Operator.floordiv (PyInt a) (PyInt b) = Return (PyInt (a / b)).
Proof.
  intros Hb. unfold Operator.floordiv, Operator.dispatch. simpl.
  destruct (Z.eqb_spec b 0); [ contradiction | ].
  rewrite l_divmod_floor by assumption. reflexivity.
Qed.

(** C7.  For integers [a] and [b], [b] not zero, [a % b] evaluates to the
    integer [r] with [a = b * q + r], where [q] is the value of [a // b],
    and [r] is zero or has the sign of [b]: [0 <= r < b] for a positive
    [b], [b < r <= 0] for a negative one.  In particular [-7 % 3] is [2]
    and [7 % -3] is [-2]. *)
Theorem C7_int_mod_sign_of_divisor {platform : Platform} (a b : Z) :
  b <> 0 ->
  exists q r : Z,
    run (_evaluate_ast (BinOp (Constant (CInt a)) FloorDiv (Constant (CInt b))))
      = Return (PyInt q) /\
    run (_evaluate_ast (BinOp (Constant (CInt a)) Mod (Constant (CInt b))))
      = Return (PyInt r) /\
    a = b * q + r /\
    (0 < b -> 0 <= r < b) /\
    (b < 0 -> b < r <= 0) /\
    run (safe_eval "-7 % 3") = Return (PyInt 2) /\
    run (safe_eval "7 % -3") = Return (PyInt (-2)).
Proof.
  intros Hb. exists (a / b), (a mod b).
  rewrite !run_BinOp, !run_Constant. simpl.
  rewrite floordiv_int, mod_int by assumption. simpl.
  repeat split.
  - apply Z.div_mod. assumption.
  - apply Z.mod_pos_bound. assumption.
  - apply Z.mod_pos_bound. assumption.
  - apply Z.mod_neg_bound. assumption.
  - apply Z.mod_neg_bound. assumption.
Qed.

Lemma C7_int_mod_sign_of_divisor_witness :
  exists q r : Z,
    run (platform := bare_platform)
      (_evaluate_ast (BinOp (Constant (CInt (-7))) FloorDiv (Constant (CInt 3))))
      = Return (PyInt q) /\
    run (platform := bare_platform)
      (_evaluate_ast (BinOp (Constant (CInt (-7))) Mod (Constant (CInt 3))))
      = Return (PyInt r) /\
    -7 = 3 * q + r /\
    (0 < 3 -> 0 <= r < 3) /\
    (3 < 0 -> 3 < r <= 0) /\
    run (platform := bare_platform) (safe_eval "-7 % 3") = Return (PyInt 2) /\
    run (platform := bare_platform) (safe_eval "7 % -3") = Return (PyInt (-2)).
Proof.
  apply (C7_int_mod_sign_of_divisor (platform := bare_platform) (-7) 3).
  lia.
Defined.

(** ** True division *)

Ltac case_outcome :=
  repeat match goal with
         | |- context [match ?x with _ => _ end] => destruct x eqn:?; simpl
         | |- context [if ?x then _ else _] => destruct x eqn:?; simpl
         end.

(** Whatever [operator.truediv] returns is no integer. *)
Lemma truediv_not_int {platform : Platform} (a b v : Number) :
  Operator.truediv a b = Return v -> is_int v = false.
Proof.
  unfold Operator.truediv, Operator.dispatch, Operator.complex_op.
  destruct (as_int a), (as_int b); simpl;
    case_outcome; intros H; inversion H; reflexivity.
Qed.

(** On [int], [bool] and [float] operands it returns a [float]. *)
Lemma truediv_float {platform : Platform} (a b v : Number) :
  is_complex a = false -> is_complex b = false ->
  Operator.truediv a b = Return v -> is_float v = true.
Proof.
  unfold Operator.truediv, Operator.dispatch.
  intros Ha Hb. rewrite Ha, Hb.
  destruct (as_int a), (as_int b); simpl;
    case_outcome; intros H; inversion H; reflexivity.
Qed.

Lemma guarded_Return (r : outcome Number) (v : Number) :
  guarded r = Return v -> r = Return v.
Proof. destruct r as [x | e]; [ auto | destruct e; discriminate ]. Qed.

(** C6.  [2**3] evaluates to the integer [8] and [(4-1)/3] to the float
    [1.0].  No [/] node ever evaluates to an integer, and [operator.truediv]
    on [int], [bool] or [float] operands returns a [float]. *)
Theorem C6_true_division_floats {platform : Platform} :
  run (safe_eval "2**3") = Return (PyInt 8) /\
  run (safe_eval "(4-1)/3") = Return (PyFloat one) /\
  (forall (l r : AST) (v : Number),
     run (_evaluate_ast (BinOp l Div r)) = Return v -> is_int v = false) /\
  (forall a b v : Number,
     is_complex a = false -> is_complex b = false ->
     Operator.truediv a b = Return v -> is_float v = true).
Proof.
  split; [ reflexivity | ].
  split; [ vm_compute; reflexivity | ].
  split.
  - intros l r v. rewrite run_BinOp. simpl.
    destruct (run (_evaluate_ast l)) as [a | e]; [ | discriminate ].
    destruct (run (_evaluate_ast r)) as [b | e]; [ | discriminate ].
    intros H. apply guarded_Return in H. eapply truediv_not_int; eassumption.
  - intros a b v. apply truediv_float.
Qed.

Lemma C6_true_division_floats_witness :
  is_int (PyFloat one) = false /\ is_float (PyFloat one) = true.
Proof.
  pose proof (C6_true_division_floats (platform := bare_platform))
    as (_ & _ & Hnode & Hop).
  split.
  - apply (Hnode (Constant (CInt 3)) (Constant (CInt 3)) (PyFloat one)).
    vm_compute. reflexivity.
  - apply (Hop (PyInt 3) (PyInt 3) (PyFloat one)); reflexivity.
Defined.

(** ** The whitelist *)

Section Whitelist.

Context {platform : Platform}.

Lemma named_disallowed_not_whitelisted (node : AST) :
  named_disallowed node = true -> whitelisted node = false.
Proof.
  destruct node; simpl; try discriminate; try reflexivity.
  - destruct value; simpl; try discriminate; reflexivity.
  - destruct op; simpl; try discriminate; reflexivity.
  - destruct op; simpl; try discriminate; reflexivity.
Qed.

Lemma child_not_whitelisted (c t : AST) :
  child c t -> whitelisted c = false -> whitelisted t = false.
Proof.
  intros Hc Hw. destruct Hc; simpl; try reflexivity; rewrite Hw;
    rewrite ?andb_false_r; reflexivity.
Qed.

Lemma occurs_not_whitelisted (s t : AST) :
  occurs s t -> whitelisted s = false -> whitelisted t = false.
Proof.
  induction 1 as [| c t Hc _ IH]; [ auto | ].
  intros Hs. eapply child_not_whitelisted; eauto.
Qed.

(** A tree with a node outside the whitelist never evaluates to a value. *)
Lemma not_whitelisted_no_value (node : AST) :
  whitelisted node = false -> forall v, run (_evaluate_ast node) <> Return v.
Proof.
  induction node; intros Hw v; simpl in Hw;
    try (unfold run; simpl; discriminate).
  - rewrite run_Expression. auto.
  - rewrite run_Constant. destruct (int_or_float value); [ | discriminate ].
    rewrite bool_decide_eq_false in Hw. destruct Hw. eauto.
  - rewrite run_UnaryOp.
    destruct (allowed_unary_operator op) as [f |]; [ | discriminate ].
    rewrite bool_decide_true in Hw by eauto. simpl in Hw.
    destruct (run (_evaluate_ast node)) as [x | e] eqn:E; [ | discriminate ].
    exfalso. eapply IHnode; eauto.
  - rewrite run_BinOp.
    destruct (allowed_operator op) as [f |]; [ | discriminate ].
    rewrite bool_decide_true in Hw by eauto. simpl in Hw.
    destruct (run (_evaluate_ast node1)) as [x | e] eqn:E1; [ | discriminate ].
    destruct (run (_evaluate_ast node2)) as [y | e] eqn:E2; [ | discriminate ].
    exfalso. apply andb_false_iff in Hw as [Hw | Hw].
    + eapply IHnode1; eauto.
    + eapply IHnode2; eauto.
Qed.

Lemma wrapped_Return (r : outcome Number) (v : Number) :
  wrapped r = Return v -> r = Return v.
Proof. destruct r as [x | e]; [ auto | destruct e; discriminate ]. Qed.

(** A text whose tree holds an identifier, a call, a string literal, a
    comparison, a boolean operator or a bitwise operator anywhere never
    makes [safe_eval] return a value; neither does a text that does not
    parse. *)
Lemma disallowed_text_no_value (text : string) (tree s : AST) :
  ast_parse text = Return tree -> occurs s tree -> named_disallowed s = true ->
  forall v, run (safe_eval text) <> Return v.
Proof.
  intros Hp Ho Hs v H. rewrite run_safe_eval, Hp in H.
  apply wrapped_Return in H. revert H.
  apply not_whitelisted_no_value.
  eapply occurs_not_whitelisted; eauto using named_disallowed_not_whitelisted.
Qed.

Lemma unparsed_text_no_value (text : string) (e : exception) :
  ast_parse text = Raise e -> forall v, run (safe_eval text) <> Return v.
Proof.
  intros Hp v H. rewrite run_safe_eval, Hp in H.
  apply wrapped_Return in H. discriminate.
Qed.

End Whitelist.

(** ** Division by zero *)

Section DivisionByZero.

Context {platform : Platform}.

Lemma of_Z_zero : of_Z 0 = zero.
Proof. reflexivity. Qed.

Lemma to_double_real_zero (b : Number) :
  is_real_zero b = true ->
  as_int b = Some 0 \/
  (as_int b = None /\ is_complex b = false /\
   exists y, Operator.to_double b = Return y /\ Float.eqb y zero = true).
Proof.
  destruct b as [z | [] | f | c]; simpl; try discriminate; intros H.
  - left. apply Z.eqb_eq in H. subst. reflexivity.
  - left. reflexivity.
  - right. repeat split. eauto.
Qed.

(** With a left operand that is a [float], a [bool] or an [int] within
    the range of a double, a zero divisor makes [/], [//] and [%] raise
    [ZeroDivisionError]. *)
Lemma zero_divisor_raises (op : operator) (f : Number -> Number -> outcome Number)
    (a b : Number) (x : float) :
  division op = true -> allowed_operator op = Some f ->
  Operator.to_double a = Return x -> is_real_zero b = true ->
  f a b = Raise ZeroDivisionError.
Proof.
  intros Hop Hf Ha Hb.
  assert (Hca : is_complex a = false)
    by (destruct a; simpl in *; congruence).
  destruct op; try discriminate; inversion Hf; subst f;
    unfold Operator.truediv, Operator.floordiv, Operator.mod_, Operator.dispatch;
    (destruct (to_double_real_zero b Hb) as [Hz | (Hz & Hcb & y & Hy & Hy0)];
     rewrite Hz;
     [ destruct (as_int a) as [n |] eqn:En;
       [ reflexivity
       | rewrite Hca; simpl; rewrite Ha;
         destruct b as [z | [] | ? | ?]; simpl in *; try discriminate;
         [ inversion Hz; subst; reflexivity | reflexivity ] ]
     | rewrite Hca, Hcb; simpl; rewrite Ha, Hy, Hy0;
       destruct (as_int a); reflexivity ]).
Qed.

(** At a [/], [//] or [%] node: when the left operand evaluates to such
    a number and the right one to zero, the node raises
    ["Division by zero"], and [safe_eval] wraps it. *)
Lemma division_by_zero_node (l r : AST) (op : operator) (a b : Number) (x : float) :
  division op = true ->
  run (_evaluate_ast l) = Return a -> Operator.to_double a = Return x ->
  run (_evaluate_ast r) = Return b -> is_real_zero b = true ->
  run (_evaluate_ast (BinOp l op r)) =
  Raise (EvaluationError "Division by zero" (Some ZeroDivisionError)).
Proof.
  intros Hop Hl Ha Hr Hb. rewrite run_BinOp, Hl, Hr.
  destruct (allowed_operator op) as [f |] eqn:Ef;
    [ | destruct op; discriminate ].
  erewrite zero_divisor_raises by eassumption. reflexivity.
Qed.

End DivisionByZero.

(** ** What [safe_eval] can raise *)

Section Raised.

Context {platform : Platform}.

Lemma guarded_not_ZeroDivisionError (r : outcome Number) :
  guarded r <> Raise ZeroDivisionError.
Proof. destruct r as [v | e]; [ | destruct e ]; discriminate. Qed.

(** The walk never lets a [ZeroDivisionError] out. *)
Lemma _evaluate_ast_not_ZeroDivisionError (node : AST) :
  run (_evaluate_ast node) <> Raise ZeroDivisionError.
Proof.
  induction node; try (unfold run; simpl; discriminate).
  - rewrite run_Expression. assumption.
  - rewrite run_Constant. destruct (int_or_float value); discriminate.
  - rewrite run_UnaryOp. destruct op; simpl; try discriminate;
      destruct (run (_evaluate_ast node)) as [v | e]; try assumption;
      try discriminate.
    destruct v; discriminate.
  - rewrite run_BinOp.
    destruct (allowed_operator op); [ | discriminate ].
    destruct (run (_evaluate_ast node1)); [ | assumption ].
    destruct (run (_evaluate_ast node2)); [ | assumption ].
    apply guarded_not_ZeroDivisionError.
Qed.

Hypothesis complex_arith_builtin :
  forall o x y e, complex_arith o x y = Raise e -> builtin e.

Lemma to_double_builtin (a : Number) (e : exception) :
  Operator.to_double a = Raise e -> builtin e.
Proof.
  destruct a as [z | b | f | c]; simpl; try discriminate.
  - destruct (is_inf (of_Z z)); intros H; inversion H; reflexivity.
  - intros H; inversion H; reflexivity.
Qed.

Lemma to_complex_builtin (a : Number) (e : exception) :
  Operator.to_complex a = Raise e -> builtin e.
Proof.
  unfold Operator.to_complex.
  destruct a; try discriminate;
    (destruct (Operator.to_double _) eqn:E; [ discriminate | ]);
    intros H; inversion H; subst; eapply to_double_builtin; eassumption.
Qed.

Lemma complex_op_builtin o chk (a b : Number) (e : exception) :
  (forall y x, chk y = Some x -> builtin x) ->
  Operator.complex_op o chk a b = Raise e -> builtin e.
Proof.
  intros Hchk. unfold Operator.complex_op.
  destruct (Operator.to_complex a) eqn:Ea;
    [ | intros H; inversion H; subst; eapply to_complex_builtin; eassumption ].
  destruct (Operator.to_complex b) eqn:Eb;
    [ | intros H; inversion H; subst; eapply to_complex_builtin; eassumption ].
  destruct (chk _) eqn:Ec;
    [ intros H; inversion H; subst; eapply Hchk; eassumption | ].
  destruct (complex_arith _ _ _) eqn:Ep; [ discriminate | ].
  intros H; inversion H; subst. eapply complex_arith_builtin; eassumption.
Qed.

Lemma no_check_builtin y x : Operator.no_check y = Some x -> builtin x.
Proof. discriminate. Qed.

Lemma zero_divisor_builtin y x : Operator.zero_divisor y = Some x -> builtin x.
Proof.
  unfold Operator.zero_divisor.
  destruct (_ && _); intros H; inversion H; reflexivity.
Qed.

Lemma dispatch_builtin on_int on_float on_complex (a b : Number) (e : exception) :
  (forall x y e, on_int x y = Raise e -> builtin e) ->
  (forall x y e, on_float x y = Raise e -> builtin e) ->
  (forall x y e, on_complex x y = Raise e -> builtin e) ->
  Operator.dispatch on_int on_float on_complex a b = Raise e -> builtin e.
Proof.
  intros Hi Hf Hc. unfold Operator.dispatch.
  assert (Hrest :
    (if is_complex a || is_complex b then on_complex a b
     else match Operator.to_double a with
          | Return x =>
              match Operator.to_double b with
              | Return y => on_float x y
              | Raise e => Raise e
              end
          | Raise e => Raise e
          end) = Raise e -> builtin e).
  { destruct (is_complex a || is_complex b); [ apply Hc | ].
    destruct (Operator.to_double a) eqn:Ea;
      [ | intros H; inversion H; subst; eapply to_double_builtin; eassumption ].
    destruct (Operator.to_double b) eqn:Eb;
      [ apply Hf
      | intros H; inversion H; subst; eapply to_double_builtin; eassumption ]. }
  destruct (as_int a), (as_int b); first [ apply Hi | exact Hrest ].
Qed.

Lemma float_pow_builtin (iv iw : float) (e : exception) :
  Operator.float_pow iv iw = Raise e -> builtin e.
Proof.
  unfold Operator.float_pow.
  repeat match goal with
         | |- context [Operator.complex_op ?o ?c ?a ?b] =>
             generalize (complex_op_builtin o c a b e);
             generalize (Operator.complex_op o c a b); intros r Hr
         | |- (if ?c then _ else _) = _ -> _ => destruct c
         | |- (let '(_, _) := ?p in _) = _ -> _ => destruct p as [ix err]
         | |- match ?x with _ => _ end = _ -> _ => destruct x
         end;
    try discriminate;
    try (intros H; inversion H; reflexivity);
    try (apply Hr; apply no_check_builtin).
Qed.

Lemma table_builtin (op : operator) f (a b : Number) (e : exception) :
  allowed_operator op = Some f -> f a b = Raise e -> builtin e.
Proof.
  destruct op; try discriminate; intros H; inversion H; subst f; clear H;
    apply dispatch_builtin; intros x y e';
    try discriminate;
    try (apply complex_op_builtin;
         first [ apply no_check_builtin | apply zero_divisor_builtin ]);
    try apply float_pow_builtin;
    try (intros H; inversion H; reflexivity);
    repeat match goal with
           | |- (if ?c then _ else _) = _ -> _ => destruct c
           end;
    try discriminate;
    try (intros H; inversion H; reflexivity).
  destruct (Operator.to_double a) eqn:Ea;
    [ | intros H; inversion H; subst; eapply to_double_builtin; eassumption ].
  destruct (Operator.to_double b) eqn:Eb;
    [ apply float_pow_builtin
    | intros H; inversion H; subst; eapply to_double_builtin; eassumption ].
Qed.

(** On a tree within the whitelist the only [EvaluationError] is the one
    for a division by zero: once a tree has passed the whitelist, what is
    raised comes from an operator call. *)
Lemma whitelisted_errors (node : AST) (message : string) (cause : option exception) :
  whitelisted node = true ->
  run (_evaluate_ast node) = Raise (EvaluationError message cause) ->
  message = "Division by zero"%string /\ cause = Some ZeroDivisionError.
Proof.
  induction node; intros Hw; simpl in Hw; try discriminate.
  - rewrite run_Expression. auto.
  - rewrite run_Constant.
    destruct (int_or_float value); [ discriminate | ].
    rewrite bool_decide_eq_true in Hw. destruct Hw. discriminate.
  - rewrite run_UnaryOp.
    destruct op; simpl in Hw; try discriminate; simpl;
      (destruct (run (_evaluate_ast node)) as [v | e]; [ | auto ]).
    + discriminate.
    + destruct v; discriminate.
  - rewrite run_BinOp.
    apply andb_true_iff in Hw as [Hw Hw2]. apply andb_true_iff in Hw as [Hop Hw1].
    destruct (allowed_operator op) as [f |] eqn:Ef; [ | discriminate ].
    destruct (run (_evaluate_ast node1)) as [a | e]; [ | auto ].
    destruct (run (_evaluate_ast node2)) as [b | e]; [ | auto ].
    destruct (f a b) as [v | e] eqn:E; [ discriminate | ].
    pose proof (table_builtin op f a b e Ef E) as He.
    destruct e; simpl; try discriminate.
    intros H. inversion H. auto.
Qed.

(** [safe_eval] never raises [SyntaxError] or [ZeroDivisionError], and
    every [EvaluationError] it raises is the uniform one. *)
Lemma safe_eval_raises (text : string) (e : exception) :
  ast_parse text <> Raise ZeroDivisionError ->
  run (safe_eval text) = Raise e ->
  e <> SyntaxError /\ e <> ZeroDivisionError /\
  (is_EvaluationError e = true ->
   exists cause, e = EvaluationError "Invalid expression" (Some cause)).
Proof.
  intros Hp. rewrite run_safe_eval.
  destruct (ast_parse text) as [tree | e0] eqn:E.
  - pose proof (_evaluate_ast_not_ZeroDivisionError tree) as Hz.
    destruct (run (_evaluate_ast tree)) as [v | e1]; [ discriminate | ].
    destruct e1; simpl; intros H; inversion H; subst;
      repeat split; try discriminate; try congruence; eauto.
  - destruct e0; simpl; intros H; inversion H; subst;
      repeat split; try discriminate; try congruence; eauto.
Qed.

End Raised.

(** ** Exceptions that [safe_eval] lets through *)

(** C2.  [10**400/1] parses and passes the whitelist, and the division
    raises [OverflowError]; only [ZeroDivisionError] is caught around the
    operator call and only [SyntaxError] and [EvaluationError] in
    [safe_eval], so the caller receives [OverflowError]: neither a number
    nor an [EvaluationError].  ([1/0] next to it is turned into an
    [EvaluationError].) *)
Theorem C2_overflow_error_escapes {platform : Platform} :
  ast_parse "10**400/1" =
    Return (Expression (BinOp (BinOp (Constant (CInt 10)) Pow (Constant (CInt 400)))
                          Div (Constant (CInt 1)))) /\
  run (safe_eval "10**400/1") = Raise OverflowError /\
  run (safe_eval "1/0") = Raise division_by_zero.
Proof. repeat split; vm_compute; reflexivity. Qed.

(** C1.  [10**400/1 + x] holds an identifier reference; the left operand
    of [+] is evaluated first and raises [OverflowError], which reaches the
    caller in place of an [EvaluationError].  With the identifier on the
    left, [x + 10**400/1], the caller receives the [EvaluationError]. *)
Theorem C1_overflow_before_identifier {platform : Platform} :
  occurs (Name "x")
    (Expression (BinOp (BinOp (BinOp (Constant (CInt 10)) Pow (Constant (CInt 400)))
                          Div (Constant (CInt 1)))
                   Add (Name "x"))) /\
  ast_parse "10**400/1 + x" =
    Return (Expression (BinOp (BinOp (BinOp (Constant (CInt 10)) Pow (Constant (CInt 400)))
                                 Div (Constant (CInt 1)))
                          Add (Name "x"))) /\
  run (safe_eval "10**400/1 + x") = Raise OverflowError /\
  run (safe_eval "x + 10**400/1") = Raise unsupported_expression.
Proof.
  split.
  - eapply occurs_below; [ apply child_Expression | ].
    eapply occurs_below; [ apply child_BinOp_right | apply occurs_here ].
  - repeat split; vm_compute; reflexivity.
Qed.

(** C3.  In [10**400/0.0], [10**400//0.0] and [10**400%0.0] the right
    operand evaluates to zero and the left one to an integer; converting
    that integer to a double raises [OverflowError] before the divisor is
    looked at, and the caller receives [OverflowError] in place of the
    division-by-zero [EvaluationError] that [1/0.0] gives. *)
Theorem C3_overflow_before_zero_divisor {platform : Platform} :
  run (_evaluate_ast (Constant (CFloat zero))) = Return (PyFloat zero) /\
  run (safe_eval "0.0") = Return (PyFloat zero) /\
  run (safe_eval "10**400/0.0") = Raise OverflowError /\
  run (safe_eval "10**400//0.0") = Raise OverflowError /\
  run (safe_eval "10**400%0.0") = Raise OverflowError /\
  run (safe_eval "1/0.0") = Raise division_by_zero.
Proof. repeat split; vm_compute; reflexivity. Qed.

(** C4.  The literal [True] is a [bool], and [isinstance(True, (int,
    float))] holds: [safe_eval] returns it, and computes with it as the
    integer one.  String, none-value and complex literals are rejected. *)
Theorem C4_boolean_literal_accepted {platform : Platform} :
  ast_parse "True" = Return (Expression (Constant (CBool true))) /\
  run (safe_eval "True") = Return (PyBool true) /\
  run (safe_eval "True + True") = Return (PyInt 2) /\
  run (safe_eval "False") = Return (PyBool false) /\
  run (safe_eval "'oops'") = Raise unsupported_constant /\
  run (safe_eval "None") = Raise unsupported_constant /\
  run (safe_eval "1j") = Raise unsupported_constant.
Proof. repeat split; vm_compute; reflexivity. Qed.

(** Every literal that is no [int], [bool] or [float] is rejected where
    the walk meets it. *)
Lemma other_constants_rejected {platform : Platform} (value : constant) :
  match value with CInt _ | CBool _ | CFloat _ => False | _ => True end ->
  run (_evaluate_ast (Constant value)) =
  Raise (EvaluationError "Unsupported constant" None).
Proof. destruct value; simpl; intros []; reflexivity. Qed.

(** ** The grammar on arithmetic expressions *)

Module UnparseFacts.

Import Parser Unparse.

Local Open Scope nat_scope.

Lemma follows_le (k k' : nat) (rest : list token) :
  k' <= k -> follows k rest -> follows k' rest.
Proof.
  unfold follows. destruct rest as [| t rest]; [ auto | ].
  destruct (continuation t); [ lia | auto ].
Qed.

(** No token continues at [factor]. *)
Lemma follows_2_3 (rest : list token) : follows 2 rest -> follows 3 rest.
Proof.
  unfold follows. destruct rest as [| t rest]; [ auto | ].
  destruct t; simpl; lia.
Qed.

Lemma plain_opening ts : plain ts -> opening ts.
Proof. destruct ts as [| [] ?]; simpl; auto. Qed.

Lemma binary_tail_exit operand level n lhs rest k :
  follows k rest -> 9 - level <= k -> 
  binary_tail operand level n lhs rest = Return (lhs, rest).
Proof.
  intros Hf Hk. destruct n, rest as [| t rest]; try reflexivity.
  simpl. simpl in Hf.
  destruct level as [|[|[|[|[|[|]]]]]]; destruct t; simpl in *; try reflexivity; lia.
Qed.

Lemma boolean_tail_exit operand sep n rest :
  match rest with t :: _ => sep t = false | [] => True end ->
  boolean_tail operand sep n rest = Return ([], rest).
Proof.
  intros H. destruct n, rest as [| t rest]; try reflexivity.
  simpl. rewrite H. reflexivity.
Qed.

Lemma comparison_tail_exit operand n rest :
  follows 10 rest -> comparison_tail operand n rest = Return ([], [], rest).
Proof.
  intros H. destruct n, rest as [| t rest]; try reflexivity.
  simpl. destruct t; simpl in *; try reflexivity; lia.
Qed.

Lemma trailers_exit expression n f rest :
  follows 1 rest -> trailers expression n f rest = Return (f, rest).
Proof.
  intros H. destruct n, rest as [| t rest]; try reflexivity.
  destruct t; simpl in *; try reflexivity; lia.
Qed.

(** A looser rule hands over to the next tighter one and stops where that
    one stopped. *)
Lemma parse_delegate (k f : nat) (ts rest : list token) (v : AST) :
  k < 13 ->
  parse f (rule_at k) ts = Return (v, rest) ->
  follows (S k) rest ->
  (S k = 3 -> plain ts) -> opening ts ->
  parse (S f) (rule_at (S k)) ts = Return (v, rest).
Proof.
  intros Hk Hp Hf Hplain Hopen.
  destruct k as [|[|[|[|[|[|[|[|[|[|[|[|[|k]]]]]]]]]]]]]; try lia;
    simpl in Hp |- *; try rewrite Hp.
  all: try (erewrite binary_tail_exit by (try eassumption; simpl; lia); reflexivity).
  - erewrite trailers_exit; [ reflexivity | ]. assumption.
  - destruct rest as [| [] rest]; simpl in Hf; try reflexivity; lia.
  - specialize (Hplain eq_refl). destruct ts as [| [] ts]; simpl in Hplain; try contradiction; reflexivity.
  - rewrite comparison_tail_exit by assumption. reflexivity.
  - destruct ts as [| [] ts]; simpl in Hopen; try contradiction; first [ reflexivity | assumption ].
  - rewrite boolean_tail_exit; [ reflexivity | ].
    destruct rest as [| [] rest]; simpl in Hf; try reflexivity; lia.
  - rewrite boolean_tail_exit; [ reflexivity | ].
    destruct rest as [| [] rest]; simpl in Hf; try reflexivity; lia.
Qed.

Lemma tokens_opening (e : AST) (rest : list token) :
  arithmetic e = true ->
  opening (tokens_of e ++ rest) /\ (rank_of e < 3 -> plain (tokens_of e ++ rest)).
Proof.
  revert rest. induction e; intros rest He; simpl in He; try discriminate.
  - destruct value; try discriminate. simpl. auto.
  - destruct op; try discriminate; simpl; (split; [ exact I | lia ]).
  - apply andb_true_iff in He as [He Hr]. apply andb_true_iff in He as [Hop Hl].
    simpl. rewrite <- app_assoc.
    remember ((operator_token op :: wrap (right_rank op) e2 (tokens_of e2)) ++ rest)
      as rest' eqn:Erest. clear Erest.
    unfold wrap. destruct (left_rank op <? rank_of e1) eqn:E.
    + simpl. split; [ exact I | intros _; exact I ].
    + destruct (IHe1 rest' Hl) as [Ho Hp].
      split; [ exact Ho | ]. intros Hk. apply Hp.
      apply Nat.ltb_ge in E. destruct op; simpl in *; try discriminate; lia.
Qed.

Lemma wrap_opening (k : nat) (e : AST) (rest : list token) :
  arithmetic e = true ->
  opening (wrap k e (tokens_of e) ++ rest) /\
  (k < 3 -> plain (wrap k e (tokens_of e) ++ rest)).
Proof.
  intros He. unfold wrap. destruct (k <? rank_of e) eqn:E.
  - simpl. split; [ exact I | intros _; exact I ].
  - apply Nat.ltb_ge in E. destruct (tokens_opening e rest He) as [Ho Hp].
    split; [ exact Ho | intros; apply Hp; lia ].
Qed.

(** From the rule that reads a text up to any looser rule. *)
Lemma climb (ts rest : list token) (v : AST) (r b : nat) :
  opening ts -> (r < 3 -> plain ts) ->
  (forall f, b <= f -> parse f (rule_at r) ts = Return (v, rest)) ->
  forall k, r <= k <= 13 -> follows k rest ->
  forall f, b + (k - r) <= f -> parse f (rule_at k) ts = Return (v, rest).
Proof.
  intros Ho Hp Hr k. induction k as [| k IH]; intros Hk Hf f Hb.
  - assert (r = 0) by lia. subst r. apply Hr. lia.
  - destruct (Nat.eq_dec r (S k)) as [-> | Hne].
    + apply Hr. lia.
    + destruct f as [| f]; [ lia | ].
      apply parse_delegate; try lia; try assumption.
      * apply IH; [ lia | eapply follows_le; [ | eassumption ]; lia | lia ].
      * intros Hk3. apply Hp. lia.
Qed.

Lemma parse_parenthesised (e : AST) (rest : list token) (f : nat) :
  opening (tokens_of e ++ RPAR :: rest) ->
  parse f disjunction (tokens_of e ++ RPAR :: rest) = Return (e, RPAR :: rest) ->
  parse (S f) atom (LPAR :: tokens_of e ++ RPAR :: rest) = Return (e, rest).
Proof.
  intros Ho Hp. simpl.
  destruct (tokens_of e ++ RPAR :: rest) as [| t ts] eqn:E; [ contradiction | ].
  destruct t; simpl in Ho; try contradiction; rewrite Hp; reflexivity.
Qed.

(** What holds at the rule of [e] itself holds at every rule. *)
Lemma reads_from_own (e : AST) :
  arithmetic e = true ->
  (forall f rest, follows (rank_of e) rest -> rank_of e + 1 + 20 * depth e <= f ->
     parse f (rule_at (rank_of e)) (tokens_of e ++ rest) = Return (e, rest)) ->
  reads e.
Proof.
  intros He Hown k f rest Hk Hf Hn.
  assert (Hrank : rank_of e <= 5).
  { destruct e; simpl; try lia. destruct op; simpl; lia. }
  unfold need in Hn. unfold wrap. destruct (k <? rank_of e) eqn:E.
  - apply Nat.ltb_lt in E.
    replace ((LPAR :: tokens_of e ++ [RPAR]) ++ rest)
      with (LPAR :: tokens_of e ++ RPAR :: rest)
      by (simpl; rewrite <- app_assoc; reflexivity).
    apply (climb _ rest e 0 (15 + 20 * depth e)); try lia; try assumption;
      try exact I; try (intros _; exact I).
    intros f0 Hf0. destruct f0 as [| f0]; [ lia | ].
    destruct (tokens_opening e (RPAR :: rest) He) as [Ho Hp].
    apply parse_parenthesised; [ assumption | ].
    change disjunction with (rule_at 13).
    apply (climb _ (RPAR :: rest) e (rank_of e) (rank_of e + 1 + 20 * depth e));
      try lia; try assumption; try exact I.
    intros f1 Hf1. apply Hown; [ exact I | assumption ].
  - apply Nat.ltb_ge in E.
    destruct (tokens_opening e rest He) as [Ho Hp].
    apply (climb _ rest e (rank_of e) (rank_of e + 1 + 20 * depth e));
      try lia; try assumption.
    intros f1 Hf1. apply Hown; [ | assumption ].
    eapply follows_le; [ | eassumption ]. lia.
Qed.

(** One turn of the loop of a sum or term. *)
Lemma loop_step (l r : AST) (op : operator) (k f : nat) (rest : list token) :
  arithmetic_operator op = true -> operator_rank op = k -> k = 4 \/ k = 5 ->
  loops l -> reads r ->
  follows (k - 1) rest -> k + 1 + 20 * S (Nat.max (depth l) (depth r)) <= S f ->
  exists n, length rest <= n /\
    parse (S f) (rule_at k) (tokens_of (BinOp l op r) ++ rest)
    = binary_tail (parse f (rule_at (k - 1))) (9 - k) n (BinOp l op r) rest.
Proof.
  intros Hop Hrank Hk Hl Hr Hf Hn.
  assert (Hlr : left_rank op = k /\ right_rank op = k - 1)
    by (destruct op; simpl in *; try discriminate; lia).
  destruct Hlr as [Hlk Hrk].
  simpl tokens_of. rewrite Hlk, Hrk, <- app_assoc. simpl app.
  destruct (Hl k f (operator_token op :: wrap (k - 1) r (tokens_of r) ++ rest) Hk)
    as (n & Hlen & ->).
  - destruct op; simpl in *; try discriminate; lia.
  - unfold need. destruct (k <? rank_of l); lia.
  - simpl in Hlen. destruct n as [| n]; [ lia | ].
    exists n. split.
    + rewrite length_app in Hlen. lia.
    + assert (Hbin : binary_operator (9 - k) (operator_token op) = Some op)
        by (destruct op; simpl in *; try discriminate;
            destruct Hk; subst k; try discriminate; reflexivity).
      simpl. rewrite Hbin.
      rewrite (Hr (k - 1) f rest); [ reflexivity | lia | assumption | ].
      unfold need. destruct (k - 1 <? rank_of r); lia.
Qed.

(** Entering the loop of a sum or term with an operand of another rank. *)
Lemma loop_enter (e : AST) (k f : nat) (rest : list token) :
  reads e -> rank_of e <> k -> k = 4 \/ k = 5 ->
  follows (k - 1) rest -> need k e <= S f ->
  exists n, length rest <= n /\
    parse (S f) (rule_at k) (wrap k e (tokens_of e) ++ rest)
    = binary_tail (parse f (rule_at (k - 1))) (9 - k) n e rest.
Proof.
  intros Hr Hne Hk Hf Hn. exists (length rest). split; [ lia | ].
  assert (Hw : wrap k e (tokens_of e) = wrap (k - 1) e (tokens_of e)).
  { unfold wrap. destruct (k <? rank_of e) eqn:E1, (k - 1 <? rank_of e) eqn:E2;
      try reflexivity;
      apply Nat.ltb_lt in E1 || apply Nat.ltb_ge in E1;
      apply Nat.ltb_lt in E2 || apply Nat.ltb_ge in E2; lia. }
  assert (Hread : parse f (rule_at (k - 1)) (wrap (k - 1) e (tokens_of e) ++ rest)
                  = Return (e, rest)).
  { apply Hr; [ lia | assumption | ].
    unfold need in *.
    destruct (k <? rank_of e) eqn:E1, (k - 1 <? rank_of e) eqn:E2;
      apply Nat.ltb_lt in E1 || apply Nat.ltb_ge in E1;
      apply Nat.ltb_lt in E2 || apply Nat.ltb_ge in E2; lia. }
  rewrite Hw. destruct Hk; subst k; simpl in *; rewrite Hread; reflexivity.
Qed.

Theorem grammar (e : AST) : arithmetic e = true -> reads e /\ loops e.
Proof.
  induction e; intros He; simpl in He; try discriminate.
  - (* a literal *)
    destruct value; try discriminate.
    assert (Hreads : reads (Constant (CInt z))).
    { apply reads_from_own; [ exact He | ].
      intros f rest _ Hf. destruct f; [ simpl in Hf; lia | reflexivity ]. }
    split; [ exact Hreads | ].
    intros k f rest Hk. apply loop_enter; try assumption.
    simpl. lia.
  - (* a sign *)
    apply andb_true_iff in He as [Hop Hx].
    destruct (IHe Hx) as [Hrx _].
    assert (Hreads : reads (UnaryOp op e)).
    { apply reads_from_own; [ simpl; rewrite Hop, Hx; reflexivity | ].
      intros f rest Hf Hn. simpl in Hn. destruct f as [| f]; [ lia | ].
      simpl tokens_of. simpl app.
      assert (Hread : parse f factor (wrap 3 e (tokens_of e) ++ rest) = Return (e, rest)).
      { apply (Hrx 3); [ lia | exact Hf | ].
        unfold need. destruct (3 <? rank_of e); lia. }
      destruct op; try discriminate; simpl; rewrite Hread; reflexivity. }
    split; [ exact Hreads | ].
    intros k f rest Hk. apply loop_enter; try assumption.
    simpl. lia.
  - (* a binary operator *)
    apply andb_true_iff in He as [He Hr]. apply andb_true_iff in He as [Hop Hl].
    destruct (IHe1 Hl) as [Hrl Hll]. destruct (IHe2 Hr) as [Hrr _].
    assert (Harith : arithmetic (BinOp e1 op e2) = true)
      by (simpl; rewrite Hop, Hl, Hr; reflexivity).
    destruct (Nat.eq_dec (operator_rank op) 2) as [Hpow | Hnotpow].
    + (* a power *)
      assert (op = Pow) by (destruct op; simpl in *; try discriminate; reflexivity).
      subst op.
      assert (Hreads : reads (BinOp e1 Pow e2)).
      { apply reads_from_own; [ exact Harith | ].
        intros f rest Hf Hn. simpl in Hn, Hf. destruct f as [| f]; [ lia | ].
        simpl tokens_of. rewrite <- app_assoc. simpl app.
        assert (Hbase : parse f primary
                          (wrap 1 e1 (tokens_of e1)
                             ++ DOUBLESTAR :: wrap 3 e2 (tokens_of e2) ++ rest)
                        = Return (e1, DOUBLESTAR :: wrap 3 e2 (tokens_of e2) ++ rest)).
        { apply (Hrl 1); [ lia | simpl; lia | ].
          unfold need. destruct (1 <? rank_of e1); lia. }
        assert (Hexp : parse f factor (wrap 3 e2 (tokens_of e2) ++ rest)
                       = Return (e2, rest)).
        { apply (Hrr 3); [ lia | apply follows_2_3; exact Hf | ].
          unfold need. destruct (3 <? rank_of e2); lia. }
        simpl. rewrite Hbase, Hexp. reflexivity. }
      split; [ exact Hreads | ].
      intros k f rest Hk. apply loop_enter; try assumption.
      simpl. lia.
    + (* a sum or a term *)
      assert (Hk : operator_rank op = 4 \/ operator_rank op = 5)
        by (destruct op; simpl in *; try discriminate; lia).
      assert (Hloop : forall f rest,
                follows (operator_rank op - 1) rest ->
                operator_rank op + 1 + 20 * S (Nat.max (depth e1) (depth e2)) <= S f ->
                exists n, length rest <= n /\
                  parse (S f) (rule_at (operator_rank op))
                    (tokens_of (BinOp e1 op e2) ++ rest)
                  = binary_tail (parse f (rule_at (operator_rank op - 1)))
                      (9 - operator_rank op) n (BinOp e1 op e2) rest).
      { intros f rest Hf Hn. apply loop_step; auto. }
      assert (Hreads : reads (BinOp e1 op e2)).
      { apply reads_from_own; [ exact Harith | ].
        intros f rest Hf Hn. simpl rank_of in *. simpl depth in Hn.
        destruct f as [| f]; [ lia | ].
        destruct (Hloop f rest) as (n & _ & ->);
          [ eapply follows_le; [ | exact Hf ]; lia | exact Hn | ].
        eapply binary_tail_exit; [ exact Hf | lia ]. }
      split; [ exact Hreads | ].
      intros k f rest Hk' Hf Hn.
      destruct (Nat.eq_dec (operator_rank op) k) as [Heq | Hne].
      * subst k. unfold wrap. simpl rank_of. rewrite Nat.ltb_irrefl.
        apply Hloop; [ exact Hf | ].
        unfold need in Hn. simpl rank_of in Hn. rewrite Nat.ltb_irrefl in Hn.
        simpl depth in Hn. lia.
      * apply loop_enter; assumption.
Qed.

Lemma wrap_length (k : nat) (e : AST) (body : list token) :
  length body <= length (wrap k e body).
Proof.
  unfold wrap. destruct (k <? rank_of e); simpl; rewrite ?length_app; simpl; lia.
Qed.

Lemma depth_tokens (e : AST) :
  arithmetic e = true -> depth e < length (tokens_of e).
Proof.
  induction e; intros He; simpl in He; try discriminate.
  - destruct value; try discriminate. simpl. lia.
  - apply andb_true_iff in He as [_ Hx]. specialize (IHe Hx).
    pose proof (wrap_length 3 e (tokens_of e)). simpl. lia.
  - apply andb_true_iff in He as [He Hr]. apply andb_true_iff in He as [_ Hl].
    specialize (IHe1 Hl). specialize (IHe2 Hr).
    pose proof (wrap_length (left_rank op) e1 (tokens_of e1)).
    pose proof (wrap_length (right_rank op) e2 (tokens_of e2)).
    simpl. rewrite length_app. simpl. lia.
Qed.

(** The tokens of an arithmetic expression are read back as the
    expression. *)
Theorem parse_tokens_of (e : AST) :
  arithmetic e = true ->
  parse (20 * S (length (tokens_of e))) disjunction (tokens_of e) = Return (e, []).
Proof.
  intros He. destruct (grammar e He) as [Hr _].
  pose proof (depth_tokens e He) as Hd.
  assert (Hrank : rank_of e <= 5).
  { destruct e; simpl; try lia. destruct op; simpl; lia. }
  specialize (Hr 13 (20 * S (length (tokens_of e))) []).
  unfold wrap, need in Hr.
  assert (E : (13 <? rank_of e) = false) by (apply Nat.ltb_ge; lia).
  rewrite E, app_nil_r in Hr. apply Hr; [ lia | exact I | lia ].
Qed.

Local Open Scope char_scope.
Local Open Scope Z_scope.

Lemma digit_char_value (d : Z) :
  0 <= d < 10 -> Z.of_N (code (digit_char d) - 48) = d.
Proof.
  intros H.
  assert (d = 0 \/ d = 1 \/ d = 2 \/ d = 3 \/ d = 4 \/ d = 5 \/ d = 6 \/ d = 7
          \/ d = 8 \/ d = 9) as Hd by lia.
  repeat (destruct Hd as [-> | Hd]; [ reflexivity | ]). subst. reflexivity.
Qed.

Lemma digit_char_is_digit (d : Z) : is_digit (digit_char d) = true.
Proof.
  destruct d as [| p | p]; try reflexivity.
  do 4 (destruct p as [p | p |]; try reflexivity).
Qed.

Lemma log2_div10 (n : Z) : 10 <= n -> Z.log2 (n / 10) < Z.log2 n.
Proof.
  intros Hn.
  assert (0 < n / 10) by (apply Z.div_str_pos; lia).
  apply Z.log2_lt_pow2; [ assumption | ].
  destruct (Z.log2_spec n) as [Hlo Hhi]; [ lia | ].
  apply Z.div_lt_upper_bound; [ lia | ].
  rewrite Z.pow_succ_r in Hhi by (apply Z.log2_nonneg). lia.
Qed.

Lemma decimal_digits_value (fuel : nat) (n : Z) (acc : list ascii) :
  0 <= n -> (Z.to_nat (Z.log2 n) < fuel)%nat ->
  fold_left step (decimal_digits fuel n acc) 0 = fold_left step acc n.
Proof.
  revert n acc. induction fuel as [| fuel IH]; intros n acc Hn Hf; [ lia | ].
  simpl. destruct (Z.ltb_spec n 10) as [Hlt | Hge].
  - simpl. unfold step at 2. rewrite digit_char_value by lia. reflexivity.
  - rewrite IH.
    + simpl. unfold step at 2.
      rewrite digit_char_value by (apply Z.mod_pos_bound; lia).
      f_equal. pose proof (Z.div_mod n 10). lia.
    + apply Z.div_pos; lia.
    + pose proof (log2_div10 n Hge). pose proof (Z.log2_nonneg (n / 10)). lia.
Qed.

Lemma decimal_value (n : Z) : 0 <= n -> digits_value (decimal n) = n.
Proof.
  intros Hn. unfold digits_value, decimal.
  change (fold_left step (decimal_digits (S (Z.to_nat (Z.log2 n))) n []) 0 = n).
  rewrite decimal_digits_value by lia. reflexivity.
Qed.

Lemma decimal_digits_are_digits (fuel : nat) (n : Z) (acc : list ascii) :
  forallb is_digit acc = true ->
  forallb is_digit (decimal_digits fuel n acc) = true.
Proof.
  revert n acc. induction fuel as [| fuel IH]; intros n acc Hacc; [ exact Hacc | ].
  simpl. destruct (n <? 10).
  - simpl. rewrite digit_char_is_digit. exact Hacc.
  - apply IH. simpl. rewrite digit_char_is_digit. exact Hacc.
Qed.

Lemma decimal_are_digits (n : Z) : forallb is_digit (decimal n) = true.
Proof. apply decimal_digits_are_digits. reflexivity. Qed.

(** The first digit of a positive number is no zero. *)
Lemma decimal_digits_head (fuel : nat) (n : Z) (acc : list ascii) :
  0 <= n -> (Z.to_nat (Z.log2 n) < fuel)%nat ->
  exists c cs, decimal_digits fuel n acc = c :: cs /\ is_digit c = true /\
               (0 < n -> Ascii.eqb "0" c = false).
Proof.
  revert n acc. induction fuel as [| fuel IH]; intros n acc Hn Hf; [ lia | ].
  simpl. destruct (Z.ltb_spec n 10) as [Hlt | Hge].
  - exists (digit_char n), acc. split; [ reflexivity | ].
    split; [ apply digit_char_is_digit | ]. intros Hpos.
    assert (n = 1 \/ n = 2 \/ n = 3 \/ n = 4 \/ n = 5 \/ n = 6 \/ n = 7
            \/ n = 8 \/ n = 9) as Hd by lia.
    repeat (destruct Hd as [-> | Hd]; [ reflexivity | ]). subst. reflexivity.
  - destruct (IH (n / 10) (digit_char (n mod 10) :: acc)) as (c & cs & E & Hc & Hz).
    + apply Z.div_pos; lia.
    + pose proof (log2_div10 n Hge). pose proof (Z.log2_nonneg (n / 10)). lia.
    + exists c, cs. split; [ exact E | ]. split; [ exact Hc | ].
      intros _. apply Hz. apply Z.div_str_pos. lia.
Qed.

Lemma decimal_head (n : Z) :
  0 <= n ->
  exists c cs, decimal n = c :: cs /\ is_digit c = true /\
               (0 < n -> Ascii.eqb "0" c = false).
Proof. intros Hn. apply decimal_digits_head; [ assumption | lia ]. Qed.

Lemma span_digits (ds rest : list ascii) :
  forallb is_digit ds = true -> spaced rest ->
  span is_digit (ds ++ rest) = (ds, rest).
Proof.
  intros Hds Hrest. induction ds as [| d ds IH]; simpl.
  - destruct rest as [| c rest]; [ reflexivity | ].
    simpl in Hrest. subst c. reflexivity.
  - simpl in Hds. apply andb_true_iff in Hds as [Hd Hds].
    rewrite Hd, (IH Hds). reflexivity.
Qed.

Lemma lex_number_decimal (z : Z) (rest : list ascii) :
  0 <= z -> spaced rest ->
  lex_number (decimal z ++ rest) = Return (NUMBER (CInt z), rest).
Proof.
  intros Hz Hrest. unfold lex_number.
  rewrite (span_digits _ _ (decimal_are_digits z) Hrest).
  destruct (decimal_head z Hz) as (c & cs & E & Hc & Hzero).
  assert (Hvalue : digits_value (decimal z ++ []) = z)
    by (rewrite app_nil_r; apply decimal_value; assumption).
  destruct rest as [| s rest].
  - simpl. rewrite Hvalue, E. unfold starts_with.
    destruct (Z.eqb_spec z 0) as [-> | Hne].
    + rewrite andb_false_r. reflexivity.
    + rewrite Hzero by lia. reflexivity.
  - simpl in Hrest. subst s. simpl. rewrite Hvalue, E. unfold starts_with.
    destruct (Z.eqb_spec z 0) as [-> | Hne].
    + rewrite andb_false_r. reflexivity.
    + rewrite Hzero by lia. reflexivity.
Qed.

Lemma lex_token_digit (c : ascii) (cs : list ascii) :
  is_digit c = true -> lex_token (c :: cs) = lex_number (c :: cs).
Proof. intros H. unfold lex_token. rewrite H. reflexivity. Qed.

Lemma lex_token_text (t : token) (rest : list ascii) :
  lexable t -> spaced rest ->
  lex_token (token_text t ++ rest) = Return (t, rest).
Proof.
  intros Ht Hrest.
  destruct t; simpl in Ht; try contradiction.
  - destruct value; try contradiction. simpl token_text.
    destruct (decimal_head z Ht) as (c & cs & E & Hc & _).
    pose proof (lex_number_decimal z rest Ht Hrest) as Hnum.
    rewrite E in *. change ((c :: cs) ++ rest) with (c :: cs ++ rest) in *.
    rewrite lex_token_digit by assumption. exact Hnum.
  - destruct rest as [| s rest]; [ reflexivity | simpl in Hrest; subst s; reflexivity ].
  - destruct rest as [| s rest]; [ reflexivity | simpl in Hrest; subst s; reflexivity ].
  - destruct rest as [| s rest]; [ reflexivity | simpl in Hrest; subst s; reflexivity ].
  - destruct rest as [| s rest]; [ reflexivity | simpl in Hrest; subst s; reflexivity ].
  - destruct rest as [| s rest]; [ reflexivity | simpl in Hrest; subst s; reflexivity ].
  - destruct rest as [| s rest]; [ reflexivity | simpl in Hrest; subst s; reflexivity ].
  - destruct rest as [| s rest]; [ reflexivity | simpl in Hrest; subst s; reflexivity ].
  - reflexivity.
  - reflexivity.
Qed.

(** A token starts with a character of the alphabet that is no space, and
    is made of such characters. *)
Lemma token_text_head (t : token) :
  lexable t ->
  exists c cs, token_text t = c :: cs /\ Ascii.eqb c " " = false.
Proof.
  intros Ht. destruct t; simpl in Ht; try contradiction;
    try (eexists _, _; split; reflexivity).
  destruct value; try contradiction.
  destruct (decimal_head z Ht) as (c & cs & E & Hc & _).
  exists c, cs. split; [ exact E | ].
  destruct (Ascii.eqb_spec c " ") as [-> | ]; [ discriminate | reflexivity ].
Qed.

Lemma is_digit_in_alphabet (cs : list ascii) :
  forallb is_digit cs = true -> forallb in_alphabet cs = true.
Proof.
  induction cs as [| c cs IH]; [ reflexivity | ]. simpl. intros H.
  apply andb_true_iff in H as [Hc Hcs]. rewrite (IH Hcs), andb_true_r.
  unfold in_alphabet, is_name_char. rewrite Hc.
  rewrite !orb_true_r. reflexivity.
Qed.

Lemma token_text_in_alphabet (t : token) :
  lexable t -> forallb in_alphabet (token_text t) = true.
Proof.
  intros Ht. destruct t; simpl in Ht; try contradiction; try reflexivity.
  destruct value; try contradiction.
  apply is_digit_in_alphabet, decimal_are_digits.
Qed.

Lemma text_of_cons (t : token) (ts : list token) :
  text_of (t :: ts) =
  token_text t ++ match ts with [] => [] | _ => " " :: text_of ts end.
Proof. destruct ts; simpl; [ rewrite app_nil_r | ]; reflexivity. Qed.

Lemma text_in_alphabet (ts : list token) :
  Forall lexable ts -> forallb in_alphabet (text_of ts) = true.
Proof.
  induction 1 as [| t ts Ht Hts IH]; [ reflexivity | ].
  rewrite text_of_cons, forallb_app, token_text_in_alphabet by assumption.
  destruct ts; [ reflexivity | ]. simpl in *. exact IH.
Qed.

Lemma tokenize_token (fuel : nat) (c : ascii) (cs : list ascii) :
  Ascii.eqb c " " = false ->
  tokenize (S fuel) (c :: cs) =
  match lex_token (c :: cs) with
  | Raise e => Raise e
  | Return (t, rest) =>
      match tokenize fuel rest with
      | Raise e => Raise e
      | Return ts => Return (t :: ts)
      end
  end.
Proof. intros H. simpl. rewrite H. reflexivity. Qed.

(** The tokenizer reads a spaced text back as its tokens. *)
Lemma tokenize_text (ts : list token) :
  Forall lexable ts ->
  forall fuel, (length (text_of ts) < fuel)%nat ->
  tokenize fuel (text_of ts) = Return ts.
Proof.
  induction 1 as [| t ts Ht Hts IH]; intros fuel Hfuel.
  - destruct fuel; [ simpl in Hfuel; lia | reflexivity ].
  - rewrite text_of_cons in *.
    destruct (token_text_head t Ht) as (c & cs & E & Hc).
    destruct fuel as [| fuel]; [ lia | ].
    rewrite length_app in Hfuel.
    assert (Hlen : (1 <= length (token_text t))%nat) by (rewrite E; simpl; lia).
    assert (Hlex : lex_token
                     (token_text t ++ match ts with
                                      | [] => []
                                      | _ :: _ => " " :: text_of ts
                                      end)
                   = Return (t, match ts with
                                | [] => []
                                | _ :: _ => " " :: text_of ts
                                end))
      by (apply lex_token_text; [ assumption | destruct ts; simpl; auto ]).
    rewrite E in Hlex |- *.
    change ((c :: cs) ++ ?x) with (c :: cs ++ x) in Hlex |- *.
    rewrite tokenize_token, Hlex by assumption.
    destruct ts as [| t' ts'].
    + destruct fuel; [ lia | reflexivity ].
    + destruct fuel as [| fuel]; [ simpl in Hfuel; lia | ].
      change (tokenize (S fuel) (" " :: text_of (t' :: ts')))
        with (tokenize fuel (text_of (t' :: ts'))).
      rewrite IH; [ reflexivity | ]. simpl in Hfuel |- *. lia.
Qed.

Lemma wrap_lexable (k : nat) (e : AST) (body : list token) :
  Forall lexable body -> Forall lexable (wrap k e body).
Proof.
  intros H. unfold wrap. destruct (k <? rank_of e)%nat; [ | exact H ].
  constructor; [ exact I | ]. apply Forall_app. split; [ exact H | ].
  constructor; [ exact I | constructor ].
Qed.

Lemma tokens_lexable (e : AST) :
  arithmetic e = true -> Forall lexable (tokens_of e).
Proof.
  induction e; intros He; simpl in He; try discriminate.
  - destruct value; try discriminate. constructor; [ | constructor ].
    simpl. apply Z.leb_le. exact He.
  - apply andb_true_iff in He as [Hop Hx]. simpl. constructor.
    + destruct op; try discriminate; exact I.
    + apply wrap_lexable. auto.
  - apply andb_true_iff in He as [He Hr]. apply andb_true_iff in He as [Hop Hl].
    simpl. apply Forall_app. split; [ apply wrap_lexable; auto | ].
    constructor; [ destruct op; try discriminate; exact I | ].
    apply wrap_lexable. auto.
Qed.

Lemma text_not_indented (ts : list token) :
  Forall lexable ts -> starts_with (Ascii.eqb " ") (text_of ts) = false.
Proof.
  intros H. destruct H as [| t ts Ht Hts]; [ reflexivity | ].
  rewrite text_of_cons. destruct (token_text_head t Ht) as (c & cs & E & Hc).
  rewrite E. change (Ascii.eqb " " c = false).
  rewrite Ascii.eqb_sym. exact Hc.
Qed.

Lemma length_string_of_list_ascii (cs : list ascii) :
  String.length (string_of_list_ascii cs) = length cs.
Proof. induction cs as [| c cs IH]; simpl; [ | rewrite IH ]; reflexivity. Qed.

(** Written out and parsed, an arithmetic expression comes back. *)
Theorem parse_unparse (e : AST) :
  arithmetic e = true ->
  (String.length (unparse e) <= max_text_length)%nat ->
  ast_parse (unparse e) = Return (Expression e).
Proof.
  intros He Hlen. unfold ast_parse, parse_eval, unparse in *.
  rewrite length_string_of_list_ascii in Hlen.
  rewrite list_ascii_of_string_of_list_ascii.
  pose proof (tokens_lexable e He) as Hlex.
  destruct (Nat.ltb_spec max_text_length (length (text_of (tokens_of e))));
    [ lia | ].
  rewrite text_in_alphabet, text_not_indented by assumption. cbn [orb negb].
  rewrite tokenize_text by (auto; lia).
  rewrite parse_tokens_of by assumption. reflexivity.
Qed.

End UnparseFacts.

(** ** Integer arithmetic is exact *)

Lemma integer_value_exact {platform : Platform} (node : AST) (z : Z) :
  integer_value node = Some z -> run (_evaluate_ast node) = Return (PyInt z).
Proof.
  revert z. induction node; intros z H; simpl in H; try discriminate.
  - rewrite run_Expression. auto.
  - destruct value; try discriminate. inversion H. reflexivity.
  - rewrite run_UnaryOp. destruct op; try discriminate; simpl.
    + rewrite (IHnode z H). reflexivity.
    + destruct (integer_value node) as [a |]; [ | discriminate ].
      inversion H. rewrite (IHnode a eq_refl). reflexivity.
  - rewrite run_BinOp.
    destruct (integer_value node1) as [a |]; [ | discriminate ].
    destruct (integer_value node2) as [b |]; [ | discriminate ].
    rewrite (IHnode1 a eq_refl), (IHnode2 b eq_refl).
    destruct op; try discriminate; simpl.
    + inversion H. reflexivity.
    + inversion H. reflexivity.
    + inversion H. reflexivity.
    + destruct (Z.eqb_spec b 0); [ discriminate | ]. inversion H.
      rewrite mod_int by assumption. rewrite Z.mod_eq by assumption. reflexivity.
    + unfold Operator.pow, Operator.dispatch. simpl.
      destruct (b <? 0); [ discriminate | ]. inversion H. reflexivity.
    + destruct (Z.eqb_spec b 0); [ discriminate | ]. inversion H.
      rewrite floordiv_int by assumption. reflexivity.
Qed.

Local Abbreviation lit z := (Constant (CInt z)).

(** C5, as stated, fails in three ways.  [1/0] is built from literals and
    [/] only and has no value.  [0.1+0.2] evaluates to a double that is
    not the number 3/10.  And [-2**2] evaluates to [-4]: read with the
    unary minus binding tighter than [**], as the claim has it, the text is
    [(-2)**2], whose value is [4]. *)
Lemma C5_counterexample :
  (forall v, run (platform := bare_platform) (safe_eval "1/0") <> Return v) /\
  (exists (f : float) (q : Q),
     run (platform := bare_platform) (safe_eval "0.1+0.2") = Return (PyFloat f) /\
     Float.exact f = Some q /\ ~ (q == 3 # 10)%Q) /\
  integer_value (BinOp (UnaryOp USub (lit 2)) Pow (lit 2)) = Some 4 /\
  run (platform := bare_platform) (safe_eval "-2**2") = Return (PyInt (-4)).
Proof.
  split; [ intros v H; vm_compute in H; discriminate | ].
  split; [ | split; vm_compute; reflexivity ].
  eexists _, _. split; [ vm_compute; reflexivity | ].
  split; [ reflexivity | ].
  intros H. vm_compute in H. discriminate.
Qed.

(** C5, amended.  An arithmetic expression over integer literals, written
    out with parentheses exactly where Python's grammar needs them, parses
    back to the same tree: [*], [/], [//], [%] bind tighter than [+], [-]
    and both group to the left; [**] groups to the right, binds tighter
    than a sign on its left and looser than a sign on its right;
    parentheses override.  And for every text whose tree is built from
    integer literals, [+], [-], [*], [//], [%], [**] and signs, with no
    zero divisor and no negative exponent, [safe_eval] returns exactly the
    integer value of that tree.  In particular [1+2*3] is [7], [10%3] is
    [1] and [-5 + 2] is [-3]. *)
Theorem C5_integer_arithmetic_exact {platform : Platform} :
  (forall e : AST,
     Unparse.arithmetic e = true ->
     (String.length (Unparse.unparse e) <= Parser.max_text_length)%nat ->
     ast_parse (Unparse.unparse e) = Return (Expression e)) /\
  (forall (text : string) (tree : AST) (z : Z),
     ast_parse text = Return tree -> integer_value tree = Some z ->
     run (safe_eval text) = Return (PyInt z)) /\
  run (safe_eval "1+2*3") = Return (PyInt 7) /\
  run (safe_eval "10%3") = Return (PyInt 1) /\
  run (safe_eval "-5 + 2") = Return (PyInt (-3)) /\
  Unparse.unparse (BinOp (lit 1) Add (BinOp (lit 2) Mult (lit 3))) = "1 + 2 * 3"%string /\
  Unparse.unparse (BinOp (BinOp (lit 1) Add (lit 2)) Mult (lit 3)) = "( 1 + 2 ) * 3"%string /\
  Unparse.unparse (BinOp (BinOp (lit 8) Sub (lit 4)) Add (lit 2)) = "8 - 4 + 2"%string /\
  Unparse.unparse (BinOp (lit 8) Sub (BinOp (lit 4) Add (lit 2))) = "8 - ( 4 + 2 )"%string /\
  Unparse.unparse (BinOp (BinOp (lit 8) FloorDiv (lit 4)) Mod (lit 2)) = "8 // 4 % 2"%string /\
  Unparse.unparse (BinOp (lit 8) Div (BinOp (lit 4) Mult (lit 2))) = "8 / ( 4 * 2 )"%string /\
  Unparse.unparse (BinOp (lit 2) Pow (BinOp (lit 3) Pow (lit 2))) = "2 ** 3 ** 2"%string /\
  Unparse.unparse (BinOp (BinOp (lit 2) Pow (lit 3)) Pow (lit 2)) = "( 2 ** 3 ) ** 2"%string /\
  Unparse.unparse (UnaryOp USub (BinOp (lit 2) Pow (lit 2))) = "- 2 ** 2"%string /\
  Unparse.unparse (BinOp (UnaryOp USub (lit 2)) Pow (lit 2)) = "( - 2 ) ** 2"%string /\
  Unparse.unparse (BinOp (lit 2) Pow (UnaryOp USub (lit 1))) = "2 ** - 1"%string /\
  Unparse.unparse (BinOp (UnaryOp USub (lit 2)) Mult (lit 3)) = "- 2 * 3"%string /\
  Unparse.unparse (UnaryOp USub (BinOp (lit 2) Mult (lit 3))) = "- ( 2 * 3 )"%string /\
  ast_parse "1+2*3" = Return (Expression (BinOp (lit 1) Add (BinOp (lit 2) Mult (lit 3)))) /\
  ast_parse "8-4+2" = Return (Expression (BinOp (BinOp (lit 8) Sub (lit 4)) Add (lit 2))) /\
  ast_parse "2**3**2" = Return (Expression (BinOp (lit 2) Pow (BinOp (lit 3) Pow (lit 2)))) /\
  ast_parse "-2**2" = Return (Expression (UnaryOp USub (BinOp (lit 2) Pow (lit 2)))) /\
  ast_parse "2**-1" = Return (Expression (BinOp (lit 2) Pow (UnaryOp USub (lit 1)))) /\
  ast_parse "(-2)**2" = Return (Expression (BinOp (UnaryOp USub (lit 2)) Pow (lit 2))).
Proof.
  split; [ exact UnparseFacts.parse_unparse | ].
  split.
  - intros text tree z Hp Hv. rewrite run_safe_eval, Hp.
    rewrite (integer_value_exact tree z Hv). reflexivity.
  - repeat split; vm_compute; reflexivity.
Qed.

Lemma C5_integer_arithmetic_exact_witness :
  let e := BinOp (BinOp (lit 2) Pow (BinOp (lit 3) Pow (lit 2))) Sub
             (BinOp (BinOp (lit 7) FloorDiv (lit 2)) Mult
                (BinOp (UnaryOp USub (lit 3)) Mod (lit 5))) in
  Unparse.unparse e = "2 ** 3 ** 2 - 7 // 2 * ( - 3 % 5 )"%string /\
  run (platform := bare_platform) (safe_eval (Unparse.unparse e)) = Return (PyInt 506).
Proof.
  intros e. split; [ reflexivity | ].
  pose proof (C5_integer_arithmetic_exact (platform := bare_platform))
    as (Hparse & Hvalue & _).
  apply (Hvalue (Unparse.unparse e) (Expression e) 506).
  - apply Hparse; [ reflexivity | vm_compute; lia ].
  - reflexivity.
Defined.

(** * Further properties *)

(** ** What the parser raises *)

Module ParserErrors.

Import Parser.

Ltac raised :=
  repeat match goal with
         | |- (let '(_, _) := ?p in _) = _ -> _ => destruct p
         | |- (if ?c then _ else _) = _ -> _ => destruct c
         | |- match ?x with _ => _ end = _ -> _ => destruct x
         | |- Return _ = Raise _ -> _ => discriminate
         | |- Raise _ = Raise _ -> _ =>
             let H := fresh in intros H; inversion H; subst; clear H
         | |- lexical SyntaxError => left; reflexivity
         | |- lexical NotModelled => right; reflexivity
         end.

Lemma lex_number_raises cs e : lex_number cs = Raise e -> lexical e.
Proof. unfold lex_number. raised. Qed.

Lemma lex_name_raises cs e : lex_name cs = Raise e -> lexical e.
Proof. unfold lex_name. raised. Qed.

Lemma lex_string_raises q cs e : lex_string q cs = Raise e -> lexical e.
Proof. unfold lex_string. raised. Qed.

Lemma lex_operator_raises cs e : lex_operator cs = Raise e -> lexical e.
Proof.
  unfold lex_operator.
  repeat match goal with
         | |- match ?x with _ => _ end = _ -> _ => destruct x
         | |- (if ?c then _ else _) = _ -> _ => destruct c
         end;
    try discriminate;
    intros H; inversion H; subst; first [ left; reflexivity | right; reflexivity ].
Qed.

Lemma lex_token_raises cs e : lex_token cs = Raise e -> lexical e.
Proof.
  unfold lex_token. destruct cs as [| c rest].
  - intros H; inversion H; left; reflexivity.
  - destruct (_ || _); [ apply lex_number_raises | ].
    destruct (is_name_start c); [ apply lex_name_raises | ].
    destruct (is_quote c); [ apply lex_string_raises | apply lex_operator_raises ].
Qed.

Lemma tokenize_raises fuel cs e : tokenize fuel cs = Raise e -> lexical e.
Proof.
  revert cs. induction fuel as [| fuel IH]; intros cs; simpl.
  - intros H; inversion H; right; reflexivity.
  - destruct cs as [| c rest]; [ discriminate | ].
    destruct (Ascii.eqb c " "); [ apply IH | ].
    destruct (lex_token (c :: rest)) as [[t rest'] | e'] eqn:E.
    + destruct (tokenize fuel rest') eqn:E'; [ discriminate | ].
      intros H; inversion H; subst. eapply IH; eassumption.
    + intros H; inversion H; subst. eapply lex_token_raises; eassumption.
Qed.

Lemma binary_tail_raises operand level n lhs ts e :
  raises_lexical operand -> binary_tail operand level n lhs ts = Raise e -> lexical e.
Proof.
  intros Hop. revert lhs ts. induction n as [| n IH]; intros lhs ts; simpl.
  - destruct ts; discriminate.
  - destruct ts as [| t ts']; [ discriminate | ].
    destruct (binary_operator level t); [ | discriminate ].
    destruct (operand ts') as [[rhs rest] | e'] eqn:E; [ apply IH | ].
    intros H; inversion H; subst. eapply Hop; eassumption.
Qed.

Lemma boolean_tail_raises operand sep n ts e :
  raises_lexical operand -> boolean_tail operand sep n ts = Raise e -> lexical e.
Proof.
  intros Hop. revert ts. induction n as [| n IH]; intros ts; simpl.
  - destruct ts; discriminate.
  - destruct ts as [| t ts']; [ discriminate | ].
    destruct (sep t); [ | discriminate ].
    destruct (operand ts') as [[v rest] | e'] eqn:E.
    + destruct (boolean_tail operand sep n rest) as [[vs rest'] | e'] eqn:E';
        [ discriminate | ].
      intros H; inversion H; subst. eapply IH; eassumption.
    + intros H; inversion H; subst. eapply Hop; eassumption.
Qed.

Lemma comparison_tail_raises operand n ts e :
  raises_lexical operand -> comparison_tail operand n ts = Raise e -> lexical e.
Proof.
  intros Hop. revert ts. induction n as [| n IH]; intros ts; simpl.
  - destruct ts; discriminate.
  - destruct ts as [| t ts']; [ discriminate | ].
    destruct (comparison_operator t); [ | discriminate ].
    destruct (operand ts') as [[v rest] | e'] eqn:E.
    + destruct (comparison_tail operand n rest) as [[[os vs] rest'] | e'] eqn:E';
        [ discriminate | ].
      intros H; inversion H; subst. eapply IH; eassumption.
    + intros H; inversion H; subst. eapply Hop; eassumption.
Qed.

Lemma trailers_raises expression n f ts e :
  raises_lexical expression -> trailers expression n f ts = Raise e -> lexical e.
Proof.
  intros Hop. revert f ts. induction n as [| n IH]; intros f ts; simpl.
  - destruct ts; discriminate.
  - assert (Harg : forall ts' (g : AST -> AST),
      match expression ts' with
      | Return (a, RPAR :: rest) => trailers expression n (g a) rest
      | Return _ => Raise SyntaxError
      | Raise e => Raise e
      end = Raise e -> lexical e).
    { intros ts' g. destruct (expression ts') as [[a rest] | e'] eqn:E.
      - destruct rest as [| t rest]; [ intros H; inversion H; left; reflexivity | ].
        destruct t; try (intros H; inversion H; left; reflexivity). apply IH.
      - intros H; inversion H; subst. eapply Hop; eassumption. }
    destruct ts as [| t ts']; [ discriminate | ].
    destruct t; try discriminate.
    + destruct ts' as [| t' ts'']; [ apply (Harg [] (fun a => Call f [a] [])) | ].
      destruct t';
        try apply (Harg (_ :: ts'') (fun a => Call f [a] []));
        try apply IH.
      * apply (Harg ts'' (fun a => Call f [Starred a] [])).
      * apply (Harg ts'' (fun a => Call f [] [(None, a)])).
    + destruct ts' as [| t' ts'']; [ intros H; inversion H; left; reflexivity | ].
      destruct t'; try (intros H; inversion H; left; reflexivity). apply IH.
Qed.

Lemma parse_raises fuel : forall r, raises_lexical (parse fuel r).
Proof.
  induction fuel as [| fuel IH]; intros r ts e; simpl.
  - intros H; inversion H; right; reflexivity.
  - destruct r.
    + destruct (parse fuel conjunction ts) as [[v rest] | e'] eqn:E;
        [ | intros H; inversion H; subst; eapply IH; eassumption ].
      destruct (boolean_tail _ _ _ _) as [[vs rest'] | e'] eqn:E';
        [ destruct vs; discriminate | ].
      intros H; inversion H; subst.
      eapply boolean_tail_raises; [ apply IH | eassumption ].
    + destruct (parse fuel inversion ts) as [[v rest] | e'] eqn:E;
        [ | intros H; inversion H; subst; eapply IH; eassumption ].
      destruct (boolean_tail _ _ _ _) as [[vs rest'] | e'] eqn:E';
        [ destruct vs; discriminate | ].
      intros H; inversion H; subst.
      eapply boolean_tail_raises; [ apply IH | eassumption ].
    + destruct ts as [| t ts']; [ apply IH | ].
      destruct t; try apply IH.
      destruct (parse fuel inversion ts') as [[v rest] | e'] eqn:E;
        [ discriminate | ].
      intros H; inversion H; subst. eapply IH; eassumption.
    + destruct (parse fuel (binary 0) ts) as [[v rest] | e'] eqn:E;
        [ | intros H; inversion H; subst; eapply IH; eassumption ].
      destruct (comparison_tail _ _ _) as [[[os vs] rest'] | e'] eqn:E';
        [ destruct os; discriminate | ].
      intros H; inversion H; subst.
      eapply comparison_tail_raises; [ apply IH | eassumption ].
    + destruct (level <? 5)%nat.
      * destruct (parse fuel (binary (S level)) ts) as [[v rest] | e'] eqn:E;
          [ apply binary_tail_raises, IH
          | intros H; inversion H; subst; eapply IH; eassumption ].
      * destruct (parse fuel factor ts) as [[v rest] | e'] eqn:E;
          [ apply binary_tail_raises, IH
          | intros H; inversion H; subst; eapply IH; eassumption ].
    + assert (Hu : forall o ts',
        match parse fuel factor ts' with
        | Return (v, rest) => Return (UnaryOp o v, rest)
        | Raise e => Raise e
        end = Raise e -> lexical e).
      { intros o ts'. destruct (parse fuel factor ts') as [[v rest] | e'] eqn:E;
          [ discriminate | ].
        intros H; inversion H; subst. eapply IH; eassumption. }
      destruct ts as [| t ts']; [ apply IH | ].
      destruct t; try apply IH; apply Hu.
    + destruct (parse fuel primary ts) as [[base rest] | e'] eqn:E.
      * destruct rest as [| t ts']; [ discriminate | ].
        destruct t; try discriminate.
        destruct (parse fuel factor ts') as [[v rest] | e'] eqn:E';
          [ discriminate | ].
        intros H; inversion H; subst. eapply IH; eassumption.
      * intros H; inversion H; subst. eapply IH; eassumption.
    + destruct (parse fuel atom ts) as [[a rest] | e'] eqn:E;
        [ apply trailers_raises, IH
        | intros H; inversion H; subst; eapply IH; eassumption ].
    + destruct ts as [| t ts']; [ intros H; inversion H; left; reflexivity | ].
      destruct t; try discriminate;
        try (intros H; inversion H; left; reflexivity).
      * destruct (strings s ts'). discriminate.
      * destruct ts' as [| t' ts''].
        -- destruct (parse fuel disjunction []) as [[v rest] | e'] eqn:E.
           ++ destruct rest as [| t rest]; [ intros H; inversion H; left; reflexivity | ].
              destruct t; try discriminate; intros H; inversion H; left; reflexivity.
           ++ intros H; inversion H; subst. eapply IH; eassumption.
        -- assert (Hp : forall ts0,
             match parse fuel disjunction ts0 with
             | Return (v, RPAR :: rest) => Return (v, rest)
             | Return _ => Raise SyntaxError
             | Raise e => Raise e
             end = Raise e -> lexical e).
           { intros ts0. destruct (parse fuel disjunction ts0) as [[v rest] | e'] eqn:E.
             - destruct rest as [| t rest]; [ intros H; inversion H; left; reflexivity | ].
               destruct t; try discriminate; intros H; inversion H; left; reflexivity.
             - intros H; inversion H; subst. eapply IH; eassumption. }
           destruct t'; try discriminate; apply Hp.
Qed.

Lemma parse_eval_raises source e : parse_eval source = Raise e -> lexical e.
Proof.
  unfold parse_eval.
  destruct (_ || _); [ intros H; inversion H; right; reflexivity | ].
  destruct (starts_with _ _); [ intros H; inversion H; left; reflexivity | ].
  destruct (tokenize _ _) as [ts | e'] eqn:E;
    [ | intros H; inversion H; subst; eapply tokenize_raises; eassumption ].
  destruct (parse _ _ _) as [[body rest] | e'] eqn:E'.
  - destruct rest; [ discriminate | intros H; inversion H; left; reflexivity ].
  - intros H; inversion H; subst. eapply parse_raises; eassumption.
Qed.

End ParserErrors.

Lemma ast_parse_raises (source : string) (e : exception) :
  ast_parse source = Raise e -> lexical e.
Proof. apply ParserErrors.parse_eval_raises. Qed.

(** ** What [safe_eval] lets through, what it reports *)

Section Arithmetic.

Context {platform : Platform}.

Hypothesis complex_arith_raises : arithmetic_platform platform.

Ltac known_error :=
  unfold arithmetic_error, escapes; solve [ auto ].

Lemma to_double_raises (a : Number) (e : exception) :
  Operator.to_double a = Raise e -> arithmetic_error e.
Proof.
  destruct a as [z | b | f | c]; simpl; try discriminate.
  - destruct (is_inf (of_Z z)); intros H; inversion H; known_error.
  - intros H; inversion H; known_error.
Qed.

Lemma to_complex_raises (a : Number) (e : exception) :
  Operator.to_complex a = Raise e -> arithmetic_error e.
Proof.
  unfold Operator.to_complex.
  destruct a; try discriminate;
    (destruct (Operator.to_double _) eqn:E; [ discriminate | ]);
    intros H; inversion H; subst; eapply to_double_raises; eassumption.
Qed.

Lemma complex_op_raises o chk (a b : Number) (e : exception) :
  (forall y x, chk y = Some x -> arithmetic_error x) ->
  Operator.complex_op o chk a b = Raise e -> arithmetic_error e.
Proof.
  intros Hchk. unfold Operator.complex_op.
  destruct (Operator.to_complex a) eqn:Ea;
    [ | intros H; inversion H; subst; eapply to_complex_raises; eassumption ].
  destruct (Operator.to_complex b) eqn:Eb;
    [ | intros H; inversion H; subst; eapply to_complex_raises; eassumption ].
  destruct (chk _) eqn:Ec;
    [ intros H; inversion H; subst; eapply Hchk; eassumption | ].
  destruct (complex_arith _ _ _) eqn:Ep; [ discriminate | ].
  intros H; inversion H; subst. eapply complex_arith_raises; eassumption.
Qed.

Lemma no_check_raises y x : Operator.no_check y = Some x -> arithmetic_error x.
Proof. discriminate. Qed.

Lemma zero_divisor_check_raises y x :
  Operator.zero_divisor y = Some x -> arithmetic_error x.
Proof.
  unfold Operator.zero_divisor.
  destruct (_ && _); intros H; inversion H; known_error.
Qed.

Lemma dispatch_raises on_int on_float on_complex (a b : Number) (e : exception) :
  (forall x y e, on_int x y = Raise e -> arithmetic_error e) ->
  (forall x y e, on_float x y = Raise e -> arithmetic_error e) ->
  (forall x y e, on_complex x y = Raise e -> arithmetic_error e) ->
  Operator.dispatch on_int on_float on_complex a b = Raise e -> arithmetic_error e.
Proof.
  intros Hi Hf Hc. unfold Operator.dispatch.
  assert (Hrest :
    (if is_complex a || is_complex b then on_complex a b
     else match Operator.to_double a with
          | Return x =>
              match Operator.to_double b with
              | Return y => on_float x y
              | Raise e => Raise e
              end
          | Raise e => Raise e
          end) = Raise e -> arithmetic_error e).
  { destruct (is_complex a || is_complex b); [ apply Hc | ].
    destruct (Operator.to_double a) eqn:Ea;
      [ | intros H; inversion H; subst; eapply to_double_raises; eassumption ].
    destruct (Operator.to_double b) eqn:Eb;
      [ apply Hf
      | intros H; inversion H; subst; eapply to_double_raises; eassumption ]. }
  destruct (as_int a), (as_int b); first [ apply Hi | exact Hrest ].
Qed.

Lemma float_pow_raises (iv iw : float) (e : exception) :
  Operator.float_pow iv iw = Raise e -> arithmetic_error e.
Proof.
  unfold Operator.float_pow.
  repeat match goal with
         | |- context [Operator.complex_op ?o ?c ?a ?b] =>
             generalize (complex_op_raises o c a b e);
             generalize (Operator.complex_op o c a b); intros r Hr
         | |- (if ?c then _ else _) = _ -> _ => destruct c
         | |- (let '(_, _) := ?p in _) = _ -> _ => destruct p as [ix err]
         | |- match ?x with _ => _ end = _ -> _ => destruct x
         end;
    try discriminate;
    try (intros H; inversion H; known_error);
    try (apply Hr; apply no_check_raises).
Qed.

(** What a function of [_ALLOWED_OPERATORS] can raise. *)
Lemma table_raises (op : operator) f (a b : Number) (e : exception) :
  allowed_operator op = Some f -> f a b = Raise e -> arithmetic_error e.
Proof.
  destruct op; try discriminate; intros H; inversion H; subst f; clear H;
    apply dispatch_raises; intros x y e';
    try discriminate;
    try (apply complex_op_raises;
         first [ apply no_check_raises | apply zero_divisor_check_raises ]);
    try apply float_pow_raises;
    try (intros H; inversion H; known_error);
    repeat match goal with
           | |- (if ?c then _ else _) = _ -> _ => destruct c
           end;
    try discriminate;
    try (intros H; inversion H; known_error).
  destruct (Operator.to_double a) eqn:Ea;
    [ | intros H; inversion H; subst; eapply to_double_raises; eassumption ].
  destruct (Operator.to_double b) eqn:Eb;
    [ apply float_pow_raises
    | intros H; inversion H; subst; eapply to_double_raises; eassumption ].
Qed.

(** What the walk can raise: one of its three errors, or what an operator
    call raised and the [except] clause did not take. *)
Lemma _evaluate_ast_raises (node : AST) (e : exception) :
  run (_evaluate_ast node) = Raise e -> walk_error e \/ escapes e.
Proof.
  revert e. induction node; intros e;
    try (unfold run; simpl; intros H; inversion H; left; right; left; reflexivity).
  - rewrite run_Expression. auto.
  - rewrite run_Constant. destruct (int_or_float value); [ discriminate | ].
    intros H. inversion H. left. left. reflexivity.
  - rewrite run_UnaryOp.
    destruct op; simpl;
      try (intros H; inversion H; left; right; left; reflexivity);
      (destruct (run (_evaluate_ast node)) as [v | e0]; [ | auto ]).
    + discriminate.
    + destruct v; discriminate.
  - rewrite run_BinOp.
    destruct (allowed_operator op) as [f |] eqn:Ef;
      [ | intros H; inversion H; left; right; left; reflexivity ].
    destruct (run (_evaluate_ast node1)) as [a | e1]; [ | auto ].
    destruct (run (_evaluate_ast node2)) as [b | e2]; [ | auto ].
    destruct (f a b) as [v | e0] eqn:E; [ discriminate | ].
    destruct (table_raises op f a b e0 Ef E) as [-> | He].
    + simpl. intros H. inversion H. left. right. right. reflexivity.
    + assert (guarded (Raise e0) = Raise e0) as ->
        by (destruct He as [-> | [-> | ->]]; reflexivity).
      intros H. inversion H. subst. right. assumption.
Qed.

(** Within the whitelist the walk raises neither of its two
    ["Unsupported ..."] errors. *)
Lemma whitelisted_raises (node : AST) (e : exception) :
  whitelisted node = true ->
  run (_evaluate_ast node) = Raise e ->
  e = EvaluationError "Division by zero" (Some ZeroDivisionError) \/ escapes e.
Proof.
  intros Hw He. destruct (_evaluate_ast_raises node e He) as [Hwalk | Hesc]; [ | auto ].
  assert (Hplain : forall o x y e, complex_arith o x y = Raise e -> builtin e).
  { intros o x y e0 H. destruct (complex_arith_raises o x y e0 H) as [-> | [-> | [-> | ->]]];
      reflexivity. }
  destruct Hwalk as [-> | [-> | ->]]; auto;
    destruct (whitelisted_errors Hplain node _ _ Hw He); discriminate.
Qed.

End Arithmetic.

(** X1.  [safe_eval] returns a value only for a text that parses to a tree
    made of [Expression], [int], [bool] and [float] constants, the two
    signs and the seven binary operators of the tables: no other node
    kind, anywhere in the tree, ever comes with a value. *)
Theorem safe_eval_value_whitelisted {platform : Platform} (text : string) (v : Number) :
  run (safe_eval text) = Return v ->
  exists tree, ast_parse text = Return tree /\ whitelisted tree = true.
Proof.
  rewrite run_safe_eval. intros H. apply wrapped_Return in H.
  destruct (ast_parse text) as [tree | e]; [ | discriminate ].
  exists tree. split; [ reflexivity | ].
  destruct (whitelisted tree) eqn:Hw; [ reflexivity | ].
  exfalso. eapply not_whitelisted_no_value; eassumption.
Qed.

Lemma safe_eval_value_whitelisted_witness :
  exists tree, ast_parse "1+2*3" = Return tree /\
               whitelisted (platform := bare_platform) tree = true.
Proof.
  apply (safe_eval_value_whitelisted (platform := bare_platform) "1+2*3" (PyInt 7)).
  vm_compute. reflexivity.
Defined.

(** X2.  The complete list of what [safe_eval] raises: the uniform
    [EvaluationError], whose message is ["Invalid expression"] and whose
    cause is a [SyntaxError] or one of the walk's three errors; or an
    [OverflowError], [TypeError] or [ValueError] of Python's arithmetic,
    which it does not convert.  ([NotModelled] marks the texts outside
    the model of the parser.)  In particular no [SyntaxError], no
    [ZeroDivisionError] and no [KeyError] reaches the caller. *)
Theorem safe_eval_raises_only {platform : Platform} (text : string) (e : exception) :
  arithmetic_platform platform ->
  run (safe_eval text) = Raise e ->
  (exists cause,
     e = EvaluationError "Invalid expression" (Some cause) /\
     (cause = SyntaxError \/ walk_error cause)) \/
  escapes e \/ e = NotModelled.
Proof.
  intros Hp. rewrite run_safe_eval.
  destruct (ast_parse text) as [tree | e0] eqn:E.
  - destruct (run (_evaluate_ast tree)) as [v | e0] eqn:Ee; [ discriminate | ].
    destruct (_evaluate_ast_raises Hp tree e0 Ee) as [Hw | Hesc].
    + assert (wrapped (Raise e0) = Raise (EvaluationError "Invalid expression" (Some e0)))
        as -> by (destruct Hw as [-> | [-> | ->]]; reflexivity).
      intros H. inversion H. left. eauto.
    + assert (wrapped (Raise e0) = Raise e0) as ->
        by (destruct Hesc as [-> | [-> | ->]]; reflexivity).
      intros H. inversion H. subst. auto.
  - destruct (ast_parse_raises text e0 E) as [-> | ->]; simpl;
      intros H; inversion H; [ left; eauto | auto ].
Qed.

Lemma safe_eval_raises_only_witness :
  (exists cause,
     unsupported_expression = EvaluationError "Invalid expression" (Some cause) /\
     (cause = SyntaxError \/ walk_error cause)) \/
  escapes unsupported_expression \/ unsupported_expression = NotModelled.
Proof.
  apply (safe_eval_raises_only (platform := bare_platform) "abs(-1)").
  - intros o x y e H. inversion H. right. left. reflexivity.
  - vm_compute. reflexivity.
Defined.

(** X3.  Once the tree of a text has passed the whitelist, the only
    [EvaluationError] is the one for a division by zero; whatever else is
    raised is an [OverflowError], [TypeError] or [ValueError] out of an
    operator call. *)
Theorem validated_text_errors {platform : Platform} (text : string) (tree : AST)
    (e : exception) :
  arithmetic_platform platform ->
  ast_parse text = Return tree -> whitelisted tree = true ->
  run (safe_eval text) = Raise e ->
  e = division_by_zero \/ escapes e.
Proof.
  intros Hp Ht Hw. rewrite run_safe_eval, Ht.
  destruct (run (_evaluate_ast tree)) as [v | e0] eqn:E; [ discriminate | ].
  destruct (whitelisted_raises Hp tree e0 Hw E) as [-> | Hesc].
  - simpl. intros H. inversion H. left. reflexivity.
  - assert (wrapped (Raise e0) = Raise e0) as ->
      by (destruct Hesc as [-> | [-> | ->]]; reflexivity).
    intros H. inversion H. subst. auto.
Qed.

Lemma validated_text_errors_witness :
  division_by_zero = division_by_zero \/ escapes division_by_zero.
Proof.
  apply (validated_text_errors (platform := bare_platform) "7 % (3 - 3)"
           (Expression (BinOp (Constant (CInt 7)) Mod
                          (BinOp (Constant (CInt 3)) Sub (Constant (CInt 3)))))).
  - intros o x y e H. inversion H. right. left. reflexivity.
  - vm_compute. reflexivity.
  - reflexivity.
  - vm_compute. reflexivity.
Defined.

(** ** Where ["Division by zero"] comes from *)

Section ZeroDivision.

Context {platform : Platform}.

(** With two integers the divisor is tested first, whatever the size of
    the left operand. *)
Lemma int_zero_divisor_raises (op : operator) f (a b : Number) :
  division op = true -> allowed_operator op = Some f ->
  is_int a = true -> as_int b = Some 0 ->
  f a b = Raise ZeroDivisionError.
Proof.
  intros Hop Hf Ha Hb.
  assert (exists x, as_int a = Some x) as [x Hx]
    by (destruct a as [z | [] | ? | ?]; try discriminate; eauto).
  destruct op; try discriminate; inversion Hf; subst f;
    unfold Operator.truediv, Operator.floordiv, Operator.mod_, Operator.dispatch;
    rewrite Hx, Hb; reflexivity.
Qed.

(** Rounding keeps the sign: an integer that is not negative gives a
    double that is not negative. *)
Lemma of_Z_not_negative (z : Z) : 0 <= z -> Float.ltb (of_Z z) zero = false.
Proof.
  destruct z as [| m | m]; [ reflexivity | intros _ | lia ].
  unfold of_Z, binary_normalize, binary_round.
  destruct (shl_align _ _ _) as [mz ez].
  unfold binary_round_aux.
  destruct (shr_fexp _ _ _ _ _) as [mrs e1].
  destruct (shr_fexp _ _ _ _ _) as [mrs' e2].
  destruct (shr_m mrs'); [ reflexivity | | reflexivity ].
  destruct (_ <=? _); reflexivity.
Qed.

Lemma negative_double_of_int (b : Number) (y : float) (z : Z) :
  Operator.to_double b = Return y -> Float.ltb y zero = true ->
  as_int b = Some z -> z < 0.
Proof.
  destruct b as [n | [] | f | c]; simpl; try discriminate.
  - destruct (is_inf (of_Z n)); [ discriminate | ].
    intros H Hy Hz. inversion H. inversion Hz. subst.
    destruct (Z_lt_le_dec z 0) as [Hn | Hn]; [ assumption | ].
    rewrite of_Z_not_negative in Hy by assumption. discriminate.
  - intros H Hy. inversion H. subst. discriminate.
  - intros H Hy. inversion H. subst. discriminate.
Qed.

Lemma zero_power_raises (a b : Number) (x y : float) :
  Operator.to_double a = Return x -> Operator.to_double b = Return y ->
  Float.eqb x zero = true -> Float.ltb y zero = true -> is_inf y = false ->
  Operator.pow a b = Raise ZeroDivisionError.
Proof.
  intros Ha Hb Hx Hy Hinf.
  pose proof (negative_double_of_int b y) as Hneg.
  assert (Hpow : Operator.float_pow x y = Raise ZeroDivisionError).
  { unfold Operator.float_pow.
    assert (Float.eqb y zero = false) as ->
      by (destruct y as [[] | [] | | [] m e]; try discriminate; reflexivity).
    assert (is_nan x = false) as ->
      by (destruct x as [[] | [] | | [] m e]; try discriminate; reflexivity).
    assert (is_nan y = false) as ->
      by (destruct y as [[] | [] | | [] m e]; try discriminate; reflexivity).
    rewrite Hinf.
    assert (is_inf x = false) as ->
      by (destruct x as [[] | [] | | [] m e]; try discriminate; reflexivity).
    rewrite Hx, Hy. reflexivity. }
  assert (Hca : is_complex a = false) by (destruct a; simpl in *; congruence).
  assert (Hcb : is_complex b = false) by (destruct b; simpl in *; congruence).
  unfold Operator.pow, Operator.dispatch.
  destruct (as_int a) as [n |] eqn:En; destruct (as_int b) as [m |] eqn:Em;
    rewrite ?Hca, ?Hcb; simpl; rewrite ?Ha, ?Hb; try exact Hpow.
  specialize (Hneg m Hb Hy eq_refl). apply Z.ltb_lt in Hneg. rewrite Hneg.
  exact Hpow.
Qed.

End ZeroDivision.

(** X4.  At a [/], [//] or [%] node whose right operand evaluates to [0],
    [False], [0.0] or [-0.0], the walk raises ["Division by zero"]
    whenever the left operand is a [float] or a [bool], an [int] within
    the range of a double, or any [int] at all if the divisor is an
    integer zero; and [safe_eval] on a text that is such a node reports
    it. *)
Theorem zero_divisor_reported {platform : Platform} (l r : AST) (op : operator)
    (a b : Number) :
  division op = true ->
  run (_evaluate_ast l) = Return a ->
  run (_evaluate_ast r) = Return b ->
  is_real_zero b = true ->
  (is_int a = true /\ is_int b = true) \/
  (exists x, Operator.to_double a = Return x) ->
  run (_evaluate_ast (BinOp l op r)) =
    Raise (EvaluationError "Division by zero" (Some ZeroDivisionError)) /\
  (forall text, ast_parse text = Return (Expression (BinOp l op r)) ->
     run (safe_eval text) = Raise division_by_zero).
Proof.
  intros Hop Hl Hr Hb Ha.
  assert (Hnode : run (_evaluate_ast (BinOp l op r)) =
                  Raise (EvaluationError "Division by zero" (Some ZeroDivisionError))).
  { destruct Ha as [[Ha Hbi] | [x Hx]].
    - rewrite run_BinOp, Hl, Hr.
      destruct (allowed_operator op) as [f |] eqn:Ef;
        [ | destruct op; discriminate ].
      erewrite int_zero_divisor_raises; try eassumption; [ reflexivity | ].
      destruct b as [z | [] | ? | ?]; try discriminate; [ | reflexivity ].
      simpl in Hb. apply Z.eqb_eq in Hb. subst. reflexivity.
    - eapply division_by_zero_node; eassumption. }
  split; [ exact Hnode | ].
  intros text Ht. rewrite run_safe_eval, Ht, run_Expression, Hnode. reflexivity.
Qed.

Lemma zero_divisor_reported_witness :
  run (platform := bare_platform)
    (_evaluate_ast (BinOp (BinOp (Constant (CInt 10)) Pow (Constant (CInt 400)))
                      FloorDiv
                      (BinOp (Constant (CInt 3)) Sub (Constant (CInt 3))))) =
    Raise (EvaluationError "Division by zero" (Some ZeroDivisionError)) /\
  (forall text,
     ast_parse text =
       Return (Expression (BinOp (BinOp (Constant (CInt 10)) Pow (Constant (CInt 400)))
                             FloorDiv
                             (BinOp (Constant (CInt 3)) Sub (Constant (CInt 3))))) ->
     run (platform := bare_platform) (safe_eval text) = Raise division_by_zero).
Proof.
  apply (zero_divisor_reported (platform := bare_platform)
           (BinOp (Constant (CInt 10)) Pow (Constant (CInt 400))) 
           (BinOp (Constant (CInt 3)) Sub (Constant (CInt 3)))
           FloorDiv (PyInt (10 ^ 400)) (PyInt 0)).
  - reflexivity.
  - vm_compute. reflexivity.
  - vm_compute. reflexivity.
  - reflexivity.
  - left. split; reflexivity.
Defined.

(** X5.  ["Division by zero"] is also what a zero raised to a negative
    power gives: at a [**] node whose left operand evaluates to a zero
    and whose right operand to a negative finite number, the walk raises
    it. *)
Theorem zero_to_negative_power_reported {platform : Platform} (l r : AST)
    (a b : Number) (x y : float) :
  run (_evaluate_ast l) = Return a ->
  run (_evaluate_ast r) = Return b ->
  Operator.to_double a = Return x -> Operator.to_double b = Return y ->
  Float.eqb x zero = true -> Float.ltb y zero = true -> is_inf y = false ->
  run (_evaluate_ast (BinOp l Pow r)) =
    Raise (EvaluationError "Division by zero" (Some ZeroDivisionError)).
Proof.
  intros Hl Hr Ha Hb Hx Hy Hinf.
  rewrite run_BinOp, Hl, Hr. simpl.
  erewrite zero_power_raises; try eassumption. reflexivity.
Qed.

Lemma zero_to_negative_power_reported_witness :
  run (platform := bare_platform)
    (_evaluate_ast (BinOp (Constant (CInt 0)) Pow (UnaryOp USub (Constant (CInt 1))))) =
    Raise (EvaluationError "Division by zero" (Some ZeroDivisionError)).
Proof.
  apply (zero_to_negative_power_reported (platform := bare_platform)
           (Constant (CInt 0)) (UnaryOp USub (Constant (CInt 1)))
           (PyInt 0) (PyInt (-1)) zero (Float.neg one)).
  - reflexivity.
  - vm_compute. reflexivity.
  - reflexivity.
  - reflexivity.
  - reflexivity.
  - reflexivity.
  - reflexivity.
Defined.

(** ** [str] of an integer reads back *)

Module StrFacts.

Import Parser Unparse UnparseFacts.

Local Open Scope char_scope.

(** A minus sign in front of a digit is a token of its own. *)
Lemma lex_token_minus (c : ascii) (cs : list ascii) :
  is_digit c = true -> lex_token ("-" :: c :: cs) = Return (MINUS, c :: cs).
Proof.
  intros Hc.
  destruct c as [[] [] [] [] [] [] [] []]; try discriminate Hc; reflexivity.
Qed.

Lemma parse_eval_negative (n : Z) :
  0 < n -> (length (decimal n) < max_text_length)%nat ->
  parse_eval (string_of_list_ascii ("-" :: decimal n)) =
  Return (Expression (UnaryOp USub (Constant (CInt n)))).
Proof.
  intros Hn Hlen. unfold parse_eval.
  rewrite list_ascii_of_string_of_list_ascii.
  destruct (decimal_head n) as (c & cs & E & Hc & _); [ lia | ].
  assert (Hlex : Forall lexable [NUMBER (CInt n)])
    by (constructor; [ simpl; lia | constructor ]).
  destruct (Nat.ltb_spec max_text_length (length ("-" :: decimal n)));
    [ simpl in *; lia | ].
  assert (forallb in_alphabet ("-" :: decimal n) = true) as ->
    by (simpl; apply is_digit_in_alphabet, decimal_are_digits).
  cbn [orb negb]. change (starts_with (Ascii.eqb " ") ("-" :: decimal n)) with false.
  cbv iota.
  assert (Htok : tokenize (S (length ("-" :: decimal n))) ("-" :: decimal n)
                 = Return [MINUS; NUMBER (CInt n)]).
  { rewrite tokenize_token by reflexivity.
    rewrite E, lex_token_minus by assumption. rewrite <- E.
    change (decimal n) with (text_of [NUMBER (CInt n)]) at 2.
    rewrite tokenize_text; [ reflexivity | assumption | simpl; lia ]. }
  rewrite Htok.
  change [MINUS; NUMBER (CInt n)]
    with (tokens_of (UnaryOp USub (Constant (CInt n)))).
  rewrite parse_tokens_of; [ reflexivity | ].
  simpl. apply Z.leb_le. lia.
Qed.

Lemma parse_eval_natural (n : Z) :
  0 <= n -> (length (decimal n) <= max_text_length)%nat ->
  parse_eval (string_of_list_ascii (decimal n)) =
  Return (Expression (Constant (CInt n))).
Proof.
  intros Hn Hlen.
  apply (parse_unparse (Constant (CInt n))).
  - simpl. apply Z.leb_le. assumption.
  - unfold unparse. rewrite length_string_of_list_ascii. exact Hlen.
Qed.

End StrFacts.

Lemma str_int_reads_back {platform : Platform} (z : Z) (text : string) :
  str (PyInt z) = Return text ->
  (String.length text <= Parser.max_text_length)%nat ->
  run (safe_eval text) = Return (PyInt z).
Proof.
  unfold str, Str.of_int.
  destruct (_ <=? _); [ discriminate | ].
  intros H Hlen. inversion H. subst text. clear H.
  rewrite UnparseFacts.length_string_of_list_ascii in Hlen.
  rewrite run_safe_eval. unfold ast_parse.
  destruct (Z.ltb_spec z 0) as [Hneg | Hpos].
  - rewrite StrFacts.parse_eval_negative by (simpl in Hlen; lia).
    rewrite run_Expression, run_UnaryOp, run_Constant. simpl.
    rewrite Z.opp_involutive. reflexivity.
  - rewrite StrFacts.parse_eval_natural by assumption.
    rewrite run_Expression, run_Constant. reflexivity.
Qed.

(** X6.  The text [str] writes for an integer evaluates to that integer:
    [safe_eval(str(z)) == z], for the texts within the bound of the model
    of the parser. *)
Theorem safe_eval_str_int {platform : Platform} (z : Z) (text : string) :
  str (PyInt z) = Return text ->
  (String.length text <= Parser.max_text_length)%nat ->
  run (safe_eval text) = Return (PyInt z).
Proof. apply str_int_reads_back. Qed.

Lemma safe_eval_str_int_witness :
  run (platform := bare_platform) (safe_eval "-1021") = Return (PyInt (-1021)).
Proof.
  apply (safe_eval_str_int (platform := bare_platform) (-1021) "-1021").
  - vm_compute. reflexivity.
  - vm_compute. lia.
Defined.

(** ** More on [CalculatorState] *)

Lemma drop_last_substring (text : string) :
  drop_last text = substring 0 (String.length text - 1) text.
Proof.
  induction text as [| c text IH]; [ reflexivity | ].
  destruct text as [| d text]; [ reflexivity | ].
  change (drop_last (String c (String d text)))
    with (String c (drop_last (String d text))).
  rewrite IH. simpl. rewrite Nat.sub_0_r. reflexivity.
Qed.

Lemma substring_prefix (text : string) (n m : nat) :
  substring 0 n (substring 0 m text) = substring 0 (Nat.min n m) text.
Proof.
  revert n m. induction text as [| c text IH]; intros n m.
  - destruct n, m; reflexivity.
  - destruct m; [ destruct n; reflexivity | ].
    destruct n; [ reflexivity | ]. simpl. rewrite IH. reflexivity.
Qed.

Lemma length_substring_prefix (text : string) (n : nat) :
  String.length (substring 0 n text) = Nat.min n (String.length text).
Proof.
  revert n. induction text as [| c text IH]; intros n.
  - destruct n; reflexivity.
  - destruct n; [ reflexivity | ]. simpl. rewrite IH. reflexivity.
Qed.

Lemma substring_whole (text : string) (n : nat) :
  (String.length text <= n)%nat -> substring 0 n text = text.
Proof.
  revert n. induction text as [| c text IH]; intros n Hn.
  - destruct n; reflexivity.
  - destruct n; [ simpl in Hn; lia | ]. simpl. rewrite IH; [ reflexivity | ].
    simpl in Hn. lia.
Qed.

(** X7.  [backspace()] after [append(c)] of one character gives back the
    state as it was before the two calls. *)
Theorem backspace_undoes_append (self : CalculatorState) (c : ascii) :
  snd (backspace (snd (append (String c "") self))) = self.
Proof.
  rewrite append_spec. simpl. rewrite backspace_spec. simpl.
  rewrite drop_last_app. destruct self; reflexivity.
Qed.

(** X8.  [n] calls of [backspace()] leave the first [len - n] characters
    of the expression, none when [n] is [len] or more, and never touch
    the result and the error field. *)
Theorem backspaces_truncate (self : CalculatorState) (n : nat) :
  Nat.iter n (fun s => snd (backspace s)) self =
  {| expression :=
       substring 0 (String.length (expression self) - n) (expression self);
     result := result self;
     error := error self |}.
Proof.
  induction n as [| n IH].
  - simpl. rewrite Nat.sub_0_r, substring_whole by lia. destruct self; reflexivity.
  - simpl. rewrite IH, backspace_spec. simpl. f_equal.
    rewrite drop_last_substring, substring_prefix, length_substring_prefix.
    f_equal. lia.
Qed.

(** ** [CalculatorApp]: one command at a time *)

Section Commands.

Context {platform : Platform}.

Lemma app_append_spec (value : string) (p : Process) :
  CalculatorApp.append value p =
  (Return tt,
   {| globals := globals p;
      ui := {| state := {| expression := expression (state (ui p)) ++ value;
                           result := result (state (ui p));
                           error := error (state (ui p)) |};
               display_var := display_var (ui p);
               history_var := expression (state (ui p)) ++ value |} |}).
Proof. reflexivity. Qed.

Lemma app_clear_spec (p : Process) :
  CalculatorApp.clear p =
  (Return tt, {| globals := globals p; ui := CalculatorApp.__init__ |}).
Proof. reflexivity. Qed.

Lemma app_backspace_spec (p : Process) :
  CalculatorApp.backspace p =
  (Return tt,
   {| globals := globals p;
      ui := {| state := {| expression := drop_last (expression (state (ui p)));
                           result := result (state (ui p));
                           error := error (state (ui p)) |};
               display_var := display_var (ui p);
               history_var := drop_last (expression (state (ui p))) |} |}).
Proof.
  unfold CalculatorApp.backspace, CalculatorApp.in_state, bind.
  rewrite backspace_spec. reflexivity.
Qed.

Lemma app_calculate_spec (p : Process) :
  CalculatorApp.calculate p =
  match fst (safe_eval (evaluated_text p) (globals p)) with
  | Return value =>
      match str value with
      | Return written => (Return tt, shown p written (evaluated_text p))
      | Raise e => (Raise e, p)
      end
  | Raise (EvaluationError _ _) =>
      (Return tt, shown p "Ошибка" (evaluated_text p))
  | Raise e => (Raise e, p)
  end.
Proof.
  unfold CalculatorApp.calculate, bind, read, try_except_else,
    CalculatorApp.in_module.
  change (if String.eqb (expression (state (ui p))) "" then result (state (ui p))
          else expression (state (ui p))) with (evaluated_text p).
  pose proof (safe_eval_frame (evaluated_text p) (globals p)) as Hframe.
  destruct (safe_eval (evaluated_text p) (globals p)) as [r g]. simpl in Hframe.
  subst g. simpl fst.
  assert (Hp : {| globals := globals p; ui := ui p |} = p) by (destruct p; reflexivity).
  rewrite Hp.
  destruct r as [value | e].
  - unfold call. destruct (str value) as [written | e]; reflexivity.
  - destruct e; reflexivity.
Qed.

(** In the globals the module left, the evaluation is [run]'s. *)
Lemma app_calculate_run (p : Process) :
  globals p = module_globals ->
  fst (safe_eval (evaluated_text p) (globals p)) = run (safe_eval (evaluated_text p)).
Proof. intros ->. reflexivity. Qed.

(** The commands Tk can call. *)
Lemma callback_cases (e : event) (c : Command) :
  CalculatorApp.callback e = Some c ->
  c = CalculatorApp.clear \/ c = CalculatorApp.backspace \/
  c = CalculatorApp.calculate \/
  exists k, In k keys /\ c = CalculatorApp.append (String k "").
Proof.
  destruct e as [label | sequence]; unfold CalculatorApp.callback.
  - destruct (find _ _) as [b |] eqn:E; [ | discriminate ].
    apply find_some in E as [Hin _]. simpl. intros H. inversion H. clear H.
    simpl in Hin.
    repeat (destruct Hin as [<- | Hin];
            [ simpl; first
                [ left; reflexivity
                | right; left; reflexivity
                | right; right; left; reflexivity
                | right; right; right; eexists; split; [ | reflexivity ];
                  simpl; tauto ]
            | ]).
    contradiction.
  - destruct (find _ _) as [b |] eqn:E; [ | discriminate ].
    apply find_some in E as [Hin _]. simpl. intros H. inversion H. clear H.
    simpl in Hin. destruct Hin as [<- | []]. right. right. left. reflexivity.
Qed.

Lemma callback_press (k : ascii) :
  In k keys ->
  CalculatorApp.callback (press k) = Some (CalculatorApp.append (String k "")).
Proof.
  intros Hk. simpl in Hk.
  repeat (destruct Hk as [<- | Hk]; [ reflexivity | ]). contradiction.
Qed.

Lemma callback_equals :
  CalculatorApp.callback (Click "=") = Some CalculatorApp.calculate.
Proof. reflexivity. Qed.

Lemma callback_C : CalculatorApp.callback (Click "C") = Some CalculatorApp.clear.
Proof. reflexivity. Qed.

(** What every command keeps holds at the end of every session. *)
Lemma session_invariant (P : Process -> Prop) :
  (forall p, P p -> P (snd (CalculatorApp.clear p))) ->
  (forall p, P p -> P (snd (CalculatorApp.backspace p))) ->
  (forall p, P p -> P (snd (CalculatorApp.calculate p))) ->
  (forall p k, In k keys -> P p -> P (snd (CalculatorApp.append (String k "") p))) ->
  forall events p, P p -> P (fold_left CalculatorApp.dispatch events p).
Proof.
  intros Hclear Hback Hcalc Happ events.
  induction events as [| e events IH]; intros p Hp; [ exact Hp | ].
  simpl. apply IH. unfold CalculatorApp.dispatch.
  destruct (CalculatorApp.callback e) as [c |] eqn:E; [ | exact Hp ].
  destruct (callback_cases e c E) as [-> | [-> | [-> | (k & Hk & ->)]]]; auto.
Qed.

End Commands.

(** ** Sessions *)

Section Sessions.

Context {platform : Platform}.

Lemma main_app (events more : list event) :
  CalculatorApp.main (events ++ more) =
  fold_left CalculatorApp.dispatch more (CalculatorApp.main events).
Proof. unfold CalculatorApp.main. apply fold_left_app. Qed.

Lemma calculate_keeps (P : Process -> Prop) (p : Process) :
  P p ->
  (forall written, P (shown p written (evaluated_text p))) ->
  P (snd (CalculatorApp.calculate p)).
Proof.
  intros Hp Hshown. rewrite app_calculate_spec.
  destruct (fst (safe_eval (evaluated_text p) (globals p))) as [value | e].
  - destruct (str value); [ apply Hshown | exact Hp ].
  - destruct e; first [ exact Hp | apply Hshown ].
Qed.

(** No command writes the error field or the module's tables. *)
Lemma session_frame (events : list event) :
  error (state (ui (CalculatorApp.main events))) = ""%string /\
  globals (CalculatorApp.main events) = module_globals.
Proof.
  unfold CalculatorApp.main.
  apply (session_invariant
           (fun p => error (state (ui p)) = ""%string /\ globals p = module_globals)).
  - intros p H. rewrite app_clear_spec. simpl. tauto.
  - intros p H. rewrite app_backspace_spec. exact H.
  - intros p H. apply calculate_keeps; [ exact H | intros; exact H ].
  - intros p k _ H. rewrite app_append_spec. exact H.
  - split; reflexivity.
Qed.

Lemma list_ascii_of_string_app (a b : string) :
  list_ascii_of_string (a ++ b) = list_ascii_of_string a ++ list_ascii_of_string b.
Proof.
  induction a as [| c a IH]; [ reflexivity | ].
  change (c :: list_ascii_of_string (a ++ b)
          = c :: list_ascii_of_string a ++ list_ascii_of_string b).
  f_equal. exact IH.
Qed.

Lemma typed_app (a b : string) :
  typed (a ++ b) = typed a && typed b.
Proof. unfold typed. rewrite list_ascii_of_string_app. apply forallb_app. Qed.

Lemma drop_last_last (a : string) :
  a = ""%string \/ exists c, a = (drop_last a ++ String c "")%string.
Proof.
  induction a as [| c a IH]; [ left; reflexivity | right ].
  destruct IH as [-> | [d Hd]]; [ exists c; reflexivity | ].
  exists d. destruct a as [| e a]; [ discriminate | ].
  change (drop_last (String c (String e a))) with (String c (drop_last (String e a))).
  change (String c (String e a) = String c (drop_last (String e a) ++ String d "")).
  f_equal. exact Hd.
Qed.

Lemma typed_drop_last (a : string) : typed a = true -> typed (drop_last a) = true.
Proof.
  destruct (drop_last_last a) as [-> | [c Hc]]; [ reflexivity | ].
  intros H. rewrite Hc, typed_app in H. apply andb_true_iff in H. tauto.
Qed.

Lemma typed_key (k : ascii) : In k keys -> typed (String k "") = true.
Proof.
  intros Hk. simpl in Hk.
  repeat (destruct Hk as [<- | Hk]; [ reflexivity | ]). contradiction.
Qed.

End Sessions.

(** X9.  Whatever the user clicks and types, the display variable holds
    the result field of the state when the event has been handled. *)
Theorem display_follows_result {platform : Platform} (events : list event) :
  display_var (ui (CalculatorApp.main events)) =
  result (state (ui (CalculatorApp.main events))).
Proof.
  unfold CalculatorApp.main.
  apply (session_invariant
           (fun p => display_var (ui p) = result (state (ui p)))).
  - intros p H. reflexivity.
  - intros p H. rewrite app_backspace_spec. exact H.
  - intros p H. apply calculate_keeps; [ exact H | reflexivity ].
  - intros p k _ H. rewrite app_append_spec. exact H.
  - reflexivity.
Qed.

(** X10.  No session ever writes the error field of the state, which stays
    empty (a failure shows in the result field), and none changes the two
    tables of the module. *)
Theorem session_never_writes {platform : Platform} (events : list event) :
  error (state (ui (CalculatorApp.main events))) = ""%string /\
  globals (CalculatorApp.main events) = module_globals.
Proof. apply session_frame. Qed.

(** X11.  The expression holds only characters of the sixteen buttons that
    append one: digits, the point and [+ - * / %]; no session puts a
    letter, a parenthesis or a space into it. *)
Theorem expression_is_typed {platform : Platform} (events : list event) :
  typed (expression (state (ui (CalculatorApp.main events)))) = true.
Proof.
  unfold CalculatorApp.main.
  apply (session_invariant (fun p => typed (expression (state (ui p))) = true)).
  - intros p H. reflexivity.
  - intros p H. rewrite app_backspace_spec. apply typed_drop_last. exact H.
  - intros p H. apply calculate_keeps; [ exact H | intros; exact H ].
  - intros p k Hk H. rewrite app_append_spec. simpl.
    rewrite typed_app, H, typed_key by assumption. reflexivity.
  - reflexivity.
Qed.

(** X12.  While the expression is not empty the history variable shows it,
    after every event. *)
Theorem history_follows_expression {platform : Platform} (events : list event) :
  String.eqb (expression (state (ui (CalculatorApp.main events)))) "" = false ->
  history_var (ui (CalculatorApp.main events)) =
  expression (state (ui (CalculatorApp.main events))).
Proof.
  unfold CalculatorApp.main.
  apply (session_invariant
           (fun p => String.eqb (expression (state (ui p))) "" = false ->
                     history_var (ui p) = expression (state (ui p)))).
  - intros p H. discriminate.
  - intros p H. rewrite app_backspace_spec. reflexivity.
  - intros p H. apply calculate_keeps; [ exact H | ].
    intros written. simpl. unfold evaluated_text. intros ->. reflexivity.
  - intros p k _ H. rewrite app_append_spec. reflexivity.
  - discriminate.
Qed.

Lemma history_follows_expression_witness :
  history_var (ui (CalculatorApp.main (platform := bare_platform)
                      [Click "7"; Click "*"; Click "="; Click "6"])) = "7*6"%string.
Proof.
  apply (history_follows_expression (platform := bare_platform)
           [Click "7"; Click "*"; Click "="; Click "6"]).
  reflexivity.
Defined.

Section Typing.

Context {platform : Platform}.

Lemma append_empty (a : string) : (a ++ "")%string = a.
Proof.
  induction a as [| c a IH]; [ reflexivity | ].
  change (String c (a ++ "") = String c a). f_equal. exact IH.
Qed.

Lemma append_char (a : string) (c : ascii) (b : string) :
  ((a ++ String c "") ++ b)%string = (a ++ String c b)%string.
Proof.
  induction a as [| d a IH]; [ reflexivity | ].
  change (String d ((a ++ String c "") ++ b) = String d (a ++ String c b)).
  f_equal. exact IH.
Qed.

Lemma typing_from (text : string) (p : Process) :
  typed text = true ->
  fold_left CalculatorApp.dispatch (typing text) p =
  {| globals := globals p;
     ui := {| state := {| expression := expression (state (ui p)) ++ text;
                          result := result (state (ui p));
                          error := error (state (ui p)) |};
              display_var := display_var (ui p);
              history_var :=
                if String.eqb text "" then history_var (ui p)
                else expression (state (ui p)) ++ text |} |}.
Proof.
  revert p. induction text as [| c text IH]; intros p Ht.
  - simpl. destruct p as [g [[e r err] d h]]. simpl.
    rewrite append_empty. reflexivity.
  - change (existsb (Ascii.eqb c) keys && typed text = true) in Ht.
    apply andb_true_iff in Ht as [Hc Ht].
    assert (Hk : In c keys).
    { apply existsb_exists in Hc as (k & Hk & E).
      apply Ascii.eqb_eq in E. subst. exact Hk. }
    unfold typing. simpl. unfold CalculatorApp.dispatch at 2.
    rewrite callback_press by assumption. rewrite app_append_spec.
    fold (typing text). rewrite IH by exact Ht. simpl.
    rewrite !append_char. destruct text; reflexivity.
Qed.

Lemma main_typing (text : string) :
  typed text = true ->
  CalculatorApp.main (typing text) =
  {| globals := module_globals;
     ui := {| state := {| expression := text; result := "0"; error := "" |};
              display_var := "0";
              history_var := text |} |}.
Proof.
  intros Ht. unfold CalculatorApp.main. rewrite typing_from by assumption.
  simpl. destruct text; reflexivity.
Qed.

End Typing.

(** X13.  Clicking the buttons of the characters of a text, one after the
    other, from the start of the application, leaves that text as the
    expression and in the history, and the display at ["0"]. *)
Theorem typing_enters_text {platform : Platform} (text : string) :
  typed text = true ->
  let p := CalculatorApp.main (typing text) in
  expression (state (ui p)) = text /\
  history_var (ui p) = text /\
  display_var (ui p) = "0"%string.
Proof. intros Ht. rewrite main_typing by assumption. repeat split. Qed.

Lemma typing_enters_text_witness :
  let p := CalculatorApp.main (platform := bare_platform) (typing "12.5*4") in
  expression (state (ui p)) = "12.5*4"%string /\
  history_var (ui p) = "12.5*4"%string /\
  display_var (ui p) = "0"%string.
Proof.
  apply (typing_enters_text (platform := bare_platform) "12.5*4"). reflexivity.
Defined.

(** X14.  A click on [C] ends every session where the application
    started: the state, the display and the history are those of a fresh
    application, whatever happened before. *)
Theorem clear_restarts {platform : Platform} (events : list event) :
  CalculatorApp.main (events ++ [Click "C"]) = CalculatorApp.main [].
Proof.
  rewrite main_app. simpl. unfold CalculatorApp.dispatch.
  rewrite callback_C, app_clear_spec. simpl.
  destruct (session_frame events) as [_ ->]. reflexivity.
Qed.

(** ** [calculate] *)

Lemma str_raises (value : Number) (e : exception) :
  str value = Raise e -> e = ValueError.
Proof.
  destruct value as [z | b | f | c]; simpl; try discriminate.
  unfold Str.of_int. destruct (_ <=? _); [ | discriminate ].
  intros H. inversion H. reflexivity.
Qed.

Lemma str_int_short (z : Z) :
  Z.abs z < 10 ^ Str.int_max_str_digits ->
  exists written, str (PyInt z) = Return written.
Proof.
  intros H. unfold str, Str.of_int.
  destruct (Z.leb_spec (10 ^ Str.int_max_str_digits) (Z.abs z)); [ lia | eauto ].
Qed.

Lemma str_int_long (z : Z) :
  10 ^ Str.int_max_str_digits <= Z.abs z -> str (PyInt z) = Raise ValueError.
Proof.
  intros H. unfold str, Str.of_int.
  destruct (Z.leb_spec (10 ^ Str.int_max_str_digits) (Z.abs z)); [ reflexivity | lia ].
Qed.

Lemma shown_shown (p : Process) (w h w' h' : string) :
  shown (shown p w h) w' h' = shown p w' h'.
Proof. reflexivity. Qed.

Lemma evaluated_text_shown (p : Process) (w h : string) :
  String.eqb (expression (state (ui p))) "" = false ->
  evaluated_text (shown p w h) = evaluated_text p.
Proof. unfold evaluated_text. simpl. intros ->. reflexivity. Qed.

(** X15.  [calculate] leaves the expression, the error field and the
    module's tables as they were; it raises no [EvaluationError]; and
    when it does raise (what [safe_eval] let through, or the
    [ValueError] of [str]), it has changed nothing at all: the result and
    both variables are those from before. *)
Theorem calculate_exception_safe {platform : Platform} (p : Process) :
  expression (state (ui (snd (CalculatorApp.calculate p)))) = expression (state (ui p)) /\
  error (state (ui (snd (CalculatorApp.calculate p)))) = error (state (ui p)) /\
  globals (snd (CalculatorApp.calculate p)) = globals p /\
  (forall e, fst (CalculatorApp.calculate p) = Raise e ->
     snd (CalculatorApp.calculate p) = p /\ is_EvaluationError e = false).
Proof.
  rewrite app_calculate_spec.
  destruct (fst (safe_eval (evaluated_text p) (globals p))) as [value | e0].
  - destruct (str value) as [written | e0] eqn:E; simpl;
      (split; [ reflexivity | split; [ reflexivity | split; [ reflexivity | ] ] ]);
      intros e H; inversion H; subst.
    apply str_raises in E. subst. split; reflexivity.
  - destruct e0; simpl;
      (split; [ reflexivity | split; [ reflexivity | split; [ reflexivity | ] ] ]);
      intros e H; inversion H; subst; split; reflexivity.
Qed.

(** X16.  With an expression typed, [calculate] twice is [calculate]
    once: the second call returns or raises what the first did and
    leaves the process as the first left it. *)
Theorem calculate_twice {platform : Platform} (p : Process) :
  String.eqb (expression (state (ui p))) "" = false ->
  CalculatorApp.calculate (snd (CalculatorApp.calculate p)) = CalculatorApp.calculate p.
Proof.
  intros Hp. rewrite (app_calculate_spec p).
  destruct (fst (safe_eval (evaluated_text p) (globals p))) as [value | e] eqn:E.
  - destruct (str value) as [written | e] eqn:Es.
    + simpl. rewrite app_calculate_spec, evaluated_text_shown by assumption.
      change (globals (shown p written (evaluated_text p))) with (globals p).
      rewrite E, Es. reflexivity.
    + simpl. rewrite app_calculate_spec, E, Es. reflexivity.
  - destruct e; simpl;
      rewrite app_calculate_spec, ?evaluated_text_shown by assumption;
      try change (globals (shown p ?w (evaluated_text p))) with (globals p);
      rewrite E; reflexivity.
Qed.

Lemma calculate_twice_witness :
  let p := CalculatorApp.main (platform := bare_platform) (typing "7*6") in
  CalculatorApp.calculate (snd (CalculatorApp.calculate p)) = CalculatorApp.calculate p.
Proof.
  apply (calculate_twice (platform := bare_platform)). reflexivity.
Defined.

Section Equals.

Context {platform : Platform}.

(** The click on [=] after a text has been typed. *)
Lemma main_typing_equals (text : string) :
  typed text = true -> String.eqb text "" = false ->
  CalculatorApp.main (typing text ++ [Click "="]) =
  snd (CalculatorApp.calculate (CalculatorApp.main (typing text))) /\
  evaluated_text (CalculatorApp.main (typing text)) = text /\
  fst (safe_eval text (globals (CalculatorApp.main (typing text)))) = run (safe_eval text).
Proof.
  intros Ht Hne. rewrite main_app. simpl. unfold CalculatorApp.dispatch.
  rewrite callback_equals. split; [ reflexivity | ].
  rewrite main_typing by assumption. unfold evaluated_text. simpl.
  rewrite Hne. split; reflexivity.
Qed.

Lemma parsed_text_not_empty (text : string) (tree : AST) :
  ast_parse text = Return tree -> String.eqb text "" = false.
Proof. destruct text; [ discriminate | reflexivity ]. Qed.

End Equals.

(** X17.  Typing an expression over integer literals with the buttons and
    clicking [=] shows its value: when the text parses to a tree with the
    integer value [z], of at most 4300 digits, the result field and the
    display hold [str(z)], the history holds the text, and the expression
    stays for further typing. *)
Theorem typed_integer_expression_shown {platform : Platform} (text : string)
    (tree : AST) (z : Z) :
  typed text = true ->
  ast_parse text = Return tree -> integer_value tree = Some z ->
  Z.abs z < 10 ^ Str.int_max_str_digits ->
  let p := CalculatorApp.main (typing text ++ [Click "="]) in
  str (PyInt z) = Return (display_var (ui p)) /\
  result (state (ui p)) = display_var (ui p) /\
  history_var (ui p) = text /\
  expression (state (ui p)) = text.
Proof.
  intros Ht Hp Hv Hz.
  pose proof (parsed_text_not_empty text tree Hp) as Hne.
  destruct (main_typing_equals text Ht Hne) as (-> & Htext & Hrun).
  rewrite app_calculate_spec, Htext, Hrun.
  rewrite run_safe_eval, Hp, (integer_value_exact tree z Hv). simpl wrapped. cbv iota.
  destruct (str_int_short z Hz) as [written ->].
  rewrite main_typing by assumption. repeat split.
Qed.

Lemma typed_integer_expression_shown_witness :
  let p := CalculatorApp.main (platform := bare_platform)
             (typing "2**10-7//2" ++ [Click "="]) in
  str (PyInt 1021) = Return (display_var (ui p)) /\
  result (state (ui p)) = display_var (ui p) /\
  history_var (ui p) = "2**10-7//2"%string /\
  expression (state (ui p)) = "2**10-7//2"%string.
Proof.
  apply (typed_integer_expression_shown (platform := bare_platform) "2**10-7//2"
           (Expression (BinOp (BinOp (Constant (CInt 2)) Pow (Constant (CInt 10))) Sub
                          (BinOp (Constant (CInt 7)) FloorDiv (Constant (CInt 2)))))).
  - reflexivity.
  - vm_compute. reflexivity.
  - reflexivity.
  - vm_compute. reflexivity.
Defined.

(** X18.  When the value is an integer of more than 4300 digits, [str]
    raises [ValueError] in the [else] branch, outside the [try]:
    [calculate] raises it, and the click on [=] leaves the display, the
    result and the history as they were. *)
Theorem long_integer_not_shown {platform : Platform} (text : string)
    (tree : AST) (z : Z) :
  typed text = true ->
  ast_parse text = Return tree -> integer_value tree = Some z ->
  10 ^ Str.int_max_str_digits <= Z.abs z ->
  fst (CalculatorApp.calculate (CalculatorApp.main (typing text))) = Raise ValueError /\
  CalculatorApp.main (typing text ++ [Click "="]) = CalculatorApp.main (typing text).
Proof.
  intros Ht Hp Hv Hz.
  pose proof (parsed_text_not_empty text tree Hp) as Hne.
  destruct (main_typing_equals text Ht Hne) as (-> & Htext & Hrun).
  rewrite app_calculate_spec, Htext, Hrun.
  rewrite run_safe_eval, Hp, (integer_value_exact tree z Hv). simpl wrapped. cbv iota.
  rewrite (str_int_long z Hz). split; reflexivity.
Qed.

Lemma long_integer_not_shown_witness :
  fst (CalculatorApp.calculate
         (CalculatorApp.main (platform := bare_platform) (typing "9**9999")))
    = Raise ValueError /\
  CalculatorApp.main (platform := bare_platform) (typing "9**9999" ++ [Click "="])
    = CalculatorApp.main (platform := bare_platform) (typing "9**9999").
Proof.
  apply (long_integer_not_shown (platform := bare_platform) "9**9999"
           (Expression (BinOp (Constant (CInt 9)) Pow (Constant (CInt 9999))))
           (9 ^ 9999)).
  - reflexivity.
  - vm_compute. reflexivity.
  - reflexivity.
  - vm_compute. discriminate.
Defined.

(** X19.  Every [EvaluationError] of [safe_eval] on the typed text shows
    as ["Ошибка"] in the result field and the display; the expression is
    kept, and the history shows it. *)
Theorem evaluation_error_shown {platform : Platform} (text : string)
    (message : string) (cause : option exception) :
  typed text = true -> String.eqb text "" = false ->
  run (safe_eval text) = Raise (EvaluationError message cause) ->
  CalculatorApp.main (typing text ++ [Click "="]) =
  {| globals := module_globals;
     ui := {| state := {| expression := text; result := "Ошибка"; error := "" |};
              display_var := "Ошибка";
              history_var := text |} |}.
Proof.
  intros Ht Hne He.
  destruct (main_typing_equals text Ht Hne) as (-> & Htext & Hrun).
  rewrite app_calculate_spec, Htext, Hrun, He.
  rewrite main_typing by assumption. reflexivity.
Qed.

Lemma evaluation_error_shown_witness :
  CalculatorApp.main (platform := bare_platform) (typing "7/0" ++ [Click "="]) =
  {| globals := module_globals (platform := bare_platform);
     ui := {| state := {| expression := "7/0"; result := "Ошибка"; error := "" |};
              display_var := "Ошибка";
              history_var := "7/0" |} |}.
Proof.
  apply (evaluation_error_shown (platform := bare_platform) "7/0"
           "Invalid expression"
           (Some (EvaluationError "Division by zero" (Some ZeroDivisionError)))).
  - reflexivity.
  - reflexivity.
  - vm_compute. reflexivity.
Defined.

(** X20.  When [safe_eval] lets an exception through on the typed text
    (an [OverflowError], for one), [calculate] raises it too, and the
    click on [=] changes nothing: no ["Ошибка"], the display and the
    history stay as they were. *)
Theorem escaped_error_not_shown {platform : Platform} (text : string) (e : exception) :
  typed text = true -> String.eqb text "" = false ->
  run (safe_eval text) = Raise e -> is_EvaluationError e = false ->
  fst (CalculatorApp.calculate (CalculatorApp.main (typing text))) = Raise e /\
  CalculatorApp.main (typing text ++ [Click "="]) = CalculatorApp.main (typing text).
Proof.
  intros Ht Hne He Hb.
  destruct (main_typing_equals text Ht Hne) as (-> & Htext & Hrun).
  rewrite app_calculate_spec, Htext, Hrun, He.
  destruct e; try discriminate Hb; split; reflexivity.
Qed.

Lemma escaped_error_not_shown_witness :
  fst (CalculatorApp.calculate
         (CalculatorApp.main (platform := bare_platform) (typing "10**400/1")))
    = Raise OverflowError /\
  CalculatorApp.main (platform := bare_platform) (typing "10**400/1" ++ [Click "="])
    = CalculatorApp.main (platform := bare_platform) (typing "10**400/1").
Proof.
  apply (escaped_error_not_shown (platform := bare_platform) "10**400/1" OverflowError).
  - reflexivity.
  - reflexivity.
  - vm_compute. reflexivity.
  - reflexivity.
Defined.

(** X21.  With nothing typed, [calculate] evaluates the text of the result
    field: when that is [str(z)] for an integer [z], as ["0"] at the
    start and after [C], it keeps the result, and the display and the
    history show it. *)
Theorem empty_expression_evaluates_result {platform : Platform} (p : Process) (z : Z) :
  globals p = module_globals ->
  expression (state (ui p)) = ""%string ->
  str (PyInt z) = Return (result (state (ui p))) ->
  (String.length (result (state (ui p))) <= Parser.max_text_length)%nat ->
  CalculatorApp.calculate p =
  (Return tt, shown p (result (state (ui p))) (result (state (ui p)))).
Proof.
  intros Hg He Hs Hlen. rewrite app_calculate_spec.
  assert (Htext : evaluated_text p = result (state (ui p)))
    by (unfold evaluated_text; rewrite He; reflexivity).
  rewrite Htext, Hg.
  change (fst (safe_eval (result (state (ui p))) module_globals))
    with (run (safe_eval (result (state (ui p))))).
  rewrite (str_int_reads_back z _ Hs Hlen), Hs. reflexivity.
Qed.

Lemma empty_expression_evaluates_result_witness :
  CalculatorApp.calculate (CalculatorApp.main (platform := bare_platform) []) =
  (Return tt, shown (CalculatorApp.main (platform := bare_platform) []) "0" "0").
Proof.
  apply (empty_expression_evaluates_result (platform := bare_platform)
           (CalculatorApp.main (platform := bare_platform) []) 0).
  - reflexivity.
  - reflexivity.
  - reflexivity.
  - vm_compute. lia.
Defined.

(** ** What the buttons can enter *)

Module KeyedFacts.

Import Parser Keyed.

Local Open Scope char_scope.

Lemma key_cases (c : ascii) :
  key c = true -> In c keys.
Proof.
  unfold key. intros H. apply existsb_exists in H as (k & Hk & E).
  apply Ascii.eqb_eq in E. subst. exact Hk.
Qed.

Ltac each_key H :=
  apply key_cases in H; simpl in H;
  repeat (destruct H as [<- | H]; [ | ]); [ .. | contradiction ].

Lemma key_not_letter (c : ascii) :
  key c = true ->
  is_name_char c = is_digit c /\
  Ascii.eqb c "e" = false /\ Ascii.eqb c "E" = false /\
  Ascii.eqb c "j" = false /\ Ascii.eqb c "J" = false /\
  Ascii.eqb c " " = false /\ is_name_start c = false /\ is_quote c = false.
Proof. intros H. each_key H; repeat split. Qed.

Lemma span_rest p (cs xs rest : list ascii) :
  span p cs = (xs, rest) ->
  forallb key cs = true ->
  forallb key rest = true /\ starts_with p rest = false.
Proof.
  revert xs rest. induction cs as [| c cs IH]; intros xs rest; simpl.
  - intros H _. inversion H. split; reflexivity.
  - destruct (p c) eqn:Ep.
    + destruct (span p cs) as [xs' rest'] eqn:E. intros H Hk. inversion H. subst.
      apply andb_true_iff in Hk as [_ Hk]. eapply IH; [ reflexivity | exact Hk ].
    + intros H Hk. inversion H. subst. split; [ exact Hk | exact Ep ].
Qed.

Lemma lex_exponent_keyed (cs : list ascii) :
  forallb key cs = true -> lex_exponent cs = None.
Proof.
  destruct cs as [| c cs]; [ reflexivity | ]. simpl. intros H.
  apply andb_true_iff in H as [Hc _].
  destruct (key_not_letter c Hc) as (_ & -> & -> & _). reflexivity.
Qed.

Lemma starts_with_name_char (cs : list ascii) :
  forallb key cs = true -> starts_with is_digit cs = false ->
  starts_with is_name_char cs = false.
Proof.
  destruct cs as [| c cs]; [ reflexivity | ]. simpl. intros H Hd.
  apply andb_true_iff in H as [Hc _].
  destruct (key_not_letter c Hc) as (-> & _). exact Hd.
Qed.

Lemma not_imaginary (cs : list ascii) :
  forallb key cs = true ->
  match cs with
  | c :: cs' => if Ascii.eqb c "j" || Ascii.eqb c "J" then (true, cs') else (false, cs)
  | [] => (false, cs)
  end = (false, cs).
Proof.
  destruct cs as [| c cs]; [ reflexivity | ]. simpl. intros H.
  apply andb_true_iff in H as [Hc _].
  destruct (key_not_letter c Hc) as (_ & _ & _ & -> & -> & _). reflexivity.
Qed.

Lemma lex_number_keyed (cs : list ascii) (t : token) (rest : list ascii) :
  forallb key cs = true ->
  lex_number cs = Return (t, rest) ->
  keyed_token t = true /\ forallb key rest = true.
Proof.
  intros Hk. unfold lex_number.
  destruct (span is_digit cs) as [int_part cs1] eqn:E1.
  destruct (span_rest _ _ _ _ E1 Hk) as [Hk1 Hd1].
  assert (Hpoint : exists point frac_part cs2,
    match cs1 with
    | c :: cs' =>
        if Ascii.eqb c "." then
          let '(ds, rest) := span is_digit cs' in (true, ds, rest)
        else (false, [], cs1)
    | [] => (false, [], cs1)
    end = (point, frac_part, cs2) /\
    forallb key cs2 = true /\ starts_with is_digit cs2 = false).
  { destruct cs1 as [| c cs']; [ exists false, [], []; repeat split | ].
    destruct (Ascii.eqb c ".").
    - destruct (span is_digit cs') as [ds rest'] eqn:E2.
      simpl in Hk1. apply andb_true_iff in Hk1 as [_ Hk1].
      destruct (span_rest _ _ _ _ E2 Hk1). eauto 6.
    - eauto 6. }
  destruct Hpoint as (point & frac_part & cs2 & -> & Hk2 & Hd2).
  rewrite lex_exponent_keyed by assumption.
  rewrite not_imaginary by assumption.
  rewrite starts_with_name_char by assumption.
  destruct (point || _).
  - intros H. inversion H. subst. split; [ reflexivity | assumption ].
  - destruct (_ && _); [ discriminate | ].
    intros H. inversion H. subst. split; [ reflexivity | assumption ].
Qed.

Lemma lex_operator_keyed (c : ascii) (cs : list ascii) (t : token) (rest : list ascii) :
  key c = true -> forallb key cs = true ->
  lex_operator (c :: cs) = Return (t, rest) ->
  keyed_token t = true /\ forallb key rest = true.
Proof.
  intros Hc Hk.
  assert (Haug : forall (t0 : token) (rest0 : list ascii),
    forallb key rest0 = true -> keyed_token t0 = true ->
    (if starts_with (Ascii.eqb "=") rest0 then Raise NotModelled
     else Return (t0, rest0)) = Return (t, rest) ->
    keyed_token t = true /\ forallb key rest = true).
  { intros t0 rest0 Hr Ht. destruct (starts_with _ rest0); [ discriminate | ].
    intros H. inversion H. subst. split; assumption. }
  assert (Htail : forall d ds, forallb key (d :: ds) = true ->
            key d = true /\ forallb key ds = true)
    by (intros d ds H; apply andb_true_iff in H; exact H).
  each_key Hc; unfold lex_operator; try discriminate;
    try (apply Haug; [ assumption | reflexivity ]).
  - (* / *)
    destruct cs as [| d ds]; [ apply Haug; [ reflexivity | reflexivity ] | ].
    destruct (Htail d ds Hk) as [Hd Hds].
    destruct (Ascii.eqb_spec d "/") as [-> | Hne].
    + apply Haug; [ assumption | reflexivity ].
    + each_key Hd; try congruence; apply Haug; first [ assumption | reflexivity ].
  - (* * *)
    destruct cs as [| d ds]; [ apply Haug; [ reflexivity | reflexivity ] | ].
    destruct (Htail d ds Hk) as [Hd Hds].
    destruct (Ascii.eqb_spec d "*") as [-> | Hne].
    + apply Haug; [ assumption | reflexivity ].
    + each_key Hd; try congruence; apply Haug; first [ assumption | reflexivity ].
  - (* - *)
    destruct cs as [| d ds]; [ apply Haug; [ reflexivity | reflexivity ] | ].
    destruct (Htail d ds Hk) as [Hd Hds].
    each_key Hd; apply Haug; first [ assumption | reflexivity ].
  - (* . *)
    destruct cs as [| d ds];
      [ intros H; inversion H; split; reflexivity | ].
    destruct (Htail d ds Hk) as [Hd Hds].
    destruct (Ascii.eqb_spec d ".") as [-> | Hne].
    + destruct ds as [| d' ds'];
        [ intros H; inversion H; split; reflexivity | ].
      destruct (Htail d' ds' Hds) as [Hd' Hds'].
      destruct (Ascii.eqb_spec d' ".") as [-> | Hne'].
      * intros H; inversion H; subst; split; [ reflexivity | assumption ].
      * each_key Hd'; try congruence;
          intros H; inversion H; subst; split; first [ reflexivity | assumption ].
    + each_key Hd; try congruence;
        intros H; inversion H; subst; split; first [ reflexivity | assumption ].
Qed.

Lemma lex_token_keyed (cs : list ascii) (t : token) (rest : list ascii) :
  forallb key cs = true ->
  lex_token cs = Return (t, rest) ->
  keyed_token t = true /\ forallb key rest = true.
Proof.
  destruct cs as [| c cs]; [ discriminate | ]. intros Hk.
  pose proof Hk as Hk'. simpl in Hk'. apply andb_true_iff in Hk' as [Hc Hcs].
  unfold lex_token.
  destruct (_ || _); [ apply lex_number_keyed; assumption | ].
  destruct (key_not_letter c Hc) as (_ & _ & _ & _ & _ & _ & -> & ->).
  apply lex_operator_keyed; assumption.
Qed.

Lemma tokenize_keyed (fuel : nat) (cs : list ascii) (ts : list token) :
  forallb key cs = true ->
  tokenize fuel cs = Return ts -> keyed_tokens ts.
Proof.
  revert cs ts. induction fuel as [| fuel IH]; intros cs ts Hk; [ discriminate | ].
  simpl. destruct cs as [| c cs]; [ intros H; inversion H; reflexivity | ].
  pose proof Hk as Hk'. simpl in Hk'. apply andb_true_iff in Hk' as [Hc Hcs].
  destruct (key_not_letter c Hc) as (_ & _ & _ & _ & _ & -> & _).
  destruct (lex_token (c :: cs)) as [[t rest] | e] eqn:E; [ | discriminate ].
  destruct (lex_token_keyed _ _ _ Hk E) as [Ht Hrest].
  destruct (tokenize fuel rest) as [ts' | e] eqn:E'; [ | discriminate ].
  intros H. inversion H. subst. unfold keyed_tokens. simpl.
  rewrite Ht. exact (IH _ _ Hrest E').
Qed.

Lemma keyed_tokens_cons t ts :
  keyed_tokens (t :: ts) -> keyed_token t = true /\ keyed_tokens ts.
Proof. unfold keyed_tokens. simpl. intros H. apply andb_true_iff in H. exact H. Qed.

Lemma binary_tail_keeps operand level n lhs ts v rest :
  keeps operand -> keyed lhs = true -> keyed_tokens ts ->
  binary_tail operand level n lhs ts = Return (v, rest) ->
  keyed v = true /\ keyed_tokens rest.
Proof.
  intros Hop. revert lhs ts. induction n as [| n IH]; intros lhs ts Hl Hts; simpl.
  - destruct ts; intros H; inversion H; subst; auto.
  - destruct ts as [| t ts']; [ intros H; inversion H; subst; auto | ].
    destruct (binary_operator level t) as [o |] eqn:Eo;
      [ | intros H; inversion H; subst; auto ].
    destruct (keyed_tokens_cons _ _ Hts) as [Ht Hts'].
    destruct (operand ts') as [[rhs rest'] | e] eqn:E; [ | discriminate ].
    destruct (Hop _ _ _ Hts' E) as [Hr Hrest'].
    apply IH; [ | assumption ].
    simpl. rewrite Hl, Hr.
    destruct level as [| [| [| [| [| [| level]]]]]], t; simpl in Eo;
      try discriminate; inversion Eo; reflexivity.
Qed.

Lemma boolean_tail_keyed operand sep n ts r :
  (forall t, keyed_token t = true -> sep t = false) -> keyed_tokens ts ->
  boolean_tail operand sep n ts = Return r -> r = ([], ts).
Proof.
  intros Hsep Hts. destruct n as [| n]; simpl.
  - destruct ts; intros H; inversion H; reflexivity.
  - destruct ts as [| t ts']; [ intros H; inversion H; reflexivity | ].
    destruct (keyed_tokens_cons _ _ Hts) as [Ht _].
    rewrite (Hsep t Ht). intros H; inversion H; reflexivity.
Qed.

Lemma comparison_tail_keyed operand n ts r :
  keyed_tokens ts ->
  comparison_tail operand n ts = Return r -> r = ([], [], ts).
Proof.
  intros Hts. destruct n as [| n]; simpl.
  - destruct ts; intros H; inversion H; reflexivity.
  - destruct ts as [| t ts']; [ intros H; inversion H; reflexivity | ].
    destruct (keyed_tokens_cons _ _ Hts) as [Ht _].
    destruct t; try discriminate Ht; simpl;
      try (destruct value; try discriminate Ht);
      intros H; inversion H; reflexivity.
Qed.

Lemma trailers_keyed expression n f ts r :
  keyed_tokens ts ->
  trailers expression n f ts = Return r -> r = (f, ts).
Proof.
  intros Hts. destruct n as [| n]; simpl.
  - destruct ts; intros H; inversion H; reflexivity.
  - destruct ts as [| t ts']; [ intros H; inversion H; reflexivity | ].
    destruct (keyed_tokens_cons _ _ Hts) as [Ht Hts'].
    destruct t; try discriminate Ht;
      try (intros H; inversion H; reflexivity).
    destruct ts' as [| t' ts'']; [ discriminate | ].
    destruct (keyed_tokens_cons _ _ Hts') as [Ht' _].
    destruct t'; try discriminate Ht'; discriminate.
Qed.

Lemma parse_keeps (fuel : nat) : forall r, keeps (parse fuel r).
Proof.
  induction fuel as [| fuel IH]; intros r ts v rest Hts; [ discriminate | ].
  simpl. destruct r.
  - destruct (parse fuel conjunction ts) as [[v0 rest0] | e] eqn:E; [ | discriminate ].
    destruct (IH _ _ _ _ Hts E) as [Hv Hrest].
    destruct (boolean_tail _ _ _ _) as [r |] eqn:E'; [ | discriminate ].
    apply boolean_tail_keyed in E'; [ | | assumption ].
    + subst r. intros H. inversion H. subst. auto.
    + intros t Ht. destruct t; try reflexivity; discriminate Ht.
  - destruct (parse fuel inversion ts) as [[v0 rest0] | e] eqn:E; [ | discriminate ].
    destruct (IH _ _ _ _ Hts E) as [Hv Hrest].
    destruct (boolean_tail _ _ _ _) as [r |] eqn:E'; [ | discriminate ].
    apply boolean_tail_keyed in E'; [ | | assumption ].
    + subst r. intros H. inversion H. subst. auto.
    + intros t Ht. destruct t; try reflexivity; discriminate Ht.
  - destruct ts as [| t ts']; [ apply IH; assumption | ].
    destruct (keyed_tokens_cons _ _ Hts) as [Ht Hts'].
    destruct t; try discriminate Ht; apply IH; assumption.
  - destruct (parse fuel (binary 0) ts) as [[v0 rest0] | e] eqn:E; [ | discriminate ].
    destruct (IH _ _ _ _ Hts E) as [Hv Hrest].
    destruct (comparison_tail _ _ _) as [r |] eqn:E'; [ | discriminate ].
    apply comparison_tail_keyed in E'; [ | assumption ].
    subst r. intros H. inversion H. subst. auto.
  - destruct (level <? 5)%nat.
    + destruct (parse fuel (binary (S level)) ts) as [[v0 rest0] | e] eqn:E;
        [ | discriminate ].
      destruct (IH _ _ _ _ Hts E) as [Hv Hrest].
      apply binary_tail_keeps; [ apply IH | assumption | assumption ].
    + destruct (parse fuel factor ts) as [[v0 rest0] | e] eqn:E; [ | discriminate ].
      destruct (IH _ _ _ _ Hts E) as [Hv Hrest].
      apply binary_tail_keeps; [ apply IH | assumption | assumption ].
  - assert (Hu : forall o ts', keyed_tokens ts' -> (o = UAdd \/ o = USub) ->
        match parse fuel factor ts' with
        | Return (v, rest) => Return (UnaryOp o v, rest)
        | Raise e => Raise e
        end = Return (v, rest) -> keyed v = true /\ keyed_tokens rest).
    { intros o ts' Hts' Ho.
      destruct (parse fuel factor ts') as [[v0 rest0] | e] eqn:E; [ | discriminate ].
      destruct (IH _ _ _ _ Hts' E) as [Hv Hrest].
      intros H. inversion H. subst. split; [ | assumption ].
      destruct Ho as [-> | ->]; exact Hv. }
    destruct ts as [| t ts']; [ apply IH; assumption | ].
    destruct (keyed_tokens_cons _ _ Hts) as [Ht Hts'].
    destruct t; try discriminate Ht; try (apply IH; assumption);
      apply Hu; auto.
  - destruct (parse fuel primary ts) as [[base rest0] | e] eqn:E; [ | discriminate ].
    destruct (IH _ _ _ _ Hts E) as [Hv Hrest].
    destruct rest0 as [| t ts']; [ intros H; inversion H; subst; auto | ].
    destruct (keyed_tokens_cons _ _ Hrest) as [Ht Hts'].
    destruct t; try discriminate Ht;
      try (intros H; inversion H; subst; auto; fail).
    destruct (parse fuel factor ts') as [[v1 rest1] | e] eqn:E'; [ | discriminate ].
    destruct (IH _ _ _ _ Hts' E') as [Hv1 Hrest1].
    intros H. inversion H. subst. split; [ | assumption ].
    simpl. rewrite Hv, Hv1. reflexivity.
  - destruct (parse fuel atom ts) as [[a rest0] | e] eqn:E; [ | discriminate ].
    destruct (IH _ _ _ _ Hts E) as [Hv Hrest].
    intros H. apply trailers_keyed in H; [ | assumption ].
    inversion H. subst. auto.
  - destruct ts as [| t ts']; [ discriminate | ].
    destruct (keyed_tokens_cons _ _ Hts) as [Ht Hts'].
    destruct t; try discriminate Ht; try discriminate.
    + destruct value; try discriminate Ht;
        intros H; inversion H; subst; auto.
    + intros H; inversion H; subst; auto.
Qed.

Lemma parse_eval_keyed (source : string) (tree : AST) :
  typed source = true -> parse_eval source = Return tree -> keyed tree = true.
Proof.
  intros Ht. unfold parse_eval.
  destruct (_ || _); [ discriminate | ].
  destruct (starts_with _ _); [ discriminate | ].
  destruct (tokenize _ _) as [ts | e] eqn:E; [ | discriminate ].
  apply tokenize_keyed in E; [ | exact Ht ].
  destruct (parse _ _ _) as [[body rest] | e] eqn:E'; [ | discriminate ].
  destruct (parse_keeps _ _ _ _ _ E E') as [Hb _].
  destruct rest; [ | discriminate ].
  intros H. inversion H. exact Hb.
Qed.

End KeyedFacts.

Lemma keyed_no_unsupported_expression {platform : Platform} (node : AST) :
  arithmetic_platform platform ->
  keyed node = true ->
  run (_evaluate_ast node) <> Raise (EvaluationError "Unsupported expression" None).
Proof.
  intros Hp. induction node; intros Hk; simpl in Hk; try discriminate.
  - rewrite run_Expression. auto.
  - rewrite run_Constant. destruct (int_or_float value); discriminate.
  - rewrite run_UnaryOp. destruct op; try discriminate; simpl;
      (destruct (run (_evaluate_ast node)) as [v | e]; [ | auto ]).
    + discriminate.
    + destruct v; discriminate.
  - rewrite run_BinOp.
    apply andb_true_iff in Hk as [Hk Hr]. apply andb_true_iff in Hk as [Hop Hl].
    destruct (allowed_operator op) as [f |] eqn:Ef;
      [ | destruct op; discriminate ].
    destruct (run (_evaluate_ast node1)) as [a | e]; [ | auto ].
    destruct (run (_evaluate_ast node2)) as [b | e]; [ | auto ].
    destruct (f a b) as [v | e] eqn:E; [ discriminate | ].
    destruct (table_raises Hp op f a b e Ef E) as [-> | [-> | [-> | ->]]];
      discriminate.
Qed.

(** X22.  With the buttons alone no identifier, call, comparison, bitwise
    operator or parenthesis can be entered: a text of their characters,
    if it parses, is a tree of integer and float literals, [...], signs
    and the seven arithmetic operators, and [safe_eval] on it never
    fails with ["Unsupported expression"]. *)
Theorem typed_text_is_arithmetic {platform : Platform} (text : string) :
  arithmetic_platform platform ->
  typed text = true ->
  (forall tree, ast_parse text = Return tree -> keyed tree = true) /\
  run (safe_eval text) <> Raise unsupported_expression.
Proof.
  intros Hp Ht. split; [ intros tree; apply KeyedFacts.parse_eval_keyed; exact Ht | ].
  rewrite run_safe_eval.
  destruct (ast_parse text) as [tree | e] eqn:E.
  - pose proof (KeyedFacts.parse_eval_keyed text tree Ht E) as Hk.
    pose proof (keyed_no_unsupported_expression tree Hp Hk) as Hn.
    destruct (run (_evaluate_ast tree)) as [v | e]; [ discriminate | ].
    destruct e; simpl; try discriminate.
    intros H. inversion H. subst. apply Hn. reflexivity.
  - destruct (ast_parse_raises text e E) as [-> | ->]; discriminate.
Qed.

Lemma typed_text_is_arithmetic_witness :
  (forall tree, ast_parse "...-.5**2" = Return tree -> keyed tree = true) /\
  run (platform := bare_platform) (safe_eval "...-.5**2") <> Raise unsupported_expression.
Proof.
  apply (typed_text_is_arithmetic (platform := bare_platform) "...-.5**2").
  - intros o x y e H. inversion H. right. left. reflexivity.
  - reflexivity.
Defined.

(** ** How a true division is written *)

Module StrText.

Local Open Scope char_scope.
Local Open Scope Z_scope.

Lemma of_int_numeral (z : Z) (cs : list ascii) :
  Str.of_int z = Return cs -> forallb numeral_char cs = true.
Proof.
  unfold Str.of_int.
  destruct (10 ^ Str.int_max_str_digits <=? Z.abs z)%Z; [ discriminate | ].
  assert (Hd : forall n, forallb numeral_char (Unparse.decimal n) = true).
  { intros n. pose proof (UnparseFacts.decimal_are_digits n) as H.
    induction (Unparse.decimal n) as [| c cs' IH]; [ reflexivity | ].
    simpl in *. apply andb_true_iff in H as [Hc Hcs].
    unfold numeral_char at 1. rewrite Hc. simpl. auto. }
  destruct (z <? 0); intros H; inversion H; [ simpl | ]; apply Hd.
Qed.

Lemma drop_trailing_point_keeps (pre post : list ascii) :
  post <> [] -> In "." (Str.drop_trailing_point (pre ++ "." :: post)).
Proof.
  intros Hpost. unfold Str.drop_trailing_point.
  destruct (rev (pre ++ "." :: post)) as [| c r] eqn:E.
  - apply in_or_app. right. left. reflexivity.
  - assert (Hin : In "." (pre ++ "." :: post))
      by (apply in_or_app; right; left; reflexivity).
    destruct (Ascii.eqb_spec c ".") as [-> | Hne].
    + destruct (exists_last Hpost) as (post' & last & ->).
      rewrite app_comm_cons, app_assoc, rev_app_distr in E. simpl in E.
      inversion E. subst. rewrite rev_involutive.
      apply in_or_app. right. left. reflexivity.
    + destruct c as [[] [] [] [] [] [] [] []]; try exact Hin. congruence.
Qed.

Lemma zeros_not_empty (n : Z) : 0 < n -> Str.zeros n <> [].
Proof.
  intros Hn. unfold Str.zeros.
  destruct (Z.to_nat n) eqn:E; [ lia | discriminate ].
Qed.

(** The text of a float holds a point, an [e], or is [inf] or [nan]. *)
Lemma format_float_mark (x : float) :
  exists c, In c (Str.format_float_short x false true) /\ numeral_char c = false.
Proof.
  unfold Str.format_float_short.
  destruct (is_nan x).
  - exists "n". split; [ | reflexivity ].
    apply in_or_app. right. simpl. auto.
  - destruct (is_inf x).
    + exists "n". split; [ | reflexivity ].
      apply in_or_app. right. simpl. auto.
    + destruct (Str.dtoa x) as [digits decpt].
      set (len := Z.of_nat (length digits)).
      destruct ((decpt <=? -4) || (16 <? decpt)) eqn:Eexp.
      * exists "e". split; [ | reflexivity ].
        apply in_or_app. right. apply in_or_app. right. left. reflexivity.
      * exists ".". split; [ | reflexivity ].
        apply in_or_app. right. apply in_or_app. left.
        cbn [negb andb].
        destruct (Z.leb_spec decpt 0) as [Hle | Hgt].
        -- cbn [andb].
           assert ((0 <? decpt) = false) as -> by (apply Z.ltb_ge; lia).
           cbn [andb]. rewrite <- app_assoc. simpl app at 2.
           apply drop_trailing_point_keeps.
           destruct (Z.ltb_spec decpt len) as [Hlt | Hge].
           ++ destruct digits as [| d ds].
              ** subst len. simpl in Hlt.
                 intros H. apply app_eq_nil in H as [H _].
                 revert H. apply zeros_not_empty. lia.
              ** intros H. apply app_eq_nil in H as [_ H].
                 apply app_eq_nil in H as [H _]. discriminate.
           ++ assert (len = 0 /\ decpt = 0) as [Hl ->] by (subst len; lia).
              assert ((len <? 0) = false) as -> by (apply Z.ltb_ge; lia).
              intros H. apply app_eq_nil in H as [_ H].
              apply app_eq_nil in H as [_ H].
              revert H. apply zeros_not_empty. lia.
        -- assert ((0 <? decpt) = true) as -> by (apply Z.ltb_lt; lia).
           cbn [andb app].
           destruct (Z.leb_spec decpt len) as [Hle | Hgt'].
           ++ rewrite <- !app_assoc. simpl app.
              destruct (Z.ltb_spec decpt len) as [Hlt | Hge].
              ** assert ((len <? decpt) = false) as -> by (apply Z.ltb_ge; lia).
                 apply drop_trailing_point_keeps.
                 intros H. apply app_eq_nil in H as [H _].
                 assert (Hs : length (skipn (Z.to_nat decpt) digits) = 0%nat)
                   by (rewrite H; reflexivity).
                 rewrite length_skipn in Hs. subst len. lia.
              ** assert ((len <? decpt) = false) as -> by (apply Z.ltb_ge; lia).
                 apply drop_trailing_point_keeps.
                 intros H. apply app_eq_nil in H as [_ H].
                 revert H. apply zeros_not_empty. lia.
           ++ assert ((len <? decpt) = true) as -> by (apply Z.ltb_lt; lia).
              assert ((decpt <? len) = false) as -> by (apply Z.ltb_ge; lia).
              rewrite !app_assoc.
              apply drop_trailing_point_keeps.
              apply zeros_not_empty. lia.
Qed.

Lemma of_complex_mark (c : complex) :
  exists k, In k (Str.of_complex c) /\ numeral_char k = false.
Proof.
  exists "j". split; [ | reflexivity ].
  unfold Str.of_complex. destruct (_ && _).
  - apply in_or_app. right. left. reflexivity.
  - right. apply in_or_app. right. apply in_or_app. right. left. reflexivity.
Qed.

End StrText.

(** What is no [int] and no [bool] is written as no integer is. *)
Lemma str_not_int (v : Number) (z : Z) :
  is_int v = false -> str v <> str (PyInt z).
Proof.
  intros Hv H.
  assert (Hmark : exists cs c, str v = Return (string_of_list_ascii cs) /\
                               In c cs /\ numeral_char c = false).
  { destruct v as [n | b | f | c]; try discriminate Hv.
    - destruct (StrText.format_float_mark f) as (k & Hin & Hk). eauto.
    - destruct (StrText.of_complex_mark c) as (k & Hin & Hk). eauto. }
  destruct Hmark as (cs & c & E & Hin & Hc).
  rewrite E in H. unfold str in H.
  destruct (Str.of_int z) as [ds |] eqn:Ez; [ | discriminate ].
  inversion H as [Heq].
  apply (f_equal list_ascii_of_string) in Heq.
  rewrite !list_ascii_of_string_of_list_ascii in Heq. subst ds.
  pose proof (StrText.of_int_numeral z cs Ez) as Hall.
  rewrite forallb_forall in Hall. rewrite (Hall c Hin) in Hc. discriminate.
Qed.

(** X23.  What a [/] node evaluates to is never written like an integer:
    [str] of the value holds a point, an exponent, [inf], [nan] or a [j],
    so the display of a true division differs from that of every
    integer, also when the quotient is exact. *)
Theorem true_division_written_as_float {platform : Platform} (l r : AST) (v : Number) :
  run (_evaluate_ast (BinOp l Div r)) = Return v ->
  forall z : Z, str v <> str (PyInt z).
Proof.
  intros H z. apply str_not_int.
  rewrite run_BinOp in H. simpl in H.
  destruct (run (_evaluate_ast l)) as [a | e]; [ | discriminate ].
  destruct (run (_evaluate_ast r)) as [b | e]; [ | discriminate ].
  apply guarded_Return in H. eapply truediv_not_int. eassumption.
Qed.

Lemma true_division_written_as_float_witness :
  str (PyFloat two) = Return "2.0"%string /\
  forall z : Z, str (PyFloat two) <> str (PyInt z).
Proof.
  split; [ vm_compute; reflexivity | ].
  apply (true_division_written_as_float (platform := bare_platform)
           (Constant (CInt 4)) (Constant (CInt 2)) (PyFloat two)).
  vm_compute. reflexivity.
Defined.
